(** * Perplexity IDE integration: stream parser and conversation service

    A shallow embedding of

    - [PerplexityClient.processStreamingResponse]
      (src/vs/workbench/contrib/perplexity/node/perplexityClient.ts), the
      incremental decoder of the server-sent event stream, and
    - [PerplexityService]
      (src/vs/workbench/contrib/perplexity/browser/perplexityServiceImpl.ts),
      the conversation store and orchestrator,

    together with the properties that the design document states about
    them (module [EventStream] has the lines of the stream in the words
    of that document), and of

    - the other methods of [PerplexityClient], which start and stop
      CycleTLS, keep the session and send the requests,
    - [initialize], [authenticate] and [dispose] of [PerplexityService], and
    - the methods of [PerplexityViewPane]
      (src/vs/workbench/contrib/perplexity/browser/perplexityViewPane.ts)
      that select a conversation, send a message and listen to the service,

    together with further properties that the code has.

    ECMAScript values are modelled as the code sees them: a string is a
    sequence of UTF-16 code units, a [Buffer] is a sequence of bytes, the
    result of [JSON.parse] is a tree of JSON values, a [Date] is its
    millisecond time value. *)

From Stdlib Require Import Strings.Ascii Strings.String Strings.Byte.
From Stdlib Require Import List Bool Arith ZArith NArith Lia.
From Stdlib Require Import Sorting.Sorted Sorting.Permutation.
Import ListNotations.

Set Implicit Arguments.
Local Open Scope list_scope.

(* ===================================================================== *)
(** * ECMAScript strings *)
(* ===================================================================== *)

Module JsString.

(** A code unit is a 16-bit unsigned integer; a string is a finite
    sequence of code units.  [s.length] is [length s]. *)
Definition code_unit := N.
Definition jsstring := list code_unit.

(** String literals of the source, written in ASCII. *)
Definition lit (s : String.string) : jsstring :=
  map N_of_ascii (list_ascii_of_string s).

(** A literal in which an apostrophe stands for a quotation mark. *)
Definition quoted (s : String.string) : jsstring :=
  map (fun c => if (c =? 39)%N then 34%N else c) (lit s).

Fixpoint eqb (s t : jsstring) : bool :=
  match s, t with
  | [], [] => true
  | c :: s', d :: t' => N.eqb c d && eqb s' t'
  | _, _ => false
  end.

(** [s.startsWith(p)] *)
Fixpoint startsWith (s p : jsstring) {struct p} : bool :=
  match p, s with
  | [], _ => true
  | d :: p', c :: s' => N.eqb c d && startsWith s' p'
  | _ :: _, [] => false
  end.

(** [s.substring(start)] and [s.substring(0, stop)] for non-negative
    integer arguments; both clamp to the length of [s]. *)
Definition substring_from (start : nat) (s : jsstring) : jsstring := skipn start s.
Definition substring_to (stop : nat) (s : jsstring) : jsstring := firstn stop s.

(** ECMAScript WhiteSpace and LineTerminator code points, the set that
    [String.prototype.trim] strips. *)
Definition isWhiteSpace (c : code_unit) : bool :=
  (  (9 <=? c) && (c <=? 13)            (* TAB LF VT FF CR *)
  || (c =? 32) || (c =? 160)            (* SP NBSP *)
  || (c =? 5760)                        (* U+1680 *)
  || ((8192 <=? c) && (c <=? 8202))     (* U+2000 .. U+200A *)
  || (c =? 8232) || (c =? 8233)         (* LS PS *)
  || (c =? 8239) || (c =? 8287)         (* U+202F U+205F *)
  || (c =? 12288) || (c =? 65279))%N.   (* U+3000 BOM *)

Fixpoint trimStart (s : jsstring) : jsstring :=
  match s with
  | c :: s' => if isWhiteSpace c then trimStart s' else s
  | [] => []
  end.

Definition trimEnd (s : jsstring) : jsstring := rev (trimStart (rev s)).

(** [s.trim()] *)
Definition trim (s : jsstring) : jsstring := trimEnd (trimStart s).

Definition LF : code_unit := 10%N.
Definition CR : code_unit := 13%N.

(** [s.replace(/\r$/, '')]: without the [m] flag [$] matches at the end
    of the input only, so at most one final CR is removed. *)
Definition replace_final_CR (s : jsstring) : jsstring :=
  match rev s with
  | c :: r => if N.eqb c CR then rev r else s
  | [] => s
  end.

(** [s.split('\n')]: the pieces between line feeds; never empty. *)
Fixpoint split_LF (s : jsstring) : list jsstring :=
  match s with
  | [] => [[]]
  | c :: s' =>
      if N.eqb c LF then [] :: split_LF s'
      else match split_LF s' with
           | p :: ps => (c :: p) :: ps
           | [] => [[c]]
           end
  end.

(** [n.toString(36)] for an integer [n]. *)
Definition digit36 (d : N) : code_unit :=
  (if d <? 10 then 48 + d else 87 + d)%N.

Fixpoint digits36 (fuel : nat) (n : N) (acc : jsstring) : jsstring :=
  match fuel with
  | O => acc
  | S fuel' =>
      let acc' := digit36 (n mod 36) :: acc in
      if (n / 36 =? 0)%N then acc' else digits36 fuel' (n / 36) acc'
  end.

Definition toString36 (n : Z) : jsstring :=
  let m := Z.to_N (Z.abs n) in
  let ds := digits36 (S (N.to_nat (N.log2 m))) m [] in
  if (n <? 0)%Z then 45%N :: ds else ds.

End JsString.

Import JsString.
Arguments lit _%_string.
Arguments quoted _%_string.

(* ===================================================================== *)
(** * Buffers *)
(* ===================================================================== *)

Module Buffer.

(** A Node.js [Buffer]: a sequence of bytes. *)
Definition Buffer := list byte.

Definition REPLACEMENT : code_unit := 0xFFFD%N.

(** UTF-16 encoding of a Unicode scalar value. *)
Definition utf16 (cp : N) : jsstring :=
  (if cp <? 0x10000 then [cp]
   else [0xD800 + N.shiftr (cp - 0x10000) 10;
         0xDC00 + N.land (cp - 0x10000) 0x3FF])%N.

(** State of the UTF-8 decoder between two bytes: either at a character
    boundary, or inside a sequence with the code point bits read so far,
    the number of continuation bytes still expected and the range
    allowed for the next byte. *)
Inductive decoder :=
| Boundary
| Inside (cp : N) (needed : nat) (lower upper : N).

Definition lead (b : N) : jsstring * decoder :=
  (if b <=? 0x7F then ([b], Boundary)
   else if (0xC2 <=? b) && (b <=? 0xDF) then
     ([], Inside (N.land b 0x1F) 1 0x80 0xBF)
   else if (0xE0 <=? b) && (b <=? 0xEF) then
     ([], Inside (N.land b 0xF) 2
            (if b =? 0xE0 then 0xA0 else 0x80)
            (if b =? 0xED then 0x9F else 0xBF))
   else if (0xF0 <=? b) && (b <=? 0xF4) then
     ([], Inside (N.land b 0x7) 3
            (if b =? 0xF0 then 0x90 else 0x80)
            (if b =? 0xF4 then 0x8F else 0xBF))
   else ([REPLACEMENT], Boundary))%N.

(** One byte.  A byte that cannot continue the pending sequence ends it
    with U+FFFD and is then decoded afresh. *)
Definition step (d : decoder) (b : N) : jsstring * decoder :=
  match d with
  | Boundary => lead b
  | Inside cp needed lower upper =>
      if ((lower <=? b) && (b <=? upper))%N then
        let cp' := N.lor (N.shiftl cp 6) (N.land b 0x3F) in
        match needed with
        | S (S n) => ([], Inside cp' (S n) 0x80 0xBF)
        | _ => (utf16 cp', Boundary)
        end
      else let (out, d') := lead b in (REPLACEMENT :: out, d')
  end.

(** End of input inside a sequence yields one U+FFFD. *)
Fixpoint decode (d : decoder) (bytes : list byte) : jsstring :=
  match bytes with
  | [] => match d with Boundary => [] | Inside _ _ _ _ => [REPLACEMENT] end
  | b :: bs => let (out, d') := step d (Byte.to_N b) in out ++ decode d' bs
  end.

(** [buf.toString()], that is [buf.toString('utf8')]: every call decodes
    its own bytes from a character boundary. *)
Definition toString (buf : Buffer) : jsstring := decode Boundary buf.

(** A byte that is a character by itself. *)
Definition is_ascii (b : byte) : bool := (Byte.to_N b <=? 0x7F)%N.

(** The bytes of an ASCII literal in which an apostrophe stands for a
    quotation mark. *)
Definition ascii_bytes (s : String.string) : Buffer :=
  map (fun b => if Byte.eqb b x27 then x22 else b) (list_byte_of_string s).

End Buffer.

Arguments Buffer.ascii_bytes _%_string.

(* ===================================================================== *)
(** * JSON values *)
(* ===================================================================== *)

Module JSON.

(** A Number that [JSON.parse] can return: a finite binary64 value
    [(-1)^negative * mantissa * 2^exponent], or an infinity.  A finite
    value is kept in the one form that the format has for it:
    [mantissa < 2^53] and [-1074 <= exponent <= 971], with
    [2^52 <= mantissa] unless [exponent] is [-1074]. *)
Inductive number :=
| Finite (negative : bool) (mantissa : N) (exponent : Z)
| Infinite (negative : bool).

(** The Number value for the decimal [coefficient * 10^exponent10]: the
    binary64 value nearest to it, ties to the even mantissa, and an
    infinity from [2^1024 - 2^970] on. *)
Definition round_binary64 (negative : bool) (coefficient : N)
  (exponent10 : Z) : number :=
  if (coefficient =? 0)%N then Finite negative 0 (-1074)
  else
    let num := (Z.of_N coefficient * 10 ^ Z.max exponent10 0)%Z in
    let den := (10 ^ Z.max (- exponent10) 0)%Z in
    (* 2^k <= num / den < 2^(k + 1) *)
    let k0 := (Z.log2 num - Z.log2 den)%Z in
    let below :=
      (if k0 <? 0 then num * 2 ^ (- k0) <? den else num <? den * 2 ^ k0)%Z in
    let k := (if below then k0 - 1 else k0)%Z in
    (* the weight of the last bit of the mantissa *)
    let q := Z.max (k - 52) (-1074) in
    let n := (if q <? 0 then num * 2 ^ (- q) else num)%Z in
    let d := (if q <? 0 then den else den * 2 ^ q)%Z in
    let m := (n / d)%Z in
    let r := (n mod d)%Z in
    let m := (if (d <? 2 * r) || ((2 * r =? d) && Z.odd m)
              then m + 1 else m)%Z in
    let '(m, q) := (if m =? 2 ^ 53 then (2 ^ 52, q + 1) else (m, q))%Z in
    if (971 <? q)%Z then Infinite negative
    else Finite negative (Z.to_N m) q.

(** What [JSON.parse] returns.  An object keeps its members in source
    order; a repeated key denotes its last occurrence. *)
#[warnings="-register-all"] Inductive value :=
| JNull
| JBool (b : bool)
| JNum (n : number)
| JStr (s : jsstring)
| JArr (elements : list value)
| JObj (members : list (jsstring * value)).

(** [+0] and [-0] *)
Definition number_is_zero (n : number) : bool :=
  match n with
  | Finite _ mantissa _ => (mantissa =? 0)%N
  | Infinite _ => false
  end.

(** ToBoolean *)
Definition truthy (v : value) : bool :=
  match v with
  | JNull => false
  | JBool b => b
  | JNum n => negb (number_is_zero n)
  | JStr s => negb (JsString.eqb s [])
  | JArr _ | JObj _ => true
  end.

Fixpoint lookup (key : jsstring) (members : list (jsstring * value))
  : option value :=
  match members with
  | [] => None
  | (k, v) :: rest =>
      match lookup key rest with
      | Some v' => Some v'
      | None => if JsString.eqb k key then Some v else None
      end
  end.

(** [v.key] for a value [v] other than [null] and a [key] that is neither
    an array index, nor ["length"], nor a member of a built-in prototype:
    [None] is [undefined]. *)
Definition get (v : value) (key : jsstring) : option value :=
  match v with
  | JObj members => lookup key members
  | _ => None
  end.

(** ** A reference implementation of [JSON.parse] *)

Definition is_ws (c : code_unit) : bool :=
  ((c =? 32) || (c =? 9) || (c =? 10) || (c =? 13))%N.

Fixpoint skip_ws (s : jsstring) : jsstring :=
  match s with
  | c :: s' => if is_ws c then skip_ws s' else s
  | [] => []
  end.

Definition is_digit (c : code_unit) : bool := ((48 <=? c) && (c <=? 57))%N.

Definition hex_digit (c : code_unit) : option N :=
  (if (48 <=? c) && (c <=? 57) then Some (c - 48)
   else if (65 <=? c) && (c <=? 70) then Some (c - 55)
   else if (97 <=? c) && (c <=? 102) then Some (c - 87)
   else None)%N.

(** The characters of a string literal after its opening quote. *)
Fixpoint parse_chars (s : jsstring) (acc : jsstring)
  : option (jsstring * jsstring) :=
  match s with
  | [] => None
  | 34%N :: rest => Some (rev acc, rest)
  | 92%N :: 117%N :: a :: b :: c :: d :: rest =>
      match hex_digit a, hex_digit b, hex_digit c, hex_digit d with
      | Some a', Some b', Some c', Some d' =>
          parse_chars rest ((4096 * a' + 256 * b' + 16 * c' + d')%N :: acc)
      | _, _, _, _ => None
      end
  | 92%N :: e :: rest =>
      let unescaped :=
        (if (e =? 34) || (e =? 92) || (e =? 47) then Some e
         else if e =? 98 then Some 8
         else if e =? 102 then Some 12
         else if e =? 110 then Some 10
         else if e =? 114 then Some 13
         else if e =? 116 then Some 9
         else None)%N in
      match unescaped with
      | Some c => parse_chars rest (c :: acc)
      | None => None
      end
  | c :: rest => if (c <? 32)%N then None else parse_chars rest (c :: acc)
  end.

(** A maximal run of decimal digits: its value, its length, the rest. *)
Fixpoint parse_digits (s : jsstring) (acc : N) (count : nat)
  : N * nat * jsstring :=
  match s with
  | c :: s' =>
      if is_digit c then parse_digits s' (10 * acc + (c - 48))%N (S count)
      else (acc, count, s)
  | [] => (acc, count, [])
  end.

Definition parse_exponent (s : jsstring) : option (Z * jsstring) :=
  match s with
  | (101%N | 69%N) :: s1 =>
      let '(sign, s2) :=
        match s1 with
        | 43%N :: r => (1%Z, r)
        | 45%N :: r => ((-1)%Z, r)
        | _ => (1%Z, s1)
        end in
      match parse_digits s2 0 0 with
      | (_, O, _) => None
      | (e, _, rest) => Some ((sign * Z.of_N e)%Z, rest)
      end
  | _ => Some (0%Z, s)
  end.

(** A number literal: the Number value for its decimal, as V8 computes it
    for a literal of any length. *)
Definition parse_number (s : jsstring) : option (value * jsstring) :=
  let '(neg, s1) :=
    match s with 45%N :: r => (true, r) | _ => (false, s) end in
  match s1 with
  | d :: _ =>
      if negb (is_digit d) then None else
      let '(int, int_len, s2) := parse_digits s1 0 0 in
      if (d =? 48)%N && negb (Nat.eqb int_len 1) then None else
      let frac :=
        match s2 with
        | 46%N :: r =>
            match parse_digits r int 0 with
            | (_, O, _) => None
            | (m, frac_len, rest) => Some (m, frac_len, rest)
            end
        | _ => Some (int, O, s2)
        end in
      match frac with
      | None => None
      | Some (m, frac_len, s3) =>
          match parse_exponent s3 with
          | None => None
          | Some (e, rest) =>
              Some (JNum (round_binary64 neg m (e - Z.of_nat frac_len)),
                    rest)
          end
      end
  | [] => None
  end.

Fixpoint parse_value (fuel : nat) (s : jsstring) {struct fuel}
  : option (value * jsstring) :=
  match fuel with
  | O => None
  | S fuel' =>
      match skip_ws s with
      | 110%N :: 117%N :: 108%N :: 108%N :: rest => Some (JNull, rest)
      | 116%N :: 114%N :: 117%N :: 101%N :: rest => Some (JBool true, rest)
      | 102%N :: 97%N :: 108%N :: 115%N :: 101%N :: rest =>
          Some (JBool false, rest)
      | 34%N :: rest =>
          match parse_chars rest [] with
          | Some (str, rest') => Some (JStr str, rest')
          | None => None
          end
      | 91%N :: rest =>
          match skip_ws rest with
          | 93%N :: rest' => Some (JArr [], rest')
          | _ => parse_elements fuel' rest []
          end
      | 123%N :: rest =>
          match skip_ws rest with
          | 125%N :: rest' => Some (JObj [], rest')
          | _ => parse_members fuel' rest []
          end
      | s' => parse_number s'
      end
  end
with parse_elements (fuel : nat) (s : jsstring) (acc : list value)
       {struct fuel} : option (value * jsstring) :=
  match fuel with
  | O => None
  | S fuel' =>
      match parse_value fuel' s with
      | Some (v, rest) =>
          match skip_ws rest with
          | 44%N :: rest' => parse_elements fuel' rest' (v :: acc)
          | 93%N :: rest' => Some (JArr (rev (v :: acc)), rest')
          | _ => None
          end
      | None => None
      end
  end
with parse_members (fuel : nat) (s : jsstring)
       (acc : list (jsstring * value)) {struct fuel}
     : option (value * jsstring) :=
  match fuel with
  | O => None
  | S fuel' =>
      match skip_ws s with
      | 34%N :: s1 =>
          match parse_chars s1 [] with
          | Some (key, s2) =>
              match skip_ws s2 with
              | 58%N :: s3 =>
                  match parse_value fuel' s3 with
                  | Some (v, rest) =>
                      match skip_ws rest with
                      | 44%N :: rest' =>
                          parse_members fuel' rest' ((key, v) :: acc)
                      | 125%N :: rest' =>
                          Some (JObj (rev ((key, v) :: acc)), rest')
                      | _ => None
                      end
                  | None => None
                  end
              | _ => None
              end
          | None => None
          end
      | _ => None
      end
  end.

(** [JSON.parse(text)]; [None] when it throws a [SyntaxError].  Every
    recursive call is preceded by at most one other before a character
    is consumed, so twice the length of the text is fuel enough. *)
Definition parse (text : jsstring) : option value :=
  match parse_value (2 * length text + 2) text with
  | Some (v, rest) =>
      match skip_ws rest with
      | [] => Some v
      | _ :: _ => None
      end
  | None => None
  end.

End JSON.

Import JSON.

(* ===================================================================== *)
(** * The headless client: decoding the event stream *)
(* ===================================================================== *)

(** [interface PerplexityResponse].  The two metadata members are typed
    [string], but they are assigned from the untyped document, so they
    hold whatever JSON value the stream carried. *)
Module Response.
Record t := Build
  { success : bool;
    answer : jsstring;
    threadUrlSlug : value;
    readWriteToken : value;
    fullResponse : nat }.
End Response.

Module PerplexityClient.

(** The local variables of [processStreamingResponse] that its event
    handlers close over, and the calls made to [onToken] so far. *)
Record state := State
  { buffer : jsstring;
    currentAnswer : jsstring;
    threadUrlSlug : value;
    readWriteToken : value;
    lastEvent : jsstring;
    emitted : list jsstring }.

Definition initial : state :=
  {| buffer := []; currentAnswer := []; threadUrlSlug := JStr [];
     readWriteToken := JStr []; lastEvent := []; emitted := [] |}.

(** How the body of the [try] statement ends, and in which state: the
    [catch] clause is empty, so assignments made before an exception stay. *)
Inductive completion :=
| Normal (st : state)
| Throw (st : state).

Definition state_of (c : completion) : state :=
  match c with Normal st | Throw st => st end.

Definition completion_map (f : state -> state) (c : completion)
  : completion :=
  match c with Normal st => Normal (f st) | Throw st => Throw (f st) end.

(** How the stream ends, and how the returned promise settles. *)
Inductive ending := End | Error (message : jsstring).
Inductive settled := Resolved (r : Response.t) | Rejected (message : jsstring).

(** ToBoolean of a property that may be [undefined]. *)
Definition ToBoolean (o : option value) : bool :=
  match o with Some v => truthy v | None => false end.

(** [o === s] for a string literal [s]. *)
Definition is_string (o : option value) (s : jsstring) : bool :=
  match o with Some (JStr t) => JsString.eqb t s | _ => false end.

(** [o.key] for a truthy [o]. *)
Definition member (o : option value) (key : jsstring) : option value :=
  match o with Some v => get v key | None => None end.

Section Decoder.

(** [JSON.parse]; [None] when it throws. *)
Variable JSON_parse : jsstring -> option value.

(** [v > n] for a JSON value [v] and a length [n], by the abstract
    relational comparison of ECMAScript (ToPrimitive, ToNumber and the
    comparison of doubles); [None] when the conversion throws.  It is
    consulted only for an [answer] that is an object with a member
    ["length"]. *)
Variable relational_gt : value -> nat -> option bool.

(** Whether the caller passed [onToken]; its calls are recorded in
    [emitted].  The callback is assumed to return normally. *)
Variable onToken : bool.

Definition call_onToken (token : jsstring) (st : state) : state :=
  if onToken then
    {| buffer := buffer st; currentAnswer := currentAnswer st;
       threadUrlSlug := threadUrlSlug st; readWriteToken := readWriteToken st;
       lastEvent := lastEvent st; emitted := emitted st ++ [token] |}
  else st.

Definition set_currentAnswer (a : jsstring) (st : state) : state :=
  {| buffer := buffer st; currentAnswer := a;
     threadUrlSlug := threadUrlSlug st; readWriteToken := readWriteToken st;
     lastEvent := lastEvent st; emitted := emitted st |}.

Definition set_threadUrlSlug (v : value) (st : state) : state :=
  {| buffer := buffer st; currentAnswer := currentAnswer st;
     threadUrlSlug := v; readWriteToken := readWriteToken st;
     lastEvent := lastEvent st; emitted := emitted st |}.

Definition set_readWriteToken (v : value) (st : state) : state :=
  {| buffer := buffer st; currentAnswer := currentAnswer st;
     threadUrlSlug := threadUrlSlug st; readWriteToken := v;
     lastEvent := lastEvent st; emitted := emitted st |}.

Definition set_lastEvent (e : jsstring) (st : state) : state :=
  {| buffer := buffer st; currentAnswer := currentAnswer st;
     threadUrlSlug := threadUrlSlug st; readWriteToken := readWriteToken st;
     lastEvent := e; emitted := emitted st |}.

Definition set_buffer (b : jsstring) (st : state) : state :=
  {| buffer := b; currentAnswer := currentAnswer st;
     threadUrlSlug := threadUrlSlug st; readWriteToken := readWriteToken st;
     lastEvent := lastEvent st; emitted := emitted st |}.

(** The body of [for (const ch of mb.chunks)]. *)
Definition processChunk (st : state) (ch : value) : state :=
  match ch with
  | JStr s =>
      let st := call_onToken s st in
      set_currentAnswer (currentAnswer st ++ s) st
  | _ => st
  end.

(** [answer.length > n] for a truthy [answer]. *)
Definition length_gt (answer : value) (n : nat) : option bool :=
  match answer with
  | JStr a => Some (n <? length a)
  | JArr l => Some (n <? length l)
  | JObj members =>
      match lookup (lit "length") members with
      | Some v => relational_gt v n
      | None => Some false
      end
  | _ => Some false
  end.

(** The body of [for (const block of data.blocks)]. *)
Definition processBlock (st : state) (block : value) : completion :=
  if truthy block
     && is_string (get block (lit "intended_usage")) (lit "ask_text")
     && ToBoolean (get block (lit "markdown_block"))
  then
    let mb := get block (lit "markdown_block") in
    match member mb (lit "chunks") with
    | Some (JArr (ch :: chunks)) =>
        Normal (fold_left processChunk (ch :: chunks) st)
    | _ =>
        let answer := member mb (lit "answer") in
        if ToBoolean answer then
          match answer with
          | Some ans =>
              match length_gt ans (length (currentAnswer st)) with
              | Some true =>
                  match ans with
                  | JStr a =>
                      let delta :=
                        substring_from (length (currentAnswer st)) a in
                      let st := call_onToken delta st in
                      Normal (set_currentAnswer a st)
                  | _ => Throw st  (* answer.substring is not a function *)
                  end
              | Some false => Normal st
              | None => Throw st
              end
          | None => Normal st
          end
        else Normal st
    end
  else Normal st.

Fixpoint processBlocks (st : state) (blocks : list value) : completion :=
  match blocks with
  | [] => Normal st
  | block :: rest =>
      match processBlock st block with
      | Normal st' => processBlocks st' rest
      | Throw st' => Throw st'
      end
  end.

(** [if (data.thread_url_slug) ...; if (data.read_write_token) ...] *)
Definition readMetadata (st : state) (data : value) : state :=
  let st :=
    match get data (lit "thread_url_slug") with
    | Some v => if truthy v then set_threadUrlSlug v st else st
    | None => st
    end in
  match get data (lit "read_write_token") with
  | Some v => if truthy v then set_readWriteToken v st else st
  | None => st
  end.

(** [lastEvent && lastEvent !== 'message'] *)
Definition otherEvent (st : state) : bool :=
  negb (JsString.eqb (lastEvent st) [])
  && negb (JsString.eqb (lastEvent st) (lit "message")).

(** The statements of the [try] block after [JSON.parse]. *)
Definition processData (st : state) (data : value) : completion :=
  match data with
  | JNull => Throw st  (* reading a property of null *)
  | _ =>
      let st := readMetadata st data in
      if otherEvent st then Normal st
      else
        match get data (lit "blocks") with
        | Some (JArr blocks) => processBlocks st blocks
        | _ => Normal st
        end
  end.

(** The text handed to [JSON.parse] for the line [raw], if any. *)
Definition payload (raw : jsstring) : option jsstring :=
  let line := trim (replace_final_CR raw) in
  if JsString.eqb line [] then None
  else if startsWith line (lit "event:") then None
  else if negb (startsWith line (lit "data:")) then None
  else
    let dataStr := trim (substring_from 6 line) in
    if JsString.eqb dataStr (lit "{}") then None else Some dataStr.

(** The document that the line [raw] contributes, if any. *)
Definition document (raw : jsstring) : option value :=
  match payload raw with
  | Some dataStr => JSON_parse dataStr
  | None => None
  end.

(** The body of [for (const raw of lines)]. *)
Definition processLine (st : state) (raw : jsstring) : state :=
  let line := trim (replace_final_CR raw) in
  if JsString.eqb line [] then st
  else if startsWith line (lit "event:") then
    set_lastEvent (trim (substring_from 6 line)) st
  else if negb (startsWith line (lit "data:")) then st
  else
    let dataStr := trim (substring_from 6 line) in
    if JsString.eqb dataStr (lit "{}") then st
    else
      match JSON_parse dataStr with
      | Some data => state_of (processData st data)
      | None => st
      end.

(** The listener of ['data'], after [buffer += chunk.toString()] has
    decoded the chunk to [text]. *)
Definition feed (st : state) (text : jsstring) : state :=
  let buffer := buffer st ++ text in
  let lines := split_LF buffer in
  let st := set_buffer (last lines []) st in   (* lines.pop() || '' *)
  fold_left processLine (removelast lines) st.

(** The listener of ['data']. *)
Definition onData (st : state) (chunk : Buffer.Buffer) : state :=
  feed st (Buffer.toString chunk).

(** The listener of ['end']. *)
Definition onEnd (st : state) : Response.t :=
  {| Response.success := true;
     Response.answer := currentAnswer st;
     Response.threadUrlSlug := threadUrlSlug st;
     Response.readWriteToken := readWriteToken st;
     Response.fullResponse := length (currentAnswer st) |}.

(** The listener of ['error']. *)
Definition onError (message : jsstring) : jsstring :=
  lit "Stream error: " ++ message.

(** The state after the stream has delivered [chunks]. *)
Definition receive (chunks : list Buffer.Buffer) : state :=
  fold_left onData chunks initial.

(** [processStreamingResponse(stream, onToken)] on a stream that delivers
    [chunks] and then ends as [e]: the tokens passed to [onToken], in
    order, and the settlement of the promise. *)
Definition processStreamingResponse (chunks : list Buffer.Buffer)
  (e : ending) : list jsstring * settled :=
  let st := receive chunks in
  (emitted st,
   match e with
   | End => Resolved (onEnd st)
   | Error message => Rejected (onError message)
   end).

(** ** Cumulative snapshots that extend the text received so far *)

(** The cumulative answer from which [processBlock] takes a delta in
    state [st], if it does. *)
Definition snapshot (st : state) (block : value) : option jsstring :=
  if truthy block
     && is_string (get block (lit "intended_usage")) (lit "ask_text")
     && ToBoolean (get block (lit "markdown_block"))
  then
    let mb := get block (lit "markdown_block") in
    match member mb (lit "chunks") with
    | Some (JArr (_ :: _)) => None
    | _ =>
        match member mb (lit "answer") with
        | Some (JStr a) =>
            if length (currentAnswer st) <? length a then Some a else None
        | _ => None
        end
    end
  else None.

(** The snapshot taken from [block], if any, starts with the answer
    accumulated so far. *)
Definition block_extends (st : state) (block : value) : bool :=
  match snapshot st block with
  | Some a => startsWith a (currentAnswer st)
  | None => true
  end.

Fixpoint blocks_extend (st : state) (blocks : list value) : bool :=
  match blocks with
  | [] => true
  | block :: rest =>
      block_extends st block
      && match processBlock st block with
         | Normal st' => blocks_extend st' rest
         | Throw _ => true
         end
  end.

Definition data_extends (st : state) (data : value) : bool :=
  match data with
  | JNull => true
  | _ =>
      let st := readMetadata st data in
      if otherEvent st then true
      else
        match get data (lit "blocks") with
        | Some (JArr blocks) => blocks_extend st blocks
        | _ => true
        end
  end.

Fixpoint lines_extend (st : state) (lines : list jsstring) : bool :=
  match lines with
  | [] => true
  | raw :: rest =>
      match document raw with
      | Some data => data_extends st data
      | None => true
      end
      && lines_extend (processLine st raw) rest
  end.

Fixpoint chunks_extend (st : state) (chunks : list Buffer.Buffer) : bool :=
  match chunks with
  | [] => true
  | chunk :: rest =>
      (let lines := split_LF (buffer st ++ Buffer.toString chunk) in
       lines_extend (set_buffer (last lines []) st) (removelast lines))
      && chunks_extend (onData st chunk) rest
  end.

(** Every cumulative snapshot from which a delta is taken while [chunks]
    are received starts with the answer accumulated before it. *)
Definition snapshots_extend (chunks : list Buffer.Buffer) : bool :=
  chunks_extend initial chunks.

(** ** What the stream says about the thread *)

(** The value that a document assigns to the variable fed from [key]. *)
Definition assigned (key : jsstring) (data : value) : option value :=
  match data with
  | JNull => None
  | _ =>
      match get data key with
      | Some v => if truthy v then Some v else None
      | None => None
      end
  end.

(** The complete lines of a text: all pieces but the one after the last
    line feed. *)
Definition complete_lines (text : jsstring) : list jsstring :=
  removelast (split_LF text).

(** The last value assigned from [key] by the documents of [lines], or
    [init] when there is none. *)
Fixpoint last_assigned (key : jsstring) (lines : list jsstring)
  (init : value) : value :=
  match lines with
  | [] => init
  | raw :: rest =>
      last_assigned key rest
        match document raw with
        | Some data =>
            match assigned key data with Some v => v | None => init end
        | None => init
        end
  end.

End Decoder.

(** An instance of [relational_gt] for closed examples, none of which
    carries an [answer] that is an object. *)
Definition never_gt (v : value) (n : nat) : option bool := Some false.

(** [st'] has the metadata and the event name of [st]. *)
Definition same_metadata (st st' : state) : Prop :=
  threadUrlSlug st' = threadUrlSlug st
  /\ readWriteToken st' = readWriteToken st
  /\ lastEvent st' = lastEvent st.

(** The tokens passed so far make up the accumulated answer. *)
Definition rebuilt (st : state) : Prop :=
  concat (emitted st) = currentAnswer st.

(** The tokens passed so far have the length of the accumulated answer. *)
Definition same_length (st : state) : Prop :=
  length (concat (emitted st)) = length (currentAnswer st).

End PerplexityClient.

(* ===================================================================== *)
(** * Built-in collections *)
(* ===================================================================== *)

(** [Map<string, V>]: entries in insertion order. *)
Module JsMap.
Section Map.
Variable V : Type.

Definition t := list (jsstring * V).

Fixpoint get (m : t) (key : jsstring) : option V :=
  match m with
  | [] => None
  | (k, v) :: rest => if JsString.eqb k key then Some v else get rest key
  end.

(** [m.set(key, v)]: an existing key keeps its position. *)
Fixpoint set (m : t) (key : jsstring) (v : V) : t :=
  match m with
  | [] => [(key, v)]
  | (k, v') :: rest =>
      if JsString.eqb k key then (k, v) :: rest else (k, v') :: set rest key v
  end.

Definition delete (m : t) (key : jsstring) : t :=
  filter (fun e => negb (JsString.eqb (fst e) key)) m.

Definition clear (m : t) : t := [].

(** [Array.from(m.values())] *)
Definition values (m : t) : list V := map snd m.

(** An assignment to the object stored under [key], seen from the map. *)
Fixpoint update (m : t) (key : jsstring) (f : V -> V) : t :=
  match m with
  | [] => []
  | (k, v) :: rest =>
      if JsString.eqb k key then (k, f v) :: rest
      else (k, v) :: update rest key f
  end.

End Map.
End JsMap.

(** [Array.prototype.sort(compareFn)], which is stable: an element moves
    in front of the sorted rest up to the first one it does not follow. *)
Module JsArray.
Section Sort.
Variable A : Type.
Variable compareFn : A -> A -> Z.

Fixpoint insert (x : A) (l : list A) : list A :=
  match l with
  | [] => [x]
  | y :: l' => if (compareFn x y <=? 0)%Z then x :: l else y :: insert x l'
  end.

Fixpoint sort (l : list A) : list A :=
  match l with
  | [] => []
  | x :: l' => insert x (sort l')
  end.

End Sort.
End JsArray.

(* ===================================================================== *)
(** * The conversation service *)
(* ===================================================================== *)

(** [interface IPerplexityMessage]; a [Date] is its time value. *)
Module Message.
Record t := Build
  { id : jsstring;
    content : jsstring;
    timestamp : Z;
    isUser : bool;
    response : option Response.t }.
End Message.

(** [interface IPerplexityConversation] *)
Module Conversation.
Record t := Build
  { id : jsstring;
    title : jsstring;
    messages : list Message.t;
    createdAt : Z;
    updatedAt : Z }.

Definition with_messages (ms : list Message.t) (c : t) : t :=
  {| id := id c; title := title c; messages := ms;
     createdAt := createdAt c; updatedAt := updatedAt c |}.

Definition with_updatedAt (now : Z) (c : t) : t :=
  {| id := id c; title := title c; messages := messages c;
     createdAt := createdAt c; updatedAt := now |}.

Definition with_title (s : jsstring) (c : t) : t :=
  {| id := id c; title := s; messages := messages c;
     createdAt := createdAt c; updatedAt := updatedAt c |}.
End Conversation.

Module PerplexityService.

(** What [this._client.sendMessage(content, onToken)] does: the tokens it
    passes to [onToken], then a response or an exception. *)
Record exchange := Exchange
  { tokens : list jsstring;
    outcome : Response.t + jsstring }.

(** The surroundings of the service.  They are consulted one after the
    other; each member gives the answer to the [n]-th consultation. *)
Record environment := Environment
  { isWeb : bool;
    (** [Date.now()], also the time value of [new Date()] *)
    Date_now : nat -> Z;
    (** [Math.random().toString(36).substring(2)] *)
    Math_random : nat -> jsstring;
    (** the headless client *)
    client_sendMessage : nat -> jsstring -> exchange }.

(** What the service makes known: the firings of its emitters and the
    errors it logs. *)
Inductive notification :=
| DidReceiveToken (messageId token : jsstring)
| DidCompleteMessage (messageId : jsstring) (response : Response.t)
| LogError (context error : jsstring).

(** The fields of the service, the entry ['perplexity.conversations'] of
    the storage service, and the notifications and consultations so far.
    A conversation object is reachable from the service through
    [_conversations] only, so an assignment to it is an update of the
    entry it is stored under. *)
Record service := Service
  { _isAuthenticated : bool;
    _conversations : JsMap.t Conversation.t;
    stored : option (list Conversation.t);
    notified : list notification;
    consulted : nat }.

Definition with_conversations (m : JsMap.t Conversation.t) (s : service)
  : service :=
  {| _isAuthenticated := _isAuthenticated s; _conversations := m;
     stored := stored s; notified := notified s; consulted := consulted s |}.

(** A call returns a value or throws an [Error] with a message. *)
Inductive result (A : Type) :=
| Return (a : A)
| Raise (message : jsstring).
Arguments Return {A} a.
Arguments Raise {A} message.

Definition M (A : Type) : Type := service -> result A * service.

Definition ret {A} (a : A) : M A := fun s => (Return a, s).

Definition throw {A} (message : jsstring) : M A := fun s => (Raise message, s).

Definition bind {A B} (c : M A) (k : A -> M B) : M B :=
  fun s =>
    match c s with
    | (Return a, s') => k a s'
    | (Raise message, s') => (Raise message, s')
    end.

(** [try { c } catch (error) { handler }] *)
Definition try_catch {A} (c : M A) (handler : jsstring -> M A) : M A :=
  fun s =>
    match c s with
    | (Return a, s') => (Return a, s')
    | (Raise message, s') => handler message s'
    end.

Definition gets {A} (f : service -> A) : M A := fun s => (Return (f s), s).

Definition modify (f : service -> service) : M unit :=
  fun s => (Return tt, f s).

Declare Scope service_scope.
Delimit Scope service_scope with service.
Notation "x <- c ;; k" := (bind c (fun x => k))
  (at level 61, c at next level, right associativity) : service_scope.
Notation "c ;; k" := (bind c (fun _ => k))
  (at level 61, right associativity) : service_scope.
Local Open Scope service_scope.

Definition sentinel : jsstring := lit "New Conversation".

(** Modelled from the spec: the storage service ([IStorageService], whose
    code is not among the sources), by its persistence contract
    [get(key, scope)] and [set(key, value, scope, durability)]: a value
    that is set replaces what was stored under the key, and is what a
    later [get] returns.  The one key in use is
    ['perplexity.conversations']; its value, the array serialised by
    [JSON.stringify], is kept as the array. *)
Definition storageService_store (conversations : list Conversation.t)
  (s : service) : service :=
  {| _isAuthenticated := _isAuthenticated s;
     _conversations := _conversations s;
     stored := Some conversations;
     notified := notified s; consulted := consulted s |}.

Definition storageService_get (s : service) : option (list Conversation.t) :=
  stored s.

Section Service.

Variable env : environment.

(** One consultation of the surroundings. *)
Definition consult {A} (oracle : nat -> A) : M A :=
  fun s =>
    (Return (oracle (consulted s)),
     {| _isAuthenticated := _isAuthenticated s;
        _conversations := _conversations s; stored := stored s;
        notified := notified s; consulted := S (consulted s) |}).

(** [new Date()] *)
Definition new_Date : M Z := consult (Date_now env).

Definition notify (n : notification) : M unit :=
  modify (fun s =>
    {| _isAuthenticated := _isAuthenticated s;
       _conversations := _conversations s; stored := stored s;
       notified := notified s ++ [n]; consulted := consulted s |}).

Definition generateId : M jsstring :=
  now <- consult (Date_now env) ;;
  random <- consult (Math_random env) ;;
  ret (toString36 now ++ random).

(** The [catch] clause is not reached: the storage service accepts the
    write. *)
Definition saveConversations : M unit :=
  modify (fun s => storageService_store (JsMap.values (_conversations s)) s).

Definition loadConversations : M unit :=
  modify (fun s =>
    match storageService_get s with
    | Some conversations =>
        with_conversations
          (fold_left (fun m conv => JsMap.set m (Conversation.id conv) conv)
             conversations [])
          s
    | None => s
    end).

(** The service after its constructor has run over a storage entry. *)
Definition construct (entry : option (list Conversation.t)) : service :=
  snd (loadConversations
         {| _isAuthenticated := false; _conversations := [];
            stored := entry; notified := []; consulted := 0 |}).

Definition createConversation (title : option jsstring)
  : M Conversation.t :=
  id <- generateId ;;
  createdAt <- new_Date ;;
  updatedAt <- new_Date ;;
  let conversation :=
    {| Conversation.id := id;
       Conversation.title :=
         match title with
         | Some ((_ :: _) as t) => t
         | _ => sentinel
         end;
       Conversation.messages := [];
       Conversation.createdAt := createdAt;
       Conversation.updatedAt := updatedAt |} in
  modify (fun s =>
    with_conversations (JsMap.set (_conversations s) id conversation) s) ;;
  saveConversations ;;
  ret conversation.

(** [conversation.messages.push(message); conversation.updatedAt = new
    Date()] for the conversation stored under [key]. *)
Definition append (key : jsstring) (message : Message.t) : M unit :=
  modify (fun s =>
    with_conversations
      (JsMap.update (_conversations s) key (fun c =>
         Conversation.with_messages (Conversation.messages c ++ [message]) c))
      s) ;;
  now <- new_Date ;;
  modify (fun s =>
    with_conversations
      (JsMap.update (_conversations s) key (Conversation.with_updatedAt now))
      s).

(** [if (messages.length === 2 && title === 'New Conversation') ...] *)
Definition retitle (content : jsstring) (c : Conversation.t)
  : Conversation.t :=
  if Nat.eqb (length (Conversation.messages c)) 2
     && JsString.eqb (Conversation.title c) sentinel
  then
    Conversation.with_title
      (if 50 <? length content
       then substring_to 50 content ++ lit "..."
       else content)
      c
  else c.

(** The call of the client, with the callback that republishes tokens. *)
Definition exchange_with_client (content messageId : jsstring)
  : M Response.t :=
  x <- consult (fun n => client_sendMessage env n content) ;;
  fold_right (fun token k => notify (DidReceiveToken messageId token) ;; k)
    (ret tt) (tokens x) ;;
  match outcome x with
  | inl response => ret response
  | inr message => throw message
  end.

(** [sendMessage] up to the [try] statement: the message id and the key
    of the conversation. *)
Definition sendMessage_begin (content : jsstring)
  (conversationId : option jsstring) : M (jsstring * jsstring) :=
  authenticated <- gets _isAuthenticated ;;
  if negb authenticated then
    throw (lit "Not authenticated with Perplexity AI")
  else if isWeb env then
    throw (lit
      "Sending messages to Perplexity is not supported in web environment.")
  else
    messageId <- generateId ;;
    conversation <-
      match conversationId with
      | Some ((_ :: _) as id) =>
          existing <- gets (fun s => JsMap.get (_conversations s) id) ;;
          match existing with
          | Some _ => ret id
          | None =>
              throw (lit "Conversation " ++ id ++ lit " not found")
          end
      | _ =>
          created <- createConversation None ;;
          ret (Conversation.id created)
      end ;;
    timestamp <- new_Date ;;
    append conversation
      {| Message.id := messageId; Message.content := content;
         Message.timestamp := timestamp; Message.isUser := true;
         Message.response := None |} ;;
    ret (messageId, conversation).

(** The [try] statement of [sendMessage]. *)
Definition sendMessage_exchange (content messageId conversation : jsstring)
  : M jsstring :=
  try_catch
    (response <- exchange_with_client content messageId ;;
     id <- generateId ;;
     timestamp <- new_Date ;;
     append conversation
       {| Message.id := id; Message.content := Response.answer response;
          Message.timestamp := timestamp; Message.isUser := false;
          Message.response := Some response |} ;;
     modify (fun s =>
       with_conversations
         (JsMap.update (_conversations s) conversation (retitle content))
         s) ;;
     saveConversations ;;
     notify (DidCompleteMessage messageId response) ;;
     ret messageId)
    (fun error =>
       notify (LogError (lit "Failed to send message to Perplexity:") error) ;;
       throw error).

Definition sendMessage (content : jsstring)
  (conversationId : option jsstring) : M jsstring :=
  started <- sendMessage_begin content conversationId ;;
  sendMessage_exchange content (fst started) (snd started).

Definition compareFn (a b : Conversation.t) : Z :=
  (Conversation.updatedAt b - Conversation.updatedAt a)%Z.

Definition getConversations : M (list Conversation.t) :=
  gets (fun s => JsArray.sort compareFn (JsMap.values (_conversations s))).

Definition getConversation (id : jsstring) : M (option Conversation.t) :=
  gets (fun s => JsMap.get (_conversations s) id).

Definition deleteConversation (id : jsstring) : M unit :=
  modify (fun s =>
    with_conversations (JsMap.delete (_conversations s) id) s) ;;
  saveConversations.

Definition clearConversations : M unit :=
  modify (fun s =>
    with_conversations (JsMap.clear (_conversations s)) s) ;;
  saveConversations.

(** The user message of a [sendMessage] that starts at consultation [n]. *)
Definition user_message (content : jsstring) (n : nat) : Message.t :=
  {| Message.id := toString36 (Date_now env n) ++ Math_random env (1 + n);
     Message.content := content;
     Message.timestamp := Date_now env (2 + n);
     Message.isUser := true;
     Message.response := None |}.

(** The assistant message for [response], made from consultation [n] on. *)
Definition assistant_message (response : Response.t) (n : nat) : Message.t :=
  {| Message.id := toString36 (Date_now env n) ++ Math_random env (1 + n);
     Message.content := Response.answer response;
     Message.timestamp := Date_now env (2 + n);
     Message.isUser := false;
     Message.response := Some response |}.

(** [conversation.messages.push(message); conversation.updatedAt = now] *)
Definition pushed (message : Message.t) (now : Z) (c : Conversation.t)
  : Conversation.t :=
  Conversation.with_updatedAt now
    (Conversation.with_messages (Conversation.messages c ++ [message]) c).

(** The storage entry holds the conversations of the service. *)
Definition synchronized (s : service) : Prop :=
  stored s = Some (JsMap.values (_conversations s)).

End Service.

(** [a] may stand before [b]: it was updated no earlier. *)
Definition newer_first (a b : Conversation.t) : Prop :=
  (Conversation.updatedAt b <= Conversation.updatedAt a)%Z.

End PerplexityService.

(* ===================================================================== *)
(** * Streams as texts and lines *)
(* ===================================================================== *)

Module Streams.
Import PerplexityClient.

(** A piece of text without a line feed. *)
Definition is_line (s : jsstring) : bool :=
  forallb (fun c => negb (N.eqb c LF)) s.

(** The text of [lines], each followed by a line feed. *)
Definition terminated (lines : list jsstring) : jsstring :=
  concat (map (fun l => l ++ [LF]) lines).

(** The variables of the decoder without the record of the callback. *)
Definition unobserved (st : state) : state :=
  {| buffer := buffer st; currentAnswer := currentAnswer st;
     threadUrlSlug := threadUrlSlug st; readWriteToken := readWriteToken st;
     lastEvent := lastEvent st; emitted := [] |}.

(** [st'] has the tokens of [st] and maybe more, and an answer that is
    no shorter. *)
Definition grown (st st' : state) : Prop :=
  (exists later, emitted st' = emitted st ++ later)
  /\ length (currentAnswer st) <= length (currentAnswer st').

End Streams.

(* ===================================================================== *)
(** * The event stream as the design document describes it *)
(* ===================================================================== *)

(** The lines of the stream in the words of the design document: a
    [data:] line carries a JSON document as its payload, and a payload
    of literal [{}] is ignored.  These definitions do not follow the
    code; the theorems say where the decoder agrees with them. *)
Module EventStream.
Import PerplexityClient.

(** The payload of a [data:] line: what follows the colon, without the
    white space around it. *)
Definition data_payload (raw : jsstring) : option jsstring :=
  let line := trim raw in
  if startsWith line (lit "data:")
  then Some (trim (substring_from 5 line))
  else None.

(** The colon of a [data:] line is followed by white space, or by
    nothing. *)
Definition spaced (raw : jsstring) : bool :=
  let line := trim raw in
  negb (startsWith line (lit "data:"))
  || match substring_from 5 line with
     | c :: _ => isWhiteSpace c
     | [] => true
     end.

Section Documents.

(** [JSON.parse]; [None] when it throws. *)
Variable JSON_parse : jsstring -> option value.

(** The document that a line carries. *)
Definition carried (raw : jsstring) : option value :=
  match data_payload raw with
  | Some text =>
      if JsString.eqb text (lit "{}") then None else JSON_parse text
  | None => None
  end.

(** The truthy values that the documents of [lines] have for [key], in
    the order of the lines. *)
Definition seen (key : jsstring) (lines : list jsstring) : list value :=
  flat_map
    (fun raw =>
       match carried raw with
       | Some data =>
           match assigned key data with Some v => [v] | None => [] end
       | None => []
       end)
    lines.

End Documents.
End EventStream.

(* ===================================================================== *)
(** * The conversation store *)
(* ===================================================================== *)

Module Stores.

(** Every conversation is stored under its own id, and no key occurs
    twice (a [Map] has one entry for a key). *)
Definition well_keyed (m : JsMap.t Conversation.t) : Prop :=
  NoDup (map fst m)
  /\ Forall (fun e => Conversation.id (snd e) = fst e) m.

(** The call [c] takes a store with the property [Q] to such a store,
    however it ends. *)
Definition keeps (Q : JsMap.t Conversation.t -> Prop) {A}
  (c : PerplexityService.M A) : Prop :=
  forall s,
    Q (PerplexityService._conversations s) ->
    Q (PerplexityService._conversations (snd (c s))).

End Stores.

(* ===================================================================== *)
(** * The headless client: instance, session and requests *)
(* ===================================================================== *)

Module JsNumber.

Fixpoint digits10 (fuel : nat) (n : N) (acc : jsstring) : jsstring :=
  match fuel with
  | O => acc
  | S fuel' =>
      let acc' := (48 + n mod 10)%N :: acc in
      if (n / 10 =? 0)%N then acc' else digits10 fuel' (n / 10) acc'
  end.

(** [n.toString()], also [`${n}`], for an integer [n] of magnitude below
    [10^21]. *)
Definition toString10 (n : Z) : jsstring :=
  let m := Z.to_N (Z.abs n) in
  let ds := digits10 (S (N.to_nat (N.log2 m))) m [] in
  if (n <? 0)%Z then 45%N :: ds else ds.

(** [strings.join(separator)] *)
Fixpoint join (separator : jsstring) (strings : list jsstring) : jsstring :=
  match strings with
  | [] => []
  | [s] => s
  | s :: rest => s ++ separator ++ join separator rest
  end.

End JsNumber.

(** [class PerplexityClient] without [processStreamingResponse]: the
    methods that start and stop CycleTLS, keep the session and send the
    requests. *)
Module Client.
Import PerplexityClient JsNumber.
Import PerplexityService (result, Return, Raise).

(** [response.headers['set-cookie']] when it is there: one header or an
    array of them. *)
Inductive set_cookie :=
| Single (cookie : jsstring)
| Multiple (cookies : list jsstring).

(** What a call [this.cycleTLS(url, options, method)] comes to: a
    response with its status and what the caller reads of it, or a
    rejection. *)
Inductive reply (A : Type) :=
| Responds (status : Z) (content : A)
| Fails (message : jsstring).
Arguments Responds {A} status content.
Arguments Fails {A} message.

(** A response body that is read as a stream: its chunks and its ending. *)
Definition stream : Type := list Buffer.Buffer * ending.

(** The requests, by what varies in them: the homepage is fetched with
    constant options; the question carries the message, the request id
    and three members of the session, each [None] when [undefined]. *)
Inductive request :=
| Homepage
| Ask (message requestId : jsstring) (sessionId userAgent cookies : option value).

(** The surroundings of the client.  They are consulted one after the
    other; each member gives the answer to the [n]-th consultation. *)
Record host := Host
  { (** [Date.now()] *)
    Date_now : nat -> Z;
    (** [Math.random().toString(36).substring(2)] *)
    Math_random : nat -> jsstring;
    (** [initCycleTLS()]: an instance, or the message of a rejection *)
    initCycleTLS : nat -> option jsstring;
    (** [this.cycleTLS.exit()]: done, or the message of a rejection *)
    exit : nat -> option jsstring;
    (** GET [https://www.perplexity.ai/]: the header [set-cookie] *)
    homepage : nat -> reply (option set_cookie);
    (** POST [https://www.perplexity.ai/rest/sse/perplexity_ask] *)
    ask : nat -> request -> reply stream;
    (** whether [fs.readFileSync] and [fs.writeFileSync] succeed on the
        session file *)
    readable : bool;
    writable : bool }.

(** The fields of the client, the session file, and what has happened so
    far.  An instance of CycleTLS is named by the number of instances
    started before it; [this.cycleTLS] is [None] when it is [undefined]
    or [null].  [this.session] is a JSON value, [JNull] for [null]. *)
Record state := State
  { cycleTLS : option nat;
    session : value;
    sessionFile : option jsstring;
    started : nat;
    exited : list nat;
    requests : list request;
    consulted : nat }.

(** [new PerplexityClient()] in surroundings where nothing has happened
    yet, over a session file with the given text. *)
Definition construct (file : option jsstring) : state :=
  {| cycleTLS := None; session := JNull; sessionFile := file;
     started := 0; exited := []; requests := []; consulted := 0 |}.

(** [new PerplexityClient()] in the surroundings of [st]. *)
Definition reconstruct (st : state) : state :=
  {| cycleTLS := None; session := JNull; sessionFile := sessionFile st;
     started := started st; exited := exited st; requests := requests st;
     consulted := consulted st |}.

Definition with_session (v : value) (st : state) : state :=
  {| cycleTLS := cycleTLS st; session := v; sessionFile := sessionFile st;
     started := started st; exited := exited st; requests := requests st;
     consulted := consulted st |}.

Definition with_sessionFile (text : jsstring) (st : state) : state :=
  {| cycleTLS := cycleTLS st; session := session st; sessionFile := Some text;
     started := started st; exited := exited st; requests := requests st;
     consulted := consulted st |}.

(** [n] consultations later. *)
Definition later (n : nat) (st : state) : state :=
  {| cycleTLS := cycleTLS st; session := session st;
     sessionFile := sessionFile st;
     started := started st; exited := exited st; requests := requests st;
     consulted := n + consulted st |}.

Definition requested (r : request) (st : state) : state :=
  {| cycleTLS := cycleTLS st; session := session st;
     sessionFile := sessionFile st;
     started := started st; exited := exited st;
     requests := requests st ++ [r];
     consulted := consulted st |}.

Definition userAgent : jsstring :=
  lit "Mozilla/5.0 (Windows NT 10.0; Win64; x64) AppleWebKit/537.36 (KHTML, like Gecko) Chrome/140.0.0.0 Safari/537.36 Edg/140.0.0.0".

(** The message of the [TypeError] that V8 throws for a call of
    [this.cycleTLS] while it is [undefined] or [null]. *)
Definition not_a_function : jsstring := lit "this.cycleTLS is not a function".

Definition no_session : jsstring :=
  lit "No active session. Please create a session first.".

Definition failed_to_send : jsstring := lit "Failed to send message: ".

Section Client.

Variable h : host.

(** [JSON.parse]; [None] when it throws. *)
Variable JSON_parse : jsstring -> option value.

(** [JSON.stringify(v, null, 2)] for a session [v]. *)
Variable JSON_stringify : value -> jsstring.

(** As for [processStreamingResponse]. *)
Variable relational_gt : value -> nat -> option bool.

Definition initialize (st : state) : result unit * state :=
  match cycleTLS st with
  | Some _ => (Return tt, st)
  | None =>
      match initCycleTLS h (consulted st) with
      | None =>
          (Return tt,
           {| cycleTLS := Some (started st); session := session st;
              sessionFile := sessionFile st;
              started := S (started st); exited := exited st;
              requests := requests st; consulted := S (consulted st) |})
      | Some message => (Raise message, later 1 st)
      end
  end.

(** Every exception is caught: the result is [false]. *)
Definition loadSession (st : state) : bool * state :=
  match sessionFile st with
  | Some sessionData =>
      if readable h then
        match JSON_parse sessionData with
        | Some v => (true, with_session v st)
        | None => (false, st)
        end
      else (false, st)
  | None => (false, st)
  end.

Definition saveSession (st : state) : state :=
  if truthy (session st) then
    if writable h then with_sessionFile (JSON_stringify (session st)) st
    else st
  else st.

(** [Array.isArray(h) ? h.join('; ') : h] *)
Definition cookies_of (header : set_cookie) : jsstring :=
  match header with
  | Single cookie => cookie
  | Multiple cookies => join (lit "; ") cookies
  end.

(** ToBoolean of the header: an array is truthy, a string unless it is
    empty. *)
Definition present (header : option set_cookie) : bool :=
  match header with
  | Some (Single cookie) => negb (JsString.eqb cookie [])
  | Some (Multiple _) => true
  | None => false
  end.

(** Every exception is caught, the one thrown for a response without
    status 200 or without cookies included: the result is [false]. *)
Definition createSession (st : state) : bool * state :=
  match cycleTLS st with
  | None => (false, st)
  | Some _ =>
      let n := consulted st in
      let st1 := later 1 (requested Homepage st) in
      match homepage h n with
      | Responds status header =>
          if (status =? 200)%Z && present header then
            let cookies :=
              match header with
              | Some header => cookies_of header
              | None => []
              end in
            let now := Date_now h (1 + n) in
            let st2 :=
              with_session
                (JObj [ (lit "cookies", JStr cookies);
                        (lit "userAgent", JStr userAgent);
                        (lit "sessionId", JStr (toString10 now)) ])
                (later 1 st1) in
            (true, saveSession st2)
          else (false, st1)
      | Fails _ => (false, st1)
      end
  end.

(** [generateRequestIds().requestId] from consultation [n] on. *)
Definition requestId (n : nat) : jsstring :=
  toString10 (Date_now h n) ++ lit "-"
  ++ substring_to 13 (Math_random h (1 + n)).

(** [sendMessage(message, onToken)]: the tokens passed to [onToken], the
    response or the exception, and the state.  The third consultation
    is the one of [Math.random] for the delay. *)
Definition sendMessage (message : jsstring) (onToken : bool) (st : state)
  : (list jsstring * result Response.t) * state :=
  if negb (truthy (session st)) then (([], Raise no_session), st)
  else
    let n := consulted st in
    match cycleTLS st with
    | None => (([], Raise (failed_to_send ++ not_a_function)), later 3 st)
    | Some _ =>
        let request :=
          Ask message (requestId n)
            (get (session st) (lit "sessionId"))
            (get (session st) (lit "userAgent"))
            (get (session st) (lit "cookies")) in
        let st := later 4 (requested request st) in
        match ask h (3 + n) request with
        | Responds status (chunks, e) =>
            if (status =? 200)%Z then
              let (tokens, settlement) :=
                processStreamingResponse JSON_parse relational_gt onToken
                  chunks e in
              ((tokens,
                match settlement with
                | Resolved response => Return response
                | Rejected message => Raise (failed_to_send ++ message)
                end), st)
            else
              (([], Raise (failed_to_send ++ lit "HTTP " ++ toString10 status
                           ++ lit ": Request failed")), st)
        | Fails message => (([], Raise (failed_to_send ++ message)), st)
        end
    end.

Definition close (st : state) : result unit * state :=
  match cycleTLS st with
  | Some instance =>
      match exit h (consulted st) with
      | None =>
          (Return tt,
           {| cycleTLS := None; session := session st;
              sessionFile := sessionFile st;
              started := started st; exited := exited st ++ [instance];
              requests := requests st; consulted := S (consulted st) |})
      | Some message => (Raise message, later 1 st)
      end
  | None => (Return tt, st)
  end.

(** ** Sequences of calls *)

Inductive call :=
| Initialize
| LoadSession
| CreateSession
| SendMessage (message : jsstring) (onToken : bool)
| Close.

Definition perform (st : state) (c : call) : state :=
  match c with
  | Initialize => snd (initialize st)
  | LoadSession => snd (loadSession st)
  | CreateSession => snd (createSession st)
  | SendMessage message onToken => snd (sendMessage message onToken st)
  | Close => snd (close st)
  end.

End Client.

(** Every instance that was started has exited, but the one that
    [this.cycleTLS] holds; no instance has exited twice. *)
Definition accounted (st : state) : Prop :=
  NoDup (exited st)
  /\ Forall (fun instance => instance < started st) (exited st)
  /\ match cycleTLS st with
     | Some instance =>
         started st = S (length (exited st))
         /\ instance < started st /\ ~ In instance (exited st)
     | None => started st = length (exited st)
     end.

End Client.

(* ===================================================================== *)
(** * The conversation service: its client and the authentication *)
(* ===================================================================== *)

(** [initialize], [authenticate] and [dispose] of [PerplexityService],
    over the fields of the service and the headless client it holds. *)
Module Authentication.
Import PerplexityService.

(** [this._client]: [undefined], the stub of the web environment, or an
    instance of [PerplexityClient]. *)
Inductive client := Undefined | Stub | Headless.

(** The service, its client, the firings of
    [onDidChangeAuthenticationStatus] and the errors logged by the
    methods of this module, each with the message of the exception if
    there is one.  [node] holds the fields of the instance of
    [PerplexityClient] when [_client] is one, and the surroundings of the
    client in any case. *)
Record app := App
  { service_of : service;
    _client : client;
    node : Client.state;
    statuses : list bool;
    errors : list (jsstring * option jsstring) }.

(** [this._isAuthenticated = b; this._onDidChangeAuthenticationStatus.fire(b)] *)
Definition report (b : bool) (a : app) : app :=
  {| service_of :=
       {| _isAuthenticated := b;
          _conversations := _conversations (service_of a);
          stored := stored (service_of a);
          notified := notified (service_of a);
          consulted := consulted (service_of a) |};
     _client := _client a; node := node a;
     statuses := statuses a ++ [b]; errors := errors a |}.

(** [this.logService.error(context, error)] *)
Definition logged (context : jsstring) (error : option jsstring) (a : app)
  : app :=
  {| service_of := service_of a; _client := _client a; node := node a;
     statuses := statuses a; errors := errors a ++ [(context, error)] |}.

Definition with_client (c : client) (n : Client.state) (a : app) : app :=
  {| service_of := service_of a; _client := c; node := n;
     statuses := statuses a; errors := errors a |}.

(** The service after its constructor, in surroundings where nothing has
    happened yet. *)
Definition construct (entry : option (list Conversation.t))
  (file : option jsstring) : app :=
  {| service_of := PerplexityService.construct entry;
     _client := Undefined; node := Client.construct file;
     statuses := []; errors := [] |}.

(** What [a'] has of [a]: the conversations and their storage. *)
Definition same_store (a a' : app) : Prop :=
  _conversations (service_of a') = _conversations (service_of a)
  /\ stored (service_of a') = stored (service_of a).

Section Authentication.

(** [isWeb] of the platform. *)
Variable isWeb : bool.

(** [await import('../node/perplexityClient.js')] at the [n]-th
    consultation of the client's surroundings: the module, or the
    message of a rejection. *)
Variable import_client : nat -> option jsstring.

Variable h : Client.host.
Variable JSON_parse : jsstring -> option value.
Variable JSON_stringify : value -> jsstring.

Definition initialize (a : app) : result unit * app :=
  if isWeb then (Return tt, report false (with_client Stub (node a) a))
  else
    let context := lit "Failed to initialize Perplexity service:" in
    match import_client (Client.consulted (node a)) with
    | Some message =>
        (Raise message,
         logged context (Some message)
           (with_client (_client a) (Client.later 1 (node a)) a))
    | None =>
        let created := Client.reconstruct (Client.later 1 (node a)) in
        match Client.initialize h created with
        | (Raise message, n) =>
            (Raise message,
             logged context (Some message) (with_client Headless n a))
        | (Return _, n) =>
            let (hasSession, n) := Client.loadSession h JSON_parse n in
            (Return tt, report hasSession (with_client Headless n a))
        end
    end.

(** [this._client.createSession()] *)
Definition client_createSession (a : app) : result bool * app :=
  match _client a with
  | Headless =>
      let (success, n) := Client.createSession h JSON_stringify (node a) in
      (Return success, with_client Headless n a)
  | Stub => (Return false, a)
  | Undefined =>
      (Raise (lit "Cannot read properties of undefined (reading 'createSession')"),
       a)
  end.

(** The [try] block of [authenticate]. *)
Definition authenticate_try (a : app) : result bool * app :=
  match
    match _client a with
    | Undefined => initialize a
    | _ => (Return tt, a)
    end
  with
  | (Raise message, a) => (Raise message, a)
  | (Return _, a) =>
      if isWeb then (Return false, report false a)
      else
        match client_createSession a with
        | (Raise message, a) => (Raise message, a)
        | (Return success, a) =>
            (Return success,
             if success then report true a
             else logged (lit "Perplexity authentication failed") None
                    (report false a))
        end
  end.

Definition authenticate (a : app) : bool * app :=
  match authenticate_try a with
  | (Return success, a) => (success, a)
  | (Raise message, a) =>
      (false,
       report false
         (logged (lit "Perplexity authentication error:") (Some message) a))
  end.

(** The part of [dispose] that concerns the client; a rejection of
    [close] is logged. *)
Definition dispose (a : app) : app :=
  match _client a with
  | Headless =>
      if isWeb then a
      else
        match Client.close h (node a) with
        | (Return _, n) => with_client Headless n a
        | (Raise message, n) =>
            logged (lit "Error closing Perplexity client:") (Some message)
              (with_client Headless n a)
        end
  | _ => a
  end.

End Authentication.
End Authentication.

(* ===================================================================== *)
(** * The view pane: sending a message from the chat *)
(* ===================================================================== *)

(** The methods of [PerplexityViewPane] that select a conversation, send
    a message and listen to the service, over the fields they use and the
    children of the two containers they fill.

    The view holds in [currentConversation] a conversation object that
    the service returned.  The service keeps that object in
    [_conversations] under its id; [deleteConversation] and
    [clearConversations] have no caller, and the view selects the
    conversation it has created at once.  So the object is the one stored
    under a key, and the view is modelled as holding this key: what the
    view assigns to the object is an update of that entry. *)
Module ViewPane.
Import PerplexityService JsNumber.

(** A child of [chatContainer]: whether its class is [user-message], and
    the texts of its content and of its timestamp. *)
Record element := Element
  { of_user : bool;
    textContent : jsstring;
    time : jsstring }.

(** A child of [conversationsList]: its text, the key of the
    conversation that a click selects, and whether its class list has
    [selected]. *)
Record item := Item
  { text : jsstring;
    opens : jsstring;
    selected : bool }.

Record view := View
  { currentConversation : option jsstring;
    messageInput_value : jsstring;
    sendButton_enabled : bool;
    chatContainer : list element;
    chatContainer_shown : bool;
    conversationsList : list item }.

Definition with_chatContainer (elements : list element) (v : view) : view :=
  {| currentConversation := currentConversation v;
     messageInput_value := messageInput_value v;
     sendButton_enabled := sendButton_enabled v;
     chatContainer := elements;
     chatContainer_shown := chatContainer_shown v;
     conversationsList := conversationsList v |}.

Definition with_conversationsList (items : list item) (v : view) : view :=
  {| currentConversation := currentConversation v;
     messageInput_value := messageInput_value v;
     sendButton_enabled := sendButton_enabled v;
     chatContainer := chatContainer v;
     chatContainer_shown := chatContainer_shown v;
     conversationsList := items |}.

Definition with_sendButton_enabled (b : bool) (v : view) : view :=
  {| currentConversation := currentConversation v;
     messageInput_value := messageInput_value v;
     sendButton_enabled := b;
     chatContainer := chatContainer v;
     chatContainer_shown := chatContainer_shown v;
     conversationsList := conversationsList v |}.

(** [this.currentConversation], the object. *)
Definition current (v : view) (s : service) : option Conversation.t :=
  match currentConversation v with
  | Some key => JsMap.get (_conversations s) key
  | None => None
  end.

(** [this.currentConversation.messages.push(message)] *)
Definition push (key : jsstring) (message : Message.t) (s : service)
  : service :=
  with_conversations
    (JsMap.update (_conversations s) key (fun c =>
       Conversation.with_messages (Conversation.messages c ++ [message]) c))
    s.

(** The class [selected] on the first item that [found] holds for. *)
Fixpoint select_first (found : item -> bool) (items : list item)
  : list item :=
  match items with
  | [] => []
  | i :: rest =>
      if found i then
        {| text := text i; opens := opens i; selected := true |} :: rest
      else i :: select_first found rest
  end.

(** The message [m] with [text] appended to its content. *)
Definition extended (m : Message.t) (text : jsstring) : Message.t :=
  {| Message.id := Message.id m;
     Message.content := Message.content m ++ text;
     Message.timestamp := Message.timestamp m;
     Message.isUser := Message.isUser m;
     Message.response := Message.response m |}.

(** [lastMessage.content += token] for the last message of a list. *)
Definition append_to_last (token : jsstring) (messages : list Message.t)
  : list Message.t :=
  match rev messages with
  | m :: before => rev before ++ [extended m token]
  | [] => []
  end.

(** [content.textContent = s] for the last element of class
    [assistant-message], if there is one. *)
Definition show_in_last_assistant (s : jsstring) (elements : list element)
  : list element :=
  rev
    ((fix show (reversed : list element) : list element :=
        match reversed with
        | [] => []
        | e :: earlier =>
            if of_user e then e :: show earlier
            else {| of_user := false; textContent := s; time := time e |}
                 :: earlier
        end) (rev elements)).

Section ViewPane.

Variable env : environment.

(** [date.toLocaleTimeString()], which depends on the locale. *)
Variable toLocaleTimeString : Z -> jsstring.

Definition renderMessage (message : Message.t) (v : view) : view :=
  with_chatContainer
    (chatContainer v
     ++ [ {| of_user := Message.isUser message;
             textContent := Message.content message;
             time := toLocaleTimeString (Message.timestamp message) |} ])
    v.

Definition renderChat (v : view) (s : service) : view :=
  match current v s with
  | Some c =>
      fold_left (fun v message => renderMessage message v)
        (Conversation.messages c) (with_chatContainer [] v)
  | None => v
  end.

(** [selectConversation(conversation)] for the conversation stored under
    [key]. *)
Definition selectConversation (key : jsstring) (v : view) (s : service)
  : view :=
  let v :=
    {| currentConversation := Some key;
       messageInput_value := messageInput_value v;
       sendButton_enabled := sendButton_enabled v;
       chatContainer := chatContainer v;
       chatContainer_shown := chatContainer_shown v;
       conversationsList := conversationsList v |} in
  let v := renderChat v s in
  let items :=
    map (fun i => {| text := text i; opens := opens i; selected := false |})
      (conversationsList v) in
  {| currentConversation := currentConversation v;
     messageInput_value := messageInput_value v;
     sendButton_enabled := sendButton_enabled v;
     chatContainer := chatContainer v;
     chatContainer_shown := true;
     conversationsList :=
       match current v s with
       | Some c =>
           select_first
             (fun i => JsString.eqb (text i) (Conversation.title c)) items
       | None => items
       end |}.

Definition renderConversations (conversations : list Conversation.t)
  (v : view) (s : service) : view :=
  with_conversationsList
    (map (fun conversation =>
            {| text := Conversation.title conversation;
               opens := Conversation.id conversation;
               selected :=
                 match current v s with
                 | Some c =>
                     JsString.eqb (Conversation.id c)
                       (Conversation.id conversation)
                 | None => false
                 end |})
       conversations)
    v.

Definition loadConversations (v : view) (s : service) : view :=
  if _isAuthenticated s then
    match getConversations s with
    | (Return conversations, _) => renderConversations conversations v s
    | (Raise _, _) => v
    end
  else v.

Definition startNewConversation (v : view) (s : service) : view * service :=
  match createConversation env None s with
  | (Return conversation, s) =>
      let v := selectConversation (Conversation.id conversation) v s in
      (loadConversations v s, s)
  | (Raise _, s) => (v, s)
  end.

(** The listener of [onDidReceiveToken]. *)
Definition onTokenReceived (token : jsstring) (vs : view * service)
  : view * service :=
  let (v, s) := vs in
  match currentConversation v, current v s with
  | Some key, Some c =>
      match rev (Conversation.messages c) with
      | lastMessage :: _ =>
          if Message.isUser lastMessage then vs
          else
            (with_chatContainer
               (show_in_last_assistant (Message.content lastMessage ++ token)
                  (chatContainer v))
               v,
             with_conversations
               (JsMap.update (_conversations s) key (fun c =>
                  Conversation.with_messages
                    (append_to_last token (Conversation.messages c)) c))
               s)
      | [] => vs
      end
  | _, _ => vs
  end.

(** The listener of [onDidCompleteMessage]. *)
Definition onMessageCompleted (v : view) (s : service) : view :=
  loadConversations v s.

(** [this.perplexityService.sendMessage(content, id)] with the two
    listeners attached.  Between its first and its last token the
    service does nothing but fire, so the listener of the tokens runs on
    the state in which the client is called; the listener of the
    completion runs on the state that [sendMessage] returns in. *)
Definition service_sendMessage (content : jsstring) (id : jsstring)
  (v : view) (s : service) : result jsstring * (view * service) :=
  match sendMessage_begin env content (Some id) s with
  | (Return started, s) =>
      let x := client_sendMessage env (consulted s) content in
      let (v, s) :=
        fold_left (fun vs token => onTokenReceived token vs) (tokens x)
          (v, s) in
      match sendMessage_exchange env content (fst started) (snd started) s
      with
      | (Return messageId, s) =>
          (Return messageId, (onMessageCompleted v s, s))
      | (Raise error, s) => (Raise error, (v, s))
      end
  | (Raise error, s) => (Raise error, (v, s))
  end.

(** [sendMessage()] of the view: a click on the send button, or the
    Enter key in the input. *)
Definition sendMessage (v : view) (s : service) : view * service :=
  let content := trim (messageInput_value v) in
  match content, currentConversation v, current v s with
  | _ :: _, Some key, Some conversation =>
      let v :=
        {| currentConversation := currentConversation v;
           messageInput_value := [];
           sendButton_enabled := false;
           chatContainer := chatContainer v;
           chatContainer_shown := chatContainer_shown v;
           conversationsList := conversationsList v |} in
      let n := consulted s in
      let userMessage :=
        {| Message.id := toString10 (Date_now env n);
           Message.content := content;
           Message.timestamp := Date_now env (1 + n);
           Message.isUser := true;
           Message.response := None |} in
      let s := push key userMessage s in
      let v := renderMessage userMessage v in
      let assistantMessage :=
        {| Message.id := toString10 (Date_now env (2 + n)) ++ lit "_assistant";
           Message.content := [];
           Message.timestamp := Date_now env (3 + n);
           Message.isUser := false;
           Message.response := None |} in
      let s := push key assistantMessage s in
      let v := renderMessage assistantMessage v in
      let s :=
        {| _isAuthenticated := _isAuthenticated s;
           _conversations := _conversations s; stored := stored s;
           notified := notified s; consulted := 4 + n |} in
      let (v, s) :=
        snd (service_sendMessage content (Conversation.id conversation) v s)
      in
      (with_sendButton_enabled true v, s)
  | _, _, _ => (v, s)
  end.

End ViewPane.
End ViewPane.

(* ===================================================================== *)
(** * Sample streams and sample runs *)
(* ===================================================================== *)

Module DecoderSamples.
Import PerplexityClient.

(** A line of ASCII text, with apostrophes for quotation marks, and its
    line feed. *)
Definition line (s : String.string) : Buffer.Buffer :=
  Buffer.ascii_bytes s ++ [x0a].
Arguments line _%_string.

(** Two chunks, then a cumulative snapshot that extends them. *)
Definition greeting : Buffer.Buffer :=
  line "event: message"
  ++ line "data: {'thread_url_slug':'abc','blocks':[{'intended_usage':'ask_text','markdown_block':{'chunks':['He','llo']}}]}"
  ++ [x0a]
  ++ line "data: {'blocks':[{'intended_usage':'ask_text','markdown_block':{'answer':'Hello, world'}}]}".

(** A snapshot that does not start with the one before it. *)
Definition rewritten : Buffer.Buffer :=
  line "data: {'blocks':[{'intended_usage':'ask_text','markdown_block':{'answer':'ab'}}]}"
  ++ line "data: {'blocks':[{'intended_usage':'ask_text','markdown_block':{'answer':'xyz'}}]}".

(** One chunk, the letter e with acute accent: U+00E9, in UTF-8 the bytes
    C3 A9.  [accent_head] ends before the letter, [accent_tail] starts
    after it. *)
Definition accent_head : Buffer.Buffer :=
  Buffer.ascii_bytes "data: {'blocks':[{'intended_usage':'ask_text','markdown_block':{'chunks':['".
Definition accent_tail : Buffer.Buffer := line "']}}]}".

End DecoderSamples.

Module ServiceSamples.
Import PerplexityService.

(** An exchange that throws at once, and one that streams ["Hello"]. *)
Definition refused : exchange :=
  {| tokens := [];
     outcome := inr (lit "Failed to send message: HTTP 403: Request failed") |}.

Definition hello : Response.t :=
  {| Response.success := true;
     Response.answer := lit "Hello";
     Response.threadUrlSlug := JStr (lit "abc");
     Response.readWriteToken := JStr [];
     Response.fullResponse := 5 |}.

Definition answered : exchange :=
  {| tokens := [lit "He"; lit "llo"]; outcome := inl hello |}.

(** A desktop whose clock advances by a millisecond at each reading. *)
Definition desktop (x : exchange) : environment :=
  {| isWeb := false;
     Date_now := fun n => (1700000000000 + Z.of_nat n)%Z;
     Math_random := fun n => toString36 (Z.of_nat n);
     client_sendMessage := fun _ _ => x |}.

(** A desktop whose clock reads 1 during the first four consultations,
    2 during the next four and 3 from then on. *)
Definition stalled : environment :=
  {| isWeb := false;
     Date_now := fun n => if n <? 4 then 1%Z else if n <? 8 then 2%Z else 3%Z;
     Math_random := fun n => toString36 (Z.of_nat n);
     client_sendMessage := fun _ _ => refused |}.

(** The service of an authenticated user with nothing stored. *)
Definition signed_in : service :=
  {| _isAuthenticated := true; _conversations := []; stored := None;
     notified := []; consulted := 0 |}.

(** Two conversations are created under [env]. *)
Definition two_conversations (env : environment) : service :=
  snd (createConversation env None
         (snd (createConversation env None signed_in))).

(** ... and [sendMessage(content, id)] is called for each [id] in turn. *)
Definition sent (env : environment) (content : jsstring)
  (ids : list jsstring) (s : service) : service :=
  fold_left (fun s id => snd (sendMessage env content (Some id) s)) ids s.

(** The conversations as [getConversations] returns them: their ids,
    times of update and numbers of messages. *)
Definition listing (s : service) : list (jsstring * Z * nat) :=
  match fst (getConversations s) with
  | Return l =>
      map (fun c => (Conversation.id c, Conversation.updatedAt c,
                     length (Conversation.messages c))) l
  | Raise _ => []
  end.

(** A question of more than 50 code units. *)
Definition question : jsstring :=
  lit "Which conversation was updated last, and what did it say?".

(** The id of the first conversation created under [env], and the
    service that holds this conversation only. *)
Definition first_id (env : environment) : jsstring :=
  toString36 (Date_now env 0) ++ Math_random env 1.

Definition first_conversation (env : environment) : Conversation.t :=
  {| Conversation.id := first_id env;
     Conversation.title := sentinel;
     Conversation.messages := [];
     Conversation.createdAt := Date_now env 2;
     Conversation.updatedAt := Date_now env 3 |}.

Definition one_conversation (env : environment) : service :=
  snd (createConversation env None signed_in).

End ServiceSamples.

Module ClientSamples.
Import PerplexityClient Client JsNumber DecoderSamples.

(** [JSON.stringify(v, null, 2)] for the values of the examples: an
    object whose members are strings without quotation marks, reverse
    solidi, control characters and lone surrogates. *)
Definition written (v : value) : jsstring :=
  match v with
  | JObj members =>
      lit "{" ++ [LF]
      ++ join ([44%N; LF])
           (map (fun member =>
                   lit "  " ++ [34%N] ++ fst member ++ [34%N] ++ lit ": "
                   ++ match snd member with
                      | JStr s => [34%N] ++ s ++ [34%N]
                      | _ => lit "null"
                      end)
              members)
      ++ [LF] ++ lit "}"
  | JStr s => [34%N] ++ s ++ [34%N]
  | _ => lit "null"
  end.

(** A host on which everything works: the clock advances by a
    millisecond at each reading, the homepage sets two cookies, and a
    question is answered with the stream [greeting]. *)
Definition online : host :=
  {| Date_now := fun n => (1700000000000 + Z.of_nat n)%Z;
     Math_random := fun n => toString36 (Z.of_nat n);
     initCycleTLS := fun _ => None;
     exit := fun _ => None;
     homepage := fun _ => Responds 200 (Some (Multiple [lit "a=1"; lit "b=2"]));
     ask := fun _ _ => Responds 200 ([greeting], End);
     readable := true;
     writable := true |}.

(** A host whose server refuses the question, and one whose stream
    breaks after the first two lines of [greeting]. *)
Definition forbidden : host :=
  {| Date_now := Date_now online; Math_random := Math_random online;
     initCycleTLS := initCycleTLS online; exit := exit online;
     homepage := homepage online;
     ask := fun _ _ => Responds 403 ([greeting], End);
     readable := true; writable := true |}.

Definition broken : host :=
  {| Date_now := Date_now online; Math_random := Math_random online;
     initCycleTLS := initCycleTLS online; exit := exit online;
     homepage := homepage online;
     ask := fun _ _ =>
       Responds 200
         ([line "event: message";
           line "data: {'blocks':[{'intended_usage':'ask_text','markdown_block':{'chunks':['He','llo']}}]}"],
          Error (lit "socket hang up"));
     readable := true; writable := true |}.

(** The client after [initialize] and [createSession]. *)
Definition connected (h : host) : state :=
  snd (createSession h written
         (snd (initialize h (construct None)))).

End ClientSamples.

Module AuthenticationSamples.
Import PerplexityService Authentication ClientSamples.

(** A host on which CycleTLS does not start. *)
Definition stuck : Client.host :=
  {| Client.Date_now := Client.Date_now online;
     Client.Math_random := Client.Math_random online;
     Client.initCycleTLS := fun _ => Some (lit "spawn ENOENT");
     Client.exit := Client.exit online;
     Client.homepage := Client.homepage online;
     Client.ask := Client.ask online;
     Client.readable := true; Client.writable := true |}.

(** The module of the client is there. *)
Definition imported : nat -> option jsstring := fun _ => None.

(** A desktop service after its constructor, without conversations
    and without a session file; and one over a session file that holds
    [null]. *)
Definition fresh : app := construct None None.
Definition nulled : app := construct None (Some (lit "null")).

(** The desktop service after [initialize] on the host [online]. *)
Definition initialized : app :=
  snd (initialize false imported online JSON.parse fresh).

End AuthenticationSamples.

Module ViewSamples.
Import PerplexityService ViewPane ServiceSamples.

(** An instance of [toLocaleTimeString] for closed examples: the time
    value in decimal digits. *)
Definition shown_time : Z -> jsstring := JsNumber.toString10.

(** The view before anything is selected, with [text] in the input. *)
Definition typed (text : jsstring) : view :=
  {| currentConversation := None;
     messageInput_value := text;
     sendButton_enabled := true;
     chatContainer := [];
     chatContainer_shown := false;
     conversationsList := [] |}.

(** The new chat button is clicked while [" hi "] is in the input. *)
Definition chatting (env : environment) : view * service :=
  startNewConversation env shown_time (typed (lit " hi ")) signed_in.

(** After the creation of a conversation the new chat button is
    clicked: the list shows two conversations with the default title, the
    new one first, and the view holds the new one. *)
Definition two_untitled (env : environment) : view * service :=
  startNewConversation env shown_time (typed []) (one_conversation env).

(** The conversation stored under [key], for a key that is stored. *)
Definition stored_under (key : jsstring) (s : service) : Conversation.t :=
  match JsMap.get (_conversations s) key with
  | Some c => c
  | None =>
      {| Conversation.id := []; Conversation.title := [];
         Conversation.messages := []; Conversation.createdAt := 0;
         Conversation.updatedAt := 0 |}
  end.

(** The last message of a conversation that has one. *)
Definition last_message (c : Conversation.t) : Message.t :=
  last (Conversation.messages c)
    {| Message.id := []; Message.content := []; Message.timestamp := 0;
       Message.isUser := false; Message.response := None |}.

(** A message without a conversation has been answered, another
    conversation has been created, and the view shows the first one. *)
Definition answered_chat (env : environment) : jsstring :=
  toString36 (Date_now env 2) ++ Math_random env 3.

Definition empty_chat (env : environment) : jsstring :=
  toString36 (Date_now env 13) ++ Math_random env 14.

Definition two_chats (env : environment) : view * service :=
  let s :=
    snd (createConversation env None
           (snd (PerplexityService.sendMessage env (lit "hi") None
                   signed_in))) in
  (selectConversation shown_time (answered_chat env) (typed []) s, s).

End ViewSamples.

Module DocumentSamples.
Import PerplexityClient DecoderSamples.

(** A block with two chunks, and a block with a cumulative snapshot that
    extends them and no chunk list. *)
Definition chunk_block : value :=
  JObj [ (lit "intended_usage", JStr (lit "ask_text"));
         (lit "markdown_block",
           JObj [ (lit "chunks", JArr [JStr (lit "He"); JStr (lit "llo")]) ]) ].

Definition snapshot_block : value :=
  JObj [ (lit "intended_usage", JStr (lit "ask_text"));
         (lit "markdown_block",
           JObj [ (lit "answer", JStr (lit "Hello, world")) ]) ].

(** A [data:] line whose document has these two blocks, and a line with
    one more chunk. *)
Definition chunks_then_snapshot : String.string :=
  "data: {'blocks':[{'intended_usage':'ask_text','markdown_block':{'chunks':['He','llo']}},{'intended_usage':'ask_text','markdown_block':{'answer':'Hello, world'}}]}".

Definition exclamation : String.string :=
  "data: {'blocks':[{'intended_usage':'ask_text','markdown_block':{'chunks':['!']}}]}".

(** The decoder after the event name ['message'] and the two chunks. *)
Definition after_hello : state :=
  {| buffer := []; currentAnswer := lit "Hello";
     threadUrlSlug := JStr []; readWriteToken := JStr [];
     lastEvent := lit "message"; emitted := [lit "He"; lit "llo"] |}.

(** A [data:] line with a cumulative snapshot only, and one in which the
    snapshot comes after a block whose [answer] is an array. *)
Definition snapshot_only : String.string :=
  "data: {'blocks':[{'intended_usage':'ask_text','markdown_block':{'answer':'Hello'}}]}".

Definition array_then_snapshot : String.string :=
  "data: {'blocks':[{'intended_usage':'ask_text','markdown_block':{'answer':['a']}},{'intended_usage':'ask_text','markdown_block':{'answer':'Hello'}}]}".

(** A stream about a thread: two identifiers, an empty identifier and a
    second token, a line that is no JSON, and a last line without line
    feed. *)
Definition threads : list Buffer.Buffer :=
  [ line "event: status";
    line "data: {'thread_url_slug':'abc','read_write_token':'t1'}";
    line "data: {'thread_url_slug':'','read_write_token':'t2'}";
    line "data: {oops";
    Buffer.ascii_bytes "data: {'thread_url_slug':'xyz'}" ].

(** A [data:] line in which a letter follows the colon. *)
Definition letter_after_colon : String.string :=
  "data:x{'read_write_token':'tok','blocks':[{'intended_usage':'ask_text','markdown_block':{'chunks':['boo']}}]}".

Definition one_chunk : String.string :=
  "data: {'blocks':[{'intended_usage':'ask_text','markdown_block':{'chunks':['He']}}]}".

End DocumentSamples.

(* ===================================================================== *)
(** * Facts about strings and buffers *)
(* ===================================================================== *)

Module JsStringFacts.

Lemma eqb_refl (s : jsstring) : JsString.eqb s s = true.
Proof.
  induction s as [|c s IH]; simpl; [reflexivity|].
  now rewrite N.eqb_refl, IH.
Qed.

Lemma eqb_eq (s t : jsstring) : JsString.eqb s t = true <-> s = t.
Proof.
  split; [|intros ->; apply eqb_refl].
  revert t; induction s as [|c s IH]; intros [|d t]; simpl; try easy.
  intros H; apply andb_prop in H as [Hc Hs].
  apply N.eqb_eq in Hc. apply IH in Hs. congruence.
Qed.

Lemma startsWith_app (p s : jsstring) : startsWith (p ++ s) p = true.
Proof.
  induction p as [|c p IH]; simpl; [reflexivity|].
  now rewrite N.eqb_refl, IH.
Qed.

(** A prefix, as [startsWith] decides it, is an initial segment. *)
Lemma startsWith_firstn (s p : jsstring) :
  startsWith s p = true -> firstn (length p) s = p.
Proof.
  revert s; induction p as [|d p IH]; intros [|c s]; simpl; try easy.
  intros H; apply andb_prop in H as [Hc Hs].
  apply N.eqb_eq in Hc. rewrite (IH _ Hs). congruence.
Qed.

Lemma split_LF_nonempty (s : jsstring) : split_LF s <> [].
Proof.
  destruct s as [|c s]; simpl; [easy|].
  destruct (N.eqb c LF); [easy|].
  destruct (split_LF s); easy.
Qed.

(** A line feed separates the pieces before it from those after it. *)
Lemma split_LF_at_LF (p x : jsstring) :
  split_LF (p ++ LF :: x) = split_LF p ++ split_LF x.
Proof.
  induction p as [|c p IH]; simpl.
  - reflexivity.
  - destruct (N.eqb c LF).
    + now rewrite IH.
    + rewrite IH. destruct (split_LF p) eqn:E; [|reflexivity].
      now apply split_LF_nonempty in E.
Qed.

Lemma split_LF_no_LF (s : jsstring) : ~ In LF s -> split_LF s = [s].
Proof.
  induction s as [|c s IH]; simpl; intros H; [reflexivity|].
  destruct (N.eqb c LF) eqn:E.
  - apply N.eqb_eq in E. tauto.
  - rewrite IH by tauto. reflexivity.
Qed.

(** The pieces of [a ++ b] are the complete lines of [a], followed by the
    pieces of what [a] leaves unfinished and [b]. *)
Lemma split_LF_app (a b : jsstring) :
  split_LF (a ++ b)
  = removelast (split_LF a) ++ split_LF (last (split_LF a) [] ++ b).
Proof.
  induction a as [|c a IH].
  - reflexivity.
  - cbn [app split_LF]. destruct (N.eqb c LF) eqn:E.
    + rewrite IH. destruct (split_LF a) eqn:Ea.
      * now apply split_LF_nonempty in Ea.
      * reflexivity.
    + rewrite IH. destruct (split_LF a) as [|p [|q ps]] eqn:Ea.
      * now apply split_LF_nonempty in Ea.
      * cbn [removelast last app split_LF]. rewrite E. reflexivity.
      * reflexivity.
Qed.

Lemma removelast_app_nonempty {A} (l l' : list A) :
  l' <> [] -> removelast (l ++ l') = l ++ removelast l'.
Proof. apply removelast_app. Qed.

Lemma last_app_nonempty {A} (l l' : list A) (d : A) :
  l' <> [] -> last (l ++ l') d = last l' d.
Proof.
  intros H. induction l as [|x l IH]; [reflexivity|].
  cbn [app last]. destruct (l ++ l') eqn:E; [|exact IH].
  apply app_eq_nil in E as [_ E]. contradiction.
Qed.

Lemma toString36_nonempty (n : Z) : toString36 n <> [].
Proof.
  unfold toString36. destruct (n <? 0)%Z; [easy|].
  cbn [digits36]. destruct (_ =? 0)%N; [easy|].
  assert (H : forall fuel m acc, acc <> [] -> digits36 fuel m acc <> []).
  { induction fuel as [|fuel IH]; intros m acc Hacc; simpl; [exact Hacc|].
    destruct (_ =? 0)%N; [easy|]. now apply IH. }
  now apply H.
Qed.

End JsStringFacts.

Module BufferFacts.
Import Buffer.

(** On ASCII bytes the decoder stays at a character boundary, so
    decoding distributes over concatenation. *)
Lemma toString_ascii_app (a b : Buffer) :
  forallb is_ascii a = true ->
  toString (a ++ b) = toString a ++ toString b.
Proof.
  unfold toString. induction a as [|x a IH]; intros H.
  - reflexivity.
  - cbn [forallb] in H. apply andb_prop in H as [Hx Ha].
    cbn [app decode]. unfold step, lead. unfold is_ascii in Hx.
    change 0x7F%N with 127%N in *. rewrite Hx. cbn [app]. now rewrite IH.
Qed.

Lemma toString_ascii_concat (chunks : list Buffer) :
  forallb is_ascii (concat chunks) = true ->
  concat (map toString chunks) = toString (concat chunks).
Proof.
  induction chunks as [|c chunks IH]; intros H; [reflexivity|].
  cbn [concat map] in *. rewrite forallb_app in H.
  apply andb_prop in H as [Hc Hr].
  now rewrite toString_ascii_app, IH.
Qed.

End BufferFacts.

(* ===================================================================== *)
(** * The stream decoder: chunk boundaries *)
(* ===================================================================== *)

Module DecoderFacts.
Import PerplexityClient JsStringFacts.

Section Decoder.

Variable JSON_parse : jsstring -> option value.
Variable relational_gt : value -> nat -> option bool.
Variable onToken : bool.

Local Abbreviation processChunk := (processChunk onToken).
Local Abbreviation processBlock := (processBlock relational_gt onToken).
Local Abbreviation processBlocks := (processBlocks relational_gt onToken).
Local Abbreviation processData := (processData relational_gt onToken).
Local Abbreviation processLine := (processLine JSON_parse relational_gt onToken).
Local Abbreviation feed := (feed JSON_parse relational_gt onToken).
Local Abbreviation onData := (onData JSON_parse relational_gt onToken).
Local Abbreviation receive := (receive JSON_parse relational_gt onToken).
Local Abbreviation processStreamingResponse :=
  (processStreamingResponse JSON_parse relational_gt onToken).

(** ** The line buffer does not influence the handling of a line *)

Lemma set_buffer_same (st : state) : set_buffer (buffer st) st = st.
Proof. now destruct st. Qed.

Lemma processChunk_set_buffer b st ch :
  processChunk (set_buffer b st) ch = set_buffer b (processChunk st ch).
Proof.
  destruct ch; try reflexivity.
  unfold PerplexityClient.processChunk, call_onToken.
  now destruct onToken.
Qed.

Lemma processChunks_set_buffer b chunks st :
  fold_left processChunk chunks (set_buffer b st)
  = set_buffer b (fold_left processChunk chunks st).
Proof.
  revert st; induction chunks as [|ch chunks IH]; intros st; simpl.
  - reflexivity.
  - now rewrite processChunk_set_buffer, IH.
Qed.

Lemma processBlock_set_buffer b st block :
  processBlock (set_buffer b st) block
  = completion_map (set_buffer b) (processBlock st block).
Proof.
  unfold PerplexityClient.processBlock.
  cbn [currentAnswer set_buffer].
  repeat match goal with
         | |- context [match ?x with _ => _ end] => destruct x eqn:?
         | |- context [if ?x then _ else _] => destruct x eqn:?
         end; cbn [completion_map]; try reflexivity;
    try (f_equal; apply processChunks_set_buffer).
  all: try (unfold call_onToken; destruct onToken; reflexivity).
Qed.

Lemma processBlocks_set_buffer b blocks st :
  processBlocks (set_buffer b st) blocks
  = completion_map (set_buffer b) (processBlocks st blocks).
Proof.
  revert st; induction blocks as [|block blocks IH]; intros st.
  - reflexivity.
  - cbn [PerplexityClient.processBlocks].
    rewrite processBlock_set_buffer.
    destruct (processBlock st block); cbn [completion_map];
      [apply IH | reflexivity].
Qed.

Lemma readMetadata_set_buffer b st data :
  readMetadata (set_buffer b st) data = set_buffer b (readMetadata st data).
Proof.
  unfold readMetadata.
  repeat match goal with
         | |- context [match ?x with _ => _ end] => destruct x eqn:?
         end; reflexivity.
Qed.

Lemma processData_set_buffer b st data :
  processData (set_buffer b st) data
  = completion_map (set_buffer b) (processData st data).
Proof.
  unfold PerplexityClient.processData.
  destruct data; try reflexivity;
    rewrite readMetadata_set_buffer;
    (destruct (otherEvent (readMetadata st _)) eqn:E;
     unfold otherEvent in *; cbn [lastEvent set_buffer] in *; rewrite E;
     [reflexivity|]);
    repeat match goal with
           | |- context [match ?x with _ => _ end] => destruct x eqn:?
           end; try reflexivity; apply processBlocks_set_buffer.
Qed.

Lemma state_of_completion_map f c :
  state_of (completion_map f c) = f (state_of c).
Proof. now destruct c. Qed.

Lemma processLine_set_buffer b st raw :
  processLine (set_buffer b st) raw = set_buffer b (processLine st raw).
Proof.
  unfold PerplexityClient.processLine.
  repeat match goal with
         | |- context [if ?x then _ else _] => destruct x eqn:?
         | |- context [match ?x with _ => _ end] => destruct x eqn:?
         end; try reflexivity.
  now rewrite processData_set_buffer, state_of_completion_map.
Qed.

Lemma processLines_set_buffer b lines st :
  fold_left processLine lines (set_buffer b st)
  = set_buffer b (fold_left processLine lines st).
Proof.
  revert st; induction lines as [|raw lines IH]; intros st; simpl.
  - reflexivity.
  - now rewrite processLine_set_buffer, IH.
Qed.

Lemma buffer_processLines lines st :
  buffer (fold_left processLine lines st) = buffer st.
Proof.
  rewrite <- (set_buffer_same st) at 1.
  now rewrite processLines_set_buffer.
Qed.

Lemma set_buffer_twice b b' st :
  set_buffer b (set_buffer b' st) = set_buffer b st.
Proof. reflexivity. Qed.

(** ** Text may be delivered in any number of pieces *)

Lemma feed_app st a b : feed (feed st a) b = feed st (a ++ b).
Proof.
  unfold PerplexityClient.feed.
  rewrite buffer_processLines. cbn [buffer set_buffer].
  rewrite app_assoc, (split_LF_app (buffer st ++ a) b).
  set (la := split_LF (buffer st ++ a)).
  set (lb := split_LF (last la [] ++ b)).
  assert (Hlb : lb <> []) by apply split_LF_nonempty.
  rewrite removelast_app_nonempty, last_app_nonempty by exact Hlb.
  rewrite fold_left_app. f_equal.
  transitivity
    (set_buffer (last lb []) (fold_left processLine (removelast la) st)).
  - etransitivity; [|apply set_buffer_twice].
    f_equal. apply processLines_set_buffer.
  - symmetry. apply processLines_set_buffer.
Qed.

Lemma fold_onData chunks chunk st :
  fold_left onData chunks (onData st chunk)
  = feed st (Buffer.toString chunk ++ concat (map Buffer.toString chunks)).
Proof.
  revert chunk st; induction chunks as [|c chunks IH]; intros chunk st.
  - cbn [fold_left map concat]. now rewrite app_nil_r.
  - cbn [fold_left map concat]. rewrite IH.
    unfold PerplexityClient.onData. apply feed_app.
Qed.

(** The state after a stream depends on its decoded text only. *)
Lemma receive_text chunks :
  receive chunks = feed initial (concat (map Buffer.toString chunks)).
Proof.
  unfold PerplexityClient.receive. destruct chunks as [|c chunks].
  - reflexivity.
  - cbn [fold_left]. apply fold_onData.
Qed.

(** X1.  Two deliveries whose chunks decode to the same text give the same
    tokens and the same settlement: an empty chunk, or a chunk boundary
    between two characters, changes nothing. *)
Theorem same_text_same_result chunks1 chunks2 e :
  concat (map Buffer.toString chunks1) = concat (map Buffer.toString chunks2) ->
  processStreamingResponse chunks1 e = processStreamingResponse chunks2 e.
Proof.
  intros H. unfold PerplexityClient.processStreamingResponse.
  now rewrite !receive_text, H.
Qed.

(** X2.  Chunk boundaries do not matter in a stream of ASCII bytes: two
    deliveries of the same bytes give the same tokens and the same
    settlement. *)
Theorem ascii_chunking_irrelevant chunks1 chunks2 e :
  concat chunks1 = concat chunks2 ->
  forallb Buffer.is_ascii (concat chunks1) = true ->
  processStreamingResponse chunks1 e = processStreamingResponse chunks2 e.
Proof.
  intros Hcat Hascii.
  assert (E : concat (map Buffer.toString chunks1)
              = concat (map Buffer.toString chunks2))
    by (rewrite !BufferFacts.toString_ascii_concat; congruence).
  unfold PerplexityClient.processStreamingResponse.
  now rewrite !receive_text, E.
Qed.

(** ** Lines and documents *)

Local Abbreviation document := (document JSON_parse).

Lemma set_lastEvent_same (st : state) : set_lastEvent (lastEvent st) st = st.
Proof. now destruct st. Qed.

Lemma processLine_document st raw data :
  document raw = Some data ->
  processLine st raw = state_of (processData st data).
Proof.
  unfold PerplexityClient.document, payload, PerplexityClient.processLine.
  repeat match goal with
         | |- context [if ?x then _ else _] => destruct x eqn:?
         end; try discriminate.
  now intros ->.
Qed.

Lemma processLine_no_document st raw :
  document raw = None ->
  exists e, processLine st raw = set_lastEvent e st.
Proof.
  unfold PerplexityClient.document, payload, PerplexityClient.processLine.
  repeat match goal with
         | |- context [if ?x then _ else _] => destruct x eqn:?
         end; intros H; try rewrite H; eauto;
    exists (lastEvent st); now rewrite set_lastEvent_same.
Qed.

(** A line whose payload [JSON.parse] rejects leaves every variable as
    it was. *)
Lemma processLine_malformed st raw dataStr :
  payload raw = Some dataStr -> JSON_parse dataStr = None ->
  processLine st raw = st.
Proof.
  unfold payload, PerplexityClient.processLine.
  set (line := trim (replace_final_CR raw)).
  set (text := trim (substring_from 6 line)).
  repeat match goal with
         | |- context [if ?x then _ else _] => destruct x eqn:?
         end; try discriminate.
  intros E H. assert (text = dataStr) as -> by congruence.
  now rewrite H.
Qed.

Lemma feed_complete_lines st text :
  feed st text
  = fold_left processLine (removelast (split_LF (buffer st ++ text)))
      (set_buffer (last (split_LF (buffer st ++ text)) []) st).
Proof. reflexivity. Qed.

(** A stream with a line [bad] for which [JSON.parse] rejects the text
    that the decoder hands to it, after complete lines [before] and ahead
    of the text [after], gives the tokens and the settlement of the
    stream without that line, however the two streams are cut into
    chunks. *)
Lemma rejected_line_is_skipped before bad after dataStr chunks1 chunks2 e :
  (before = [] \/ exists lines, before = lines ++ [LF]) ->
  ~ In LF bad ->
  payload bad = Some dataStr ->
  JSON_parse dataStr = None ->
  concat (map Buffer.toString chunks1) = before ++ bad ++ LF :: after ->
  concat (map Buffer.toString chunks2) = before ++ after ->
  processStreamingResponse chunks1 e = processStreamingResponse chunks2 e.
Proof.
  intros Hbefore Hbad Hpayload Hparse H1 H2.
  unfold PerplexityClient.processStreamingResponse.
  rewrite !receive_text, H1, H2, !feed_complete_lines.
  cbn [buffer initial app].
  assert (Hlast : last (split_LF before) [] = []).
  { destruct Hbefore as [->|[ls ->]]; [reflexivity|].
    rewrite split_LF_at_LF. now rewrite last_app_nonempty. }
  pose proof (split_LF_nonempty after) as Hafter.
  rewrite (split_LF_app before (bad ++ LF :: after)).
  rewrite (split_LF_app before after), Hlast. cbn [app].
  rewrite split_LF_at_LF, (split_LF_no_LF _ Hbad).
  set (pre := removelast (split_LF before)).
  rewrite !app_assoc, !removelast_app_nonempty, !last_app_nonempty
    by exact Hafter.
  rewrite !fold_left_app. cbn [fold_left].
  now rewrite (@processLine_malformed _ _ _ Hpayload Hparse).
Qed.

(** ** Deltas *)

(** [snapshot] tells when [processBlock] takes a delta, and from what. *)
Lemma snapshot_delta st block a :
  snapshot st block = Some a ->
  processBlock st block
  = Normal
      (set_currentAnswer a
         (call_onToken onToken
            (substring_from (length (currentAnswer st)) a) st)).
Proof.
  unfold snapshot, PerplexityClient.processBlock.
  destruct (truthy block && _ && _); [|discriminate].
  destruct (member _ (lit "chunks")) as [[| | | |[|ch chunks]|]|];
    try discriminate.
  all: destruct (member _ (lit "answer")) as [[| | |a'| |]|];
    try discriminate.
  all: cbn [ToBoolean truthy length_gt].
  all: destruct (length (currentAnswer st) <? length a') eqn:Hlt;
    [|discriminate].
  all: intros [= ->].
  all: destruct a as [|c a]; [apply Nat.ltb_lt in Hlt; cbn in Hlt; lia|].
  all: reflexivity.
Qed.

(** Without a snapshot, a block passes its chunks or nothing. *)
Lemma no_snapshot_no_delta st block :
  snapshot st block = None ->
  (exists ch chunks,
     processBlock st block
     = Normal (fold_left processChunk (ch :: chunks) st))
  \/ state_of (processBlock st block) = st.
Proof.
  unfold snapshot, PerplexityClient.processBlock.
  destruct (truthy block && _ && _); [|now right].
  destruct (member _ (lit "chunks")) as [[| | | |[|ch chunks]|]|];
    try (left; eauto; fail).
  all: destruct (member _ (lit "answer")) as [[| | |a| |]|];
    cbn [ToBoolean truthy length_gt]; try (now right).
  all: try (intros _; right;
            repeat match goal with
                   | |- context [match ?x with _ => _ end] => destruct x eqn:?
                   | |- context [if ?x then _ else _] => destruct x eqn:?
                   end; reflexivity).
  all: destruct (negb (JsString.eqb a [])); [|now right].
  all: destruct (length (currentAnswer st) <? length a); [discriminate|].
  all: now right.
Qed.

(** ** Metadata *)

Lemma same_metadata_refl st : same_metadata st st.
Proof. now repeat split. Qed.

Lemma same_metadata_trans st1 st2 st3 :
  same_metadata st1 st2 -> same_metadata st2 st3 -> same_metadata st1 st3.
Proof. unfold same_metadata. intuition congruence. Qed.

Lemma processChunk_metadata st ch : same_metadata st (processChunk st ch).
Proof.
  destruct ch; try apply same_metadata_refl.
  unfold PerplexityClient.processChunk, call_onToken.
  destruct onToken; now repeat split.
Qed.

Lemma processChunks_metadata chunks st :
  same_metadata st (fold_left processChunk chunks st).
Proof.
  revert st; induction chunks as [|ch chunks IH]; intros st; simpl.
  - apply same_metadata_refl.
  - eapply same_metadata_trans; [apply processChunk_metadata | apply IH].
Qed.

Lemma processBlock_metadata st block :
  same_metadata st (state_of (processBlock st block)).
Proof.
  unfold PerplexityClient.processBlock.
  repeat match goal with
         | |- context [match ?x with _ => _ end] => destruct x eqn:?
         | |- context [if ?x then _ else _] => destruct x eqn:?
         end; cbn [state_of];
    try apply same_metadata_refl; try apply processChunks_metadata.
  all: unfold call_onToken; destruct onToken; now repeat split.
Qed.

Lemma processBlocks_metadata blocks st :
  same_metadata st (state_of (processBlocks st blocks)).
Proof.
  revert st; induction blocks as [|block blocks IH]; intros st.
  - apply same_metadata_refl.
  - cbn [PerplexityClient.processBlocks].
    pose proof (processBlock_metadata st block) as H.
    destruct (processBlock st block) as [st'|st']; cbn [state_of] in *.
    + eapply same_metadata_trans; [exact H | apply IH].
    + exact H.
Qed.

Lemma readMetadata_assigned st data :
  data <> JNull ->
  threadUrlSlug (readMetadata st data)
  = match assigned (lit "thread_url_slug") data with
    | Some v => v
    | None => threadUrlSlug st
    end
  /\ readWriteToken (readMetadata st data)
     = match assigned (lit "read_write_token") data with
       | Some v => v
       | None => readWriteToken st
       end
  /\ lastEvent (readMetadata st data) = lastEvent st
  /\ emitted (readMetadata st data) = emitted st
  /\ currentAnswer (readMetadata st data) = currentAnswer st.
Proof.
  intros Hnull. unfold readMetadata, assigned.
  destruct data; try contradiction;
    repeat match goal with
           | |- context [match ?x with _ => _ end] => destruct x eqn:?
           end; now repeat split.
Qed.

(** The data of the blocks is read only under the event names [''] and
    ['message']. *)
Lemma processData_other_event st data :
  otherEvent st = true ->
  emitted (state_of (processData st data)) = emitted st
  /\ currentAnswer (state_of (processData st data)) = currentAnswer st.
Proof.
  intros Hother. unfold PerplexityClient.processData.
  destruct data eqn:E; [now split|..];
    match goal with
    | |- context [readMetadata st ?d] =>
        destruct (@readMetadata_assigned st d) as (_ & _ & He & Hm & Hc);
        [easy|]
    end;
    unfold otherEvent in *; rewrite He, Hother; cbn [state_of]; now split.
Qed.

Lemma processData_assigned st data :
  threadUrlSlug (state_of (processData st data))
  = match assigned (lit "thread_url_slug") data with
    | Some v => v
    | None => threadUrlSlug st
    end
  /\ readWriteToken (state_of (processData st data))
     = match assigned (lit "read_write_token") data with
       | Some v => v
       | None => readWriteToken st
       end.
Proof.
  unfold PerplexityClient.processData.
  destruct data eqn:E; [now split|..].
  all: match goal with
       | |- context [readMetadata ?s ?d] =>
           destruct (@readMetadata_assigned s d) as (Hs & Ht & _); [easy|];
           rewrite <- Hs, <- Ht;
           generalize (readMetadata s d); intros st1
       end.
  all: destruct (otherEvent st1); [now split|].
  all: repeat match goal with
         | |- context [match ?x with _ => _ end] => destruct x eqn:?
         end; try (now split).
  all: match goal with
       | |- context [processBlocks ?s ?bs] =>
           destruct (processBlocks_metadata bs s) as (Hs' & Ht' & _)
       end; now split.
Qed.

(** C4, as the code has it.  A document assigns [threadUrlSlug] and
    [readWriteToken] from its members [thread_url_slug] and
    [read_write_token] whenever these are present with a truthy value,
    under every event name; it contributes tokens and answer text only
    when the event name is empty or ['message']. *)
Theorem metadata_before_event_gate st data :
  threadUrlSlug (state_of (processData st data))
  = match assigned (lit "thread_url_slug") data with
    | Some v => v
    | None => threadUrlSlug st
    end
  /\ readWriteToken (state_of (processData st data))
     = match assigned (lit "read_write_token") data with
       | Some v => v
       | None => readWriteToken st
       end
  /\ (lastEvent st = [] \/ lastEvent st = lit "message"
      \/ (emitted (state_of (processData st data)) = emitted st
          /\ currentAnswer (state_of (processData st data))
             = currentAnswer st)).
Proof.
  destruct (processData_assigned st data) as [Hs Ht].
  split; [exact Hs|]. split; [exact Ht|].
  destruct (JsString.eqb (lastEvent st) []) eqn:E1;
    [left; now apply eqb_eq|].
  destruct (JsString.eqb (lastEvent st) (lit "message")) eqn:E2;
    [right; left; now apply eqb_eq|].
  right; right. apply processData_other_event.
  unfold otherEvent. now rewrite E1, E2.
Qed.

(** ** The response *)

Local Abbreviation last_assigned := (last_assigned JSON_parse).

Lemma processLine_assigned st raw :
  threadUrlSlug (processLine st raw)
  = match document raw with
    | Some data =>
        match assigned (lit "thread_url_slug") data with
        | Some v => v
        | None => threadUrlSlug st
        end
    | None => threadUrlSlug st
    end
  /\ readWriteToken (processLine st raw)
     = match document raw with
       | Some data =>
           match assigned (lit "read_write_token") data with
           | Some v => v
           | None => readWriteToken st
           end
       | None => readWriteToken st
       end.
Proof.
  destruct (document raw) as [data|] eqn:E.
  - rewrite (@processLine_document st _ _ E).
    apply processData_assigned.
  - destruct (@processLine_no_document st _ E) as [e ->]. now split.
Qed.

Lemma processLines_assigned lines st :
  threadUrlSlug (fold_left processLine lines st)
  = last_assigned (lit "thread_url_slug") lines (threadUrlSlug st)
  /\ readWriteToken (fold_left processLine lines st)
     = last_assigned (lit "read_write_token") lines (readWriteToken st).
Proof.
  revert st; induction lines as [|raw lines IH]; intros st.
  - now split.
  - cbn [fold_left PerplexityClient.last_assigned].
    destruct (IH (processLine st raw)) as [Hs Ht].
    destruct (processLine_assigned st raw) as [Es Et].
    rewrite Hs, Ht, Es, Et.
    split; destruct (document raw); reflexivity.
Qed.

(** When the stream ends, the promise is resolved with the response that
    carries the accumulated answer and its length, the last truthy values
    that the documents read by the decoder have for [thread_url_slug] and
    [read_write_token] (the empty string when there is none), and
    [success: true]. *)
Lemma response_of_documents chunks :
  snd (processStreamingResponse chunks End)
  = Resolved
      {| Response.success := true;
         Response.answer := currentAnswer (receive chunks);
         Response.threadUrlSlug :=
           last_assigned (lit "thread_url_slug")
             (complete_lines (concat (map Buffer.toString chunks)))
             (JStr []);
         Response.readWriteToken :=
           last_assigned (lit "read_write_token")
             (complete_lines (concat (map Buffer.toString chunks)))
             (JStr []);
         Response.fullResponse := length (currentAnswer (receive chunks)) |}.
Proof.
  unfold PerplexityClient.processStreamingResponse, onEnd. cbn [snd].
  do 2 f_equal; rewrite receive_text, feed_complete_lines;
    cbn [buffer initial app];
    match goal with
    | |- context [fold_left _ ?ls ?st0] =>
        destruct (processLines_assigned ls st0) as [Hs Ht]
    end; [exact Hs | exact Ht].
Qed.

End Decoder.

(** ** With a token callback *)

Section Callback.

Variable JSON_parse : jsstring -> option value.
Variable relational_gt : value -> nat -> option bool.

Local Abbreviation processChunk := (processChunk true).
Local Abbreviation processBlock := (processBlock relational_gt true).
Local Abbreviation processBlocks := (processBlocks relational_gt true).
Local Abbreviation processData := (processData relational_gt true).
Local Abbreviation processLine := (processLine JSON_parse relational_gt true).
Local Abbreviation receive := (receive JSON_parse relational_gt true).
Local Abbreviation processStreamingResponse :=
  (processStreamingResponse JSON_parse relational_gt true).
Local Abbreviation blocks_extend := (blocks_extend relational_gt true).
Local Abbreviation data_extends := (data_extends relational_gt true).
Local Abbreviation lines_extend := (lines_extend JSON_parse relational_gt true).
Local Abbreviation chunks_extend :=
  (chunks_extend JSON_parse relational_gt true).
Local Abbreviation snapshots_extend :=
  (snapshots_extend JSON_parse relational_gt true).

(** A block for answer text without a chunk list, whose cumulative
    [answer] is longer than the answer accumulated so far, passes one
    token to the callback, the part of [answer] from the accumulated
    length on, and makes [answer] the accumulated answer. *)
Lemma processBlock_delta st block mb a :
  get block (lit "intended_usage") = Some (JStr (lit "ask_text")) ->
  get block (lit "markdown_block") = Some mb ->
  get mb (lit "chunks") = None ->
  get mb (lit "answer") = Some (JStr a) ->
  length (currentAnswer st) < length a ->
  processBlock st block
  = Normal
      (set_currentAnswer a
         (call_onToken true (skipn (length (currentAnswer st)) a) st)).
Proof.
  intros Husage Hmb Hchunks Hanswer Hlen.
  assert (Hblock : truthy block = true) by now destruct block.
  assert (Htruthy : truthy mb = true) by now destruct mb.
  assert (Ha : truthy (JStr a) = true) by now destruct a.
  apply Nat.ltb_lt in Hlen.
  unfold PerplexityClient.processBlock.
  rewrite Hblock, Husage, Hmb. cbn [is_string ToBoolean member].
  rewrite JsStringFacts.eqb_refl, Htruthy, Hchunks, Hanswer.
  cbn [andb ToBoolean length_gt]. rewrite Ha, Hlen. reflexivity.
Qed.

(** ** Tokens and the accumulated answer *)

Lemma concat_snoc (tokens : list jsstring) (token : jsstring) :
  concat (tokens ++ [token]) = concat tokens ++ token.
Proof. rewrite concat_app. cbn [concat]. now rewrite app_nil_r. Qed.

Lemma processChunk_tokens st ch :
  (same_length st -> same_length (processChunk st ch))
  /\ (rebuilt st -> rebuilt (processChunk st ch)).
Proof.
  unfold same_length, rebuilt.
  destruct ch; try tauto.
  cbn [PerplexityClient.processChunk call_onToken set_currentAnswer
       emitted currentAnswer].
  rewrite concat_snoc, !length_app. split; intros ->; reflexivity.
Qed.

Lemma processChunks_tokens chunks st :
  (same_length st -> same_length (fold_left processChunk chunks st))
  /\ (rebuilt st -> rebuilt (fold_left processChunk chunks st)).
Proof.
  revert st; induction chunks as [|ch chunks IH]; intros st; cbn [fold_left].
  - tauto.
  - destruct (processChunk_tokens st ch), (IH (processChunk st ch)). tauto.
Qed.

Lemma processBlock_tokens st block :
  (same_length st -> same_length (state_of (processBlock st block)))
  /\ (rebuilt st -> block_extends st block = true ->
      rebuilt (state_of (processBlock st block))).
Proof.
  unfold block_extends, snapshot, PerplexityClient.processBlock.
  destruct (truthy block && _ && _); [|cbn [state_of]; tauto].
  destruct (member _ (lit "chunks")) as [[| | | |[|ch chunks]|]|];
    try (cbn [state_of]; pose proof (processChunks_tokens (ch :: chunks) st);
         tauto).
  all: destruct (member _ (lit "answer")) as [[| | |a| |]|];
    cbn [ToBoolean truthy length_gt]; try (cbn [state_of]; tauto).
  all: try (repeat match goal with
         | |- context [match ?x with _ => _ end] => destruct x eqn:?
         | |- context [if ?x then _ else _] => destruct x eqn:?
         end; cbn [state_of]; tauto).
  all: destruct (negb (JsString.eqb a [])); [|cbn [state_of]; tauto].
  all: destruct (length (currentAnswer st) <? length a) eqn:Hlt;
    [|cbn [state_of]; tauto].
  all: apply Nat.ltb_lt in Hlt.
  all: unfold same_length, rebuilt;
    cbn [state_of call_onToken set_currentAnswer emitted currentAnswer];
    rewrite concat_snoc.
  all: split; [intros Hlen; rewrite length_app, length_skipn, Hlen; lia|].
  all: intros Hrebuilt Hstarts; rewrite Hrebuilt.
  all: apply JsStringFacts.startsWith_firstn in Hstarts.
  all: rewrite <- Hstarts at 1; apply firstn_skipn.
Qed.

Lemma processBlocks_tokens blocks st :
  (same_length st -> same_length (state_of (processBlocks st blocks)))
  /\ (rebuilt st -> blocks_extend st blocks = true ->
      rebuilt (state_of (processBlocks st blocks))).
Proof.
  revert st; induction blocks as [|block blocks IH]; intros st.
  - cbn. tauto.
  - cbn [PerplexityClient.processBlocks PerplexityClient.blocks_extend].
    destruct (processBlock_tokens st block) as [Hlen Hreb].
    destruct (processBlock st block) as [st'|st']; cbn [state_of] in *.
    + destruct (IH st') as [Hlen' Hreb']. split; [tauto|].
      intros H Hext. apply andb_prop in Hext as [Hb Hbs]. tauto.
    + split; [tauto|].
      intros H Hext. apply andb_prop in Hext as [Hb _]. tauto.
Qed.

Lemma readMetadata_tokens st data :
  emitted (readMetadata st data) = emitted st
  /\ currentAnswer (readMetadata st data) = currentAnswer st.
Proof.
  unfold readMetadata.
  repeat match goal with
         | |- context [match ?x with _ => _ end] => destruct x eqn:?
         end; now split.
Qed.

Lemma processData_tokens st data :
  (same_length st -> same_length (state_of (processData st data)))
  /\ (rebuilt st -> data_extends st data = true ->
      rebuilt (state_of (processData st data))).
Proof.
  unfold PerplexityClient.processData, PerplexityClient.data_extends.
  destruct data; [cbn [state_of]; tauto|..];
    match goal with
    | |- context [readMetadata st ?d] =>
        destruct (readMetadata_tokens st d) as [He Hc];
        assert (Hlen : same_length st -> same_length (readMetadata st d))
          by (unfold same_length; now rewrite He, Hc);
        assert (Hreb : rebuilt st -> rebuilt (readMetadata st d))
          by (unfold rebuilt; now rewrite He, Hc);
        clear He Hc; generalize dependent (readMetadata st d); intros st1 ? ?
    end;
    (destruct (otherEvent st1); [cbn [state_of]; tauto|]);
    repeat match goal with
           | |- context [match ?x with _ => _ end] =>
               destruct x eqn:?; try (cbn [state_of]; tauto)
           end;
    match goal with
    | |- context [processBlocks ?s ?bs] =>
        destruct (processBlocks_tokens bs s); tauto
    end.
Qed.

Lemma processLine_tokens st raw :
  (same_length st -> same_length (processLine st raw))
  /\ (rebuilt st ->
      match document JSON_parse raw with
      | Some data => data_extends st data
      | None => true
      end = true ->
      rebuilt (processLine st raw)).
Proof.
  destruct (document JSON_parse raw) as [data|] eqn:E.
  - rewrite (@processLine_document JSON_parse relational_gt true st _ _ E).
    apply processData_tokens.
  - destruct (@processLine_no_document JSON_parse relational_gt true st _ E)
      as [e ->].
    tauto.
Qed.

Lemma processLines_tokens lines st :
  (same_length st -> same_length (fold_left processLine lines st))
  /\ (rebuilt st -> lines_extend st lines = true ->
      rebuilt (fold_left processLine lines st)).
Proof.
  revert st; induction lines as [|raw lines IH]; intros st.
  - cbn. tauto.
  - cbn [fold_left PerplexityClient.lines_extend].
    destruct (processLine_tokens st raw) as [Hlen Hreb].
    destruct (IH (processLine st raw)) as [Hlen' Hreb'].
    split; [tauto|].
    intros H Hext. apply andb_prop in Hext as [Hl Hls]. tauto.
Qed.

Lemma onData_tokens st chunk :
  (same_length st ->
   same_length (onData JSON_parse relational_gt true st chunk))
  /\ (rebuilt st -> chunks_extend st [chunk] = true ->
      rebuilt (onData JSON_parse relational_gt true st chunk)).
Proof.
  unfold PerplexityClient.onData, PerplexityClient.feed.
  cbn [PerplexityClient.chunks_extend].
  match goal with
  | |- context [fold_left _ ?ls ?st0] =>
      destruct (processLines_tokens ls st0) as [Hlen Hreb]
  end.
  split; [exact Hlen|].
  intros H Hext. rewrite andb_true_r in Hext. now apply Hreb.
Qed.

Lemma receive_tokens chunks st :
  (same_length st ->
   same_length (fold_left (onData JSON_parse relational_gt true) chunks st))
  /\ (rebuilt st -> chunks_extend st chunks = true ->
      rebuilt (fold_left (onData JSON_parse relational_gt true) chunks st)).
Proof.
  revert st; induction chunks as [|chunk chunks IH]; intros st.
  - cbn. tauto.
  - cbn [fold_left].
    destruct (onData_tokens st chunk) as [Hlen Hreb].
    destruct (IH (onData JSON_parse relational_gt true st chunk))
      as [Hlen' Hreb'].
    split; [tauto|].
    intros H Hext. cbn [PerplexityClient.chunks_extend] in *.
    rewrite andb_true_r in Hreb.
    apply andb_prop in Hext as [Hc Hcs]. tauto.
Qed.

(** The tokens passed to the callback have together the length that the
    response reports. *)
Theorem tokens_have_answer_length chunks :
  length (concat (fst (processStreamingResponse chunks End)))
  = length (currentAnswer (receive chunks)).
Proof.
  unfold PerplexityClient.processStreamingResponse. cbn [fst].
  now apply (receive_tokens chunks initial).
Qed.

(** C10, as the code has it.  When every cumulative snapshot from which a
    delta is taken starts with the answer accumulated before it, the
    [answer] of the response is the concatenation, in order, of the
    tokens passed to the callback. *)
Theorem tokens_rebuild_answer chunks tokens r :
  snapshots_extend chunks = true ->
  processStreamingResponse chunks End = (tokens, Resolved r) ->
  Response.answer r = concat tokens.
Proof.
  unfold PerplexityClient.processStreamingResponse,
    PerplexityClient.snapshots_extend, PerplexityClient.receive.
  intros Hext [= <- <-]. cbn [onEnd Response.answer].
  symmetry. now apply (receive_tokens chunks initial).
Qed.

End Callback.
End DecoderFacts.

(* ===================================================================== *)
(** * The stream decoder on sample streams *)
(* ===================================================================== *)

Module DecoderExamples.
Import PerplexityClient DecoderSamples DecoderFacts.

(** The stream [greeting], delivered in one chunk. *)
Example greeting_tokens :
  processStreamingResponse JSON.parse never_gt true [greeting] End
  = ([lit "He"; lit "llo"; lit ", world"],
     Resolved
       {| Response.success := true;
          Response.answer := lit "Hello, world";
          Response.threadUrlSlug := JStr (lit "abc");
          Response.readWriteToken := JStr [];
          Response.fullResponse := 12 |}).
Proof. vm_compute. reflexivity. Qed.

(** [JSON.parse] gives a number literal its Number value: [2^53 + 1] is
    no Number and reads as [2^53]; a literal of less than half the least
    Number reads as zero, which is falsy; one beyond the greatest Number
    reads as an infinity. *)
Example parse_rounds_numbers :
  JSON.parse (lit "9007199254740993") = JSON.parse (lit "9007199254740992")
  /\ JSON.parse (lit "0.1")
     = Some (JNum (Finite false 7205759403792794 (-56)))
  /\ option_map truthy (JSON.parse (lit "1e-400")) = Some false
  /\ JSON.parse (lit "1e400") = Some (JNum (Infinite false)).
Proof. repeat split; vm_compute; reflexivity. Qed.

(** C1 at a stream whose text is not ASCII.  Delivered in one chunk, the
    letter U+00E9 is the token; delivered with a chunk boundary between
    its two bytes, each chunk is decoded by itself and the token is two
    replacement characters U+FFFD. *)
Theorem split_character_is_replaced :
  processStreamingResponse JSON.parse never_gt true
    [accent_head ++ [xc3; xa9] ++ accent_tail] End
  = ([[0xE9%N]],
     Resolved
       {| Response.success := true;
          Response.answer := [0xE9%N];
          Response.threadUrlSlug := JStr [];
          Response.readWriteToken := JStr [];
          Response.fullResponse := 1 |})
  /\ processStreamingResponse JSON.parse never_gt true
       [accent_head ++ [xc3]; [xa9] ++ accent_tail] End
     = ([[0xFFFD%N; 0xFFFD%N]],
        Resolved
          {| Response.success := true;
             Response.answer := [0xFFFD%N; 0xFFFD%N];
             Response.threadUrlSlug := JStr [];
             Response.readWriteToken := JStr [];
             Response.fullResponse := 2 |}).
Proof. split; vm_compute; reflexivity. Qed.

(** C4 as stated fails: a document whose [thread_url_slug] is present
    and empty does not update [threadUrlSlug]. *)
Lemma empty_slug_is_not_assigned :
  get (JObj [(lit "thread_url_slug", JStr [])]) (lit "thread_url_slug")
  = Some (JStr [])
  /\ threadUrlSlug
       (state_of
          (processData never_gt true
             (set_threadUrlSlug (JStr (lit "abc")) initial)
             (JObj [(lit "thread_url_slug", JStr [])])))
     = JStr (lit "abc")
  /\ JStr (lit "abc") <> JStr [].
Proof. repeat split. discriminate. Qed.

(** C10 as stated fails: after the snapshot ["ab"], the snapshot ["xyz"]
    passes the token ["z"], and the answer ["xyz"] is not ["abz"]. *)
Lemma rewritten_answer_is_not_rebuilt :
  processStreamingResponse JSON.parse never_gt true [rewritten] End
  = ([lit "ab"; lit "z"],
     Resolved
       {| Response.success := true;
          Response.answer := lit "xyz";
          Response.threadUrlSlug := JStr [];
          Response.readWriteToken := JStr [];
          Response.fullResponse := 3 |})
  /\ lit "xyz" <> concat [lit "ab"; lit "z"].
Proof. split; [vm_compute; reflexivity | discriminate]. Qed.

(** [tokens_rebuild_answer] for the stream [greeting]. *)
Lemma tokens_rebuild_answer_witness :
  snapshots_extend JSON.parse never_gt true [greeting] = true
  /\ lit "Hello, world" = concat [lit "He"; lit "llo"; lit ", world"].
Proof.
  split; [vm_compute; reflexivity|].
  apply (@tokens_rebuild_answer JSON.parse never_gt [greeting]
           [lit "He"; lit "llo"; lit ", world"]
           {| Response.success := true;
              Response.answer := lit "Hello, world";
              Response.threadUrlSlug := JStr (lit "abc");
              Response.readWriteToken := JStr [];
              Response.fullResponse := 12 |});
    vm_compute; reflexivity.
Defined.

End DecoderExamples.

(* ===================================================================== *)
(** * Facts about maps and sorting *)
(* ===================================================================== *)

Module JsMapFacts.
Import JsStringFacts.

Section Map.
Variable V : Type.
Implicit Types (m : JsMap.t V) (key : jsstring) (v : V) (f g : V -> V).

Lemma get_set_same m key v : JsMap.get (JsMap.set m key v) key = Some v.
Proof.
  induction m as [|[k v'] m IH]; cbn [JsMap.set JsMap.get].
  - now rewrite eqb_refl.
  - destruct (JsString.eqb k key) eqn:E; cbn [JsMap.get]; now rewrite E.
Qed.

Lemma get_update_same m key f :
  JsMap.get (JsMap.update m key f) key = option_map f (JsMap.get m key).
Proof.
  induction m as [|[k v] m IH]; cbn [JsMap.update JsMap.get].
  - reflexivity.
  - destruct (JsString.eqb k key) eqn:E; cbn [JsMap.get]; now rewrite E.
Qed.

Lemma update_update m key f g :
  JsMap.update (JsMap.update m key f) key g
  = JsMap.update m key (fun v => g (f v)).
Proof.
  induction m as [|[k v] m IH]; cbn [JsMap.update].
  - reflexivity.
  - destruct (JsString.eqb k key) eqn:E; cbn [JsMap.update]; rewrite E.
    + reflexivity.
    + now rewrite IH.
Qed.

(** An update replaces one value and leaves the others in place. *)
Lemma values_update m key v :
  JsMap.get m key = Some v ->
  exists before after,
    JsMap.values m = before ++ v :: after
    /\ forall f, JsMap.values (JsMap.update m key f) = before ++ f v :: after.
Proof.
  induction m as [|[k v'] m IH]; cbn [JsMap.get]; [discriminate|].
  destruct (JsString.eqb k key) eqn:E.
  - intros [= ->]. exists [], (JsMap.values m). split; [reflexivity|].
    intros f. cbn [JsMap.update]. now rewrite E.
  - intros H. destruct (IH H) as (before & after & Hm & Hf).
    exists (v' :: before), after. unfold JsMap.values in *. split.
    + cbn [map snd app]. now rewrite Hm.
    + intros f. cbn [JsMap.update]. rewrite E.
      cbn [map snd app]. now rewrite Hf.
Qed.

Lemma get_delete_same m key : JsMap.get (JsMap.delete m key) key = None.
Proof.
  induction m as [|[k v] m IH]; cbn [JsMap.delete filter fst];
    [reflexivity|].
  destruct (JsString.eqb k key) eqn:E; cbn [negb JsMap.get].
  - exact IH.
  - rewrite E. exact IH.
Qed.

(** Deleting a key that is not there changes nothing. *)
Lemma delete_absent m key :
  JsMap.get m key = None -> JsMap.delete m key = m.
Proof.
  induction m as [|[k v] m IH]; cbn [JsMap.delete filter fst JsMap.get];
    [reflexivity|].
  destruct (JsString.eqb k key); [discriminate|].
  intros H. cbn [negb]. f_equal. now apply IH.
Qed.

End Map.
End JsMapFacts.

Module SortFacts.
Import PerplexityService.

Local Abbreviation insert := (JsArray.insert compareFn).
Local Abbreviation sort := (JsArray.sort compareFn).

Lemma insert_Permutation x l : Permutation (insert x l) (x :: l).
Proof.
  induction l as [|y l IH]; cbn [JsArray.insert]; [reflexivity|].
  destruct (compareFn x y <=? 0)%Z; [reflexivity|].
  rewrite IH. apply perm_swap.
Qed.

Lemma sort_Permutation l : Permutation (sort l) l.
Proof.
  induction l as [|x l IH]; cbn [JsArray.sort]; [reflexivity|].
  rewrite insert_Permutation. now apply perm_skip.
Qed.

Lemma insert_sorted x l :
  StronglySorted newer_first l -> StronglySorted newer_first (insert x l).
Proof.
  induction 1 as [|y l Hl IH Hy]; cbn [JsArray.insert].
  - repeat constructor.
  - unfold compareFn at 1.
    destruct (_ <=? 0)%Z eqn:E.
    + apply Z.leb_le in E. constructor; [now constructor|].
      constructor; [unfold newer_first; lia|].
      eapply Forall_impl; [|exact Hy].
      unfold newer_first. intros; lia.
    + apply Z.leb_gt in E. constructor; [exact IH|].
      apply (Permutation_Forall (Permutation_sym (insert_Permutation x l))).
      constructor; [unfold newer_first; lia | exact Hy].
Qed.

Lemma sort_sorted l : StronglySorted newer_first (sort l).
Proof.
  induction l as [|x l IH]; cbn [JsArray.sort]; [constructor|].
  now apply insert_sorted.
Qed.

(** An element updated later than every other one comes first. *)
Lemma sort_latest_first before x after :
  Forall (fun c => (Conversation.updatedAt c < Conversation.updatedAt x)%Z)
    (before ++ after) ->
  exists rest, sort (before ++ x :: after) = x :: rest.
Proof.
  intros Hothers.
  pose proof (sort_Permutation (before ++ x :: after)) as Hperm.
  pose proof (sort_sorted (before ++ x :: after)) as Hsorted.
  destruct (sort (before ++ x :: after)) as [|h rest] eqn:E.
  - apply Permutation_nil in Hperm. now destruct before.
  - exists rest. f_equal.
    assert (Hh : In h (before ++ x :: after))
      by (eapply Permutation_in; [exact Hperm | now left]).
    assert (Hx : In x (h :: rest))
      by (eapply Permutation_in;
          [exact (Permutation_sym Hperm) | apply in_elt]).
    apply StronglySorted_inv in Hsorted as [_ Hrest].
    assert (Hle : (Conversation.updatedAt x <= Conversation.updatedAt h)%Z).
    { destruct Hx as [->|Hx]; [lia|].
      rewrite Forall_forall in Hrest. now apply Hrest. }
    apply in_app_or in Hh as [Hh|[Hh|Hh]]; [|easy|].
    all: rewrite Forall_forall in Hothers.
    all: assert (Hlt : (Conversation.updatedAt h < Conversation.updatedAt x)%Z)
      by (apply Hothers, in_or_app; tauto).
    all: lia.
Qed.

End SortFacts.

(* ===================================================================== *)
(** * The conversation service: what a call does *)
(* ===================================================================== *)

Module ServiceFacts.
Import PerplexityService JsStringFacts JsMapFacts SortFacts.

(** Runs the calls of the service down to maps and notifications. *)
Ltac run :=
  cbv beta iota zeta delta
    [sendMessage sendMessage_begin sendMessage_exchange createConversation
     exchange_with_client append generateId new_Date consult notify
     saveConversations storageService_store deleteConversation
     clearConversations
     getConversations getConversation
     bind gets ret throw modify try_catch with_conversations
     _isAuthenticated _conversations stored notified consulted
     fst snd negb].

Section Service.
Variable env : environment.

Local Abbreviation user_message := (user_message env).
Local Abbreviation assistant_message := (assistant_message env).

Lemma createConversation_does title s :
  let n := consulted s in
  let conversation :=
    {| Conversation.id :=
         toString36 (Date_now env n) ++ Math_random env (1 + n);
       Conversation.title :=
         match title with Some ((_ :: _) as t) => t | _ => sentinel end;
       Conversation.messages := [];
       Conversation.createdAt := Date_now env (2 + n);
       Conversation.updatedAt := Date_now env (3 + n) |} in
  let m :=
    JsMap.set (_conversations s) (Conversation.id conversation) conversation in
  createConversation env title s
  = (Return conversation,
     {| _isAuthenticated := _isAuthenticated s;
        _conversations := m;
        stored := Some (JsMap.values m);
        notified := notified s;
        consulted := 4 + n |}).
Proof. reflexivity. Qed.

Lemma sendMessage_begin_does content key c s :
  _isAuthenticated s = true ->
  isWeb env = false ->
  key <> [] ->
  JsMap.get (_conversations s) key = Some c ->
  let n := consulted s in
  sendMessage_begin env content (Some key) s
  = (Return (Message.id (user_message content n), key),
     {| _isAuthenticated := true;
        _conversations :=
          JsMap.update (_conversations s) key
            (pushed (user_message content n) (Date_now env (3 + n)));
        stored := stored s;
        notified := notified s;
        consulted := 4 + n |}).
Proof.
  intros Hauth Hweb Hkey Hget. destruct key as [|k key]; [easy|].
  destruct s as [auth m st nt n]. cbn [_isAuthenticated _conversations
    consulted stored notified] in *. subst auth.
  run. rewrite Hweb. run. rewrite Hget. run.
  rewrite update_update. reflexivity.
Qed.

Lemma notify_tokens messageId tokens s :
  fold_right
    (fun token k => bind (notify (DidReceiveToken messageId token))
                      (fun _ => k))
    (ret tt) tokens s
  = (Return tt,
     {| _isAuthenticated := _isAuthenticated s;
        _conversations := _conversations s;
        stored := stored s;
        notified := notified s ++ map (DidReceiveToken messageId) tokens;
        consulted := consulted s |}).
Proof.
  revert s; induction tokens as [|token tokens IH]; intros s.
  - destruct s. cbn. now rewrite app_nil_r.
  - cbn [fold_right map]. unfold bind at 1, notify at 1, modify.
    rewrite IH. run. now rewrite <- app_assoc.
Qed.

Lemma sendMessage_exchange_does content messageId key s :
  let n := consulted s in
  let x := client_sendMessage env n content in
  sendMessage_exchange env content messageId key s
  = match outcome x with
    | inl response =>
        let m :=
          JsMap.update
            (JsMap.update (_conversations s) key
               (pushed (assistant_message response (1 + n))
                  (Date_now env (4 + n))))
            key (retitle content) in
        (Return messageId,
         {| _isAuthenticated := _isAuthenticated s;
            _conversations := m;
            stored := Some (JsMap.values m);
            notified :=
              (notified s ++ map (DidReceiveToken messageId) (tokens x))
              ++ [DidCompleteMessage messageId response];
            consulted := 5 + n |})
    | inr error =>
        (Raise error,
         {| _isAuthenticated := _isAuthenticated s;
            _conversations := _conversations s;
            stored := stored s;
            notified :=
              (notified s ++ map (DidReceiveToken messageId) (tokens x))
              ++ [LogError (lit "Failed to send message to Perplexity:")
                    error];
            consulted := 1 + n |})
    end.
Proof.
  destruct s as [auth m st nt n].
  unfold sendMessage_exchange, try_catch, exchange_with_client.
  unfold bind at 1 2 3. unfold consult at 1.
  cbn [consulted _isAuthenticated _conversations stored notified].
  rewrite notify_tokens.
  destruct (outcome (client_sendMessage env n content)) as [response|error].
  - run. rewrite !update_update. reflexivity.
  - run. reflexivity.
Qed.

(** What [sendMessage] does to a conversation of the store. *)
Lemma sendMessage_does content key c s :
  _isAuthenticated s = true ->
  isWeb env = false ->
  key <> [] ->
  JsMap.get (_conversations s) key = Some c ->
  let n := consulted s in
  let user := user_message content n in
  let x := client_sendMessage env (4 + n) content in
  let m1 :=
    JsMap.update (_conversations s) key (pushed user (Date_now env (3 + n))) in
  sendMessage env content (Some key) s
  = match outcome x with
    | inl response =>
        let m2 :=
          JsMap.update
            (JsMap.update m1 key
               (pushed (assistant_message response (5 + n))
                  (Date_now env (8 + n))))
            key (retitle content) in
        (Return (Message.id user),
         {| _isAuthenticated := true;
            _conversations := m2;
            stored := Some (JsMap.values m2);
            notified :=
              (notified s
               ++ map (DidReceiveToken (Message.id user)) (tokens x))
              ++ [DidCompleteMessage (Message.id user) response];
            consulted := 9 + n |})
    | inr error =>
        (Raise error,
         {| _isAuthenticated := true;
            _conversations := m1;
            stored := stored s;
            notified :=
              (notified s
               ++ map (DidReceiveToken (Message.id user)) (tokens x))
              ++ [LogError (lit "Failed to send message to Perplexity:")
                    error];
            consulted := 5 + n |})
    end.
Proof.
  intros Hauth Hweb Hkey Hget. unfold sendMessage, bind.
  rewrite (@sendMessage_begin_does content key c s Hauth Hweb Hkey Hget).
  cbn [fst snd]. rewrite sendMessage_exchange_does.
  cbn [consulted _isAuthenticated _conversations stored notified].
  destruct (outcome _); reflexivity.
Qed.

Lemma generated_id_nonempty (n : Z) (random : jsstring) :
  toString36 n ++ random <> [].
Proof.
  intros H. apply app_eq_nil in H as [H _].
  now apply toString36_nonempty in H.
Qed.

(** ** A failing exchange *)

(** C6.  After [createConversation], a [sendMessage] to the new
    conversation whose exchange with the client throws rethrows the
    error.  The user message is appended before the client is called,
    and it stays: the conversation then holds this message and no other,
    with [isUser] true and the given content. *)
Theorem failed_exchange_keeps_user_message title content error conversation
  s s1 :
  _isAuthenticated s = true ->
  isWeb env = false ->
  createConversation env title s = (Return conversation, s1) ->
  outcome (client_sendMessage env (4 + consulted s1) content) = inr error ->
  exists user s2 s3 c,
    sendMessage_begin env content (Some (Conversation.id conversation)) s1
    = (Return (Message.id user, Conversation.id conversation), s2)
    /\ JsMap.get (_conversations s2) (Conversation.id conversation) = Some c
    /\ sendMessage env content (Some (Conversation.id conversation)) s1
       = (Raise error, s3)
    /\ JsMap.get (_conversations s3) (Conversation.id conversation) = Some c
    /\ Conversation.messages c = [user]
    /\ Message.isUser user = true
    /\ Message.content user = content
    /\ Message.response user = None.
Proof.
  intros Hauth Hweb Hcreate Hfail.
  rewrite createConversation_does in Hcreate.
  injection Hcreate as <- <-.
  cbn [consulted Conversation.id] in *.
  set (key := toString36 _ ++ _) in *.
  set (conversation := Conversation.Build key _ _ _ _).
  set (s1 := Service _ _ _ _ _) in *.
  assert (Hkey : key <> []) by apply generated_id_nonempty.
  assert (Hget : JsMap.get (_conversations s1) key = Some conversation)
    by apply get_set_same.
  assert (Hauth1 : _isAuthenticated s1 = true) by exact Hauth.
  pose proof (@sendMessage_begin_does content key conversation s1
                Hauth1 Hweb Hkey Hget) as Hbegin.
  pose proof (@sendMessage_does content key conversation s1
                Hauth1 Hweb Hkey Hget) as Hsend.
  cbn zeta in Hbegin, Hsend. cbn [consulted s1] in Hsend.
  rewrite Hfail in Hsend.
  eexists _, _, _, _.
  split; [exact Hbegin|]. split.
  { cbn [_conversations]. rewrite get_update_same, Hget. reflexivity. }
  split; [exact Hsend|]. split.
  { cbn [_conversations]. rewrite get_update_same, Hget. reflexivity. }
  repeat split.
Qed.

(** ** The title *)

(** C7.  A successful [sendMessage] to a conversation that has the
    default title and no message leaves it with two messages, the user's
    and the assistant's.  Its title is then the content when this has at
    most 50 code units, and otherwise the first 50 code units of the
    content followed by ["..."].  From then on no [sendMessage] to the
    conversation, whatever its outcome, changes the title. *)
Theorem title_from_first_exchange content key c response s :
  _isAuthenticated s = true ->
  isWeb env = false ->
  key <> [] ->
  JsMap.get (_conversations s) key = Some c ->
  Conversation.title c = sentinel ->
  Conversation.messages c = [] ->
  outcome (client_sendMessage env (4 + consulted s) content) = inl response ->
  exists messageId s' c' user assistant,
    sendMessage env content (Some key) s = (Return messageId, s')
    /\ JsMap.get (_conversations s') key = Some c'
    /\ Conversation.messages c' = [user; assistant]
    /\ Message.isUser user = true
    /\ Message.content user = content
    /\ Message.isUser assistant = false
    /\ (length content <= 50 -> Conversation.title c' = content)
    /\ (50 < length content ->
        exists head rest,
          content = head ++ rest
          /\ length head = 50
          /\ Conversation.title c' = head ++ lit "...")
    /\ forall s1 c1 content1 r s2,
         JsMap.get (_conversations s1) key = Some c1 ->
         2 <= length (Conversation.messages c1) ->
         sendMessage env content1 (Some key) s1 = (r, s2) ->
         exists c2,
           JsMap.get (_conversations s2) key = Some c2
           /\ Conversation.title c2 = Conversation.title c1
           /\ 2 <= length (Conversation.messages c2).
Proof.
  intros Hauth Hweb Hkey Hget Htitle Hmessages Hok.
  pose proof (@sendMessage_does content key c s Hauth Hweb Hkey Hget)
    as Hsend.
  cbn zeta in Hsend. rewrite Hok in Hsend.
  eexists _, _, _, _, _. split; [exact Hsend|]. split.
  { cbn [_conversations]. rewrite !get_update_same, Hget. reflexivity. }
  unfold retitle, pushed.
  cbn [option_map Conversation.messages Conversation.with_messages
       Conversation.with_updatedAt Conversation.title].
  rewrite Hmessages, Htitle. cbn [app length Nat.eqb andb].
  unfold sentinel at 1. rewrite eqb_refl.
  cbn [Conversation.messages Conversation.title Conversation.with_title].
  do 4 (split; [reflexivity|]).
  split.
  { intros Hle. destruct (50 <? length content) eqn:E; [|reflexivity].
    apply Nat.ltb_lt in E. lia. }
  split.
  { intros Hlt. exists (firstn 50 content), (skipn 50 content).
    split; [symmetry; apply firstn_skipn|].
    split; [apply firstn_length_le; lia|].
    apply Nat.ltb_lt in Hlt. now rewrite Hlt. }
  clear - Hweb Hkey. intros s1 c1 content1 r s2 Hget Hlen Hsend.
  destruct (_isAuthenticated s1) eqn:Hauth.
  2: { destruct s1. cbn [_isAuthenticated] in Hauth. subst.
       revert Hsend. run. intros [= <- <-]. eauto. }
  rewrite (@sendMessage_does content1 key c1 s1 Hauth Hweb Hkey Hget)
    in Hsend.
  cbn zeta in Hsend.
  destruct (outcome _); injection Hsend as <- <-; cbn [_conversations];
    rewrite !get_update_same, Hget; cbn [option_map];
    eexists; (split; [reflexivity|]).
  - unfold retitle, pushed.
    cbn [Conversation.messages Conversation.with_messages
         Conversation.with_updatedAt].
    rewrite !length_app. cbn [length].
    destruct (Nat.eqb _ 2) eqn:E; [apply Nat.eqb_eq in E; lia|].
    cbn [andb Conversation.title Conversation.messages]. split.
    + reflexivity.
    + cbn [Conversation.messages Conversation.with_messages
           Conversation.with_updatedAt].
      rewrite !length_app. cbn [length]. lia.
  - unfold pushed.
    cbn [Conversation.messages Conversation.with_messages
         Conversation.with_updatedAt Conversation.title]. split.
    + reflexivity.
    + rewrite length_app. lia.
Qed.

(** ** The order of [getConversations] *)

Lemma getConversations_sorted s :
  exists l,
    getConversations s = (Return l, s)
    /\ Permutation l (JsMap.values (_conversations s))
    /\ StronglySorted newer_first l.
Proof.
  eexists. split; [reflexivity|]. split.
  - apply sort_Permutation.
  - apply sort_sorted.
Qed.

Lemma updatedAt_retitle content c :
  Conversation.updatedAt (retitle content c) = Conversation.updatedAt c.
Proof. unfold retitle. now destruct (_ && _). Qed.

Lemma messages_retitle content c :
  Conversation.messages (retitle content c) = Conversation.messages c.
Proof. unfold retitle. now destruct (_ && _). Qed.

(** A conversation that is updated to a reading of the clock later than
    every stored [updatedAt] is sorted to the front. *)
Lemma latest_after_update (m : JsMap.t Conversation.t) key c
  (f : Conversation.t -> Conversation.t) n idx :
  JsMap.get m key = Some c ->
  Conversation.updatedAt (f c) = Date_now env idx ->
  n <= idx ->
  (forall c' k,
     In c' (JsMap.values m) -> n <= k ->
     (Conversation.updatedAt c' < Date_now env k)%Z) ->
  exists rest,
    JsArray.sort compareFn (JsMap.values (JsMap.update m key f))
    = f c :: rest.
Proof.
  intros Hget Hf Hidx Hclock.
  destruct (values_update m key Hget) as (before & after & Hm & Hupd).
  rewrite Hupd. apply sort_latest_first.
  rewrite Forall_forall. intros c' Hin. rewrite Hf.
  apply Hclock; [|exact Hidx].
  rewrite Hm. apply in_app_or in Hin. apply in_or_app. cbn [In]. tauto.
Qed.

(** C8, as the code has it.  [getConversations] returns the stored
    conversations, most recently updated first.  A [sendMessage] that
    appends to a conversation while the clock reads later than every
    stored [updatedAt] makes that conversation the first one. *)
Theorem conversations_latest_first content key c r s s' :
  _isAuthenticated s = true ->
  isWeb env = false ->
  key <> [] ->
  JsMap.get (_conversations s) key = Some c ->
  (forall c' n,
     In c' (JsMap.values (_conversations s)) -> consulted s <= n ->
     (Conversation.updatedAt c' < Date_now env n)%Z) ->
  sendMessage env content (Some key) s = (r, s') ->
  (forall s0, exists l,
     getConversations s0 = (Return l, s0)
     /\ Permutation l (JsMap.values (_conversations s0))
     /\ StronglySorted newer_first l)
  /\ exists c' rest,
      JsMap.get (_conversations s') key = Some c'
      /\ length (Conversation.messages c) < length (Conversation.messages c')
      /\ getConversations s' = (Return (c' :: rest), s').
Proof.
  intros Hauth Hweb Hkey Hget Hclock Hsend.
  split; [exact getConversations_sorted|].
  rewrite (@sendMessage_does content key c s Hauth Hweb Hkey Hget) in Hsend.
  cbn zeta in Hsend.
  destruct (outcome _) as [response|error]; injection Hsend as <- <-;
    cbn [_conversations]; rewrite ?update_update.
  - destruct (@latest_after_update (_conversations s) key c
                (fun v => retitle content
                   (pushed (assistant_message response (5 + consulted s))
                      (Date_now env (8 + consulted s))
                      (pushed (user_message content (consulted s))
                         (Date_now env (3 + consulted s)) v)))
                (consulted s) (8 + consulted s) Hget)
      as [rest Hrest]; [apply updatedAt_retitle | lia | exact Hclock |].
    eexists _, rest. split; [rewrite get_update_same, Hget; reflexivity|].
    split.
    + rewrite messages_retitle. unfold pushed.
      cbn [Conversation.messages Conversation.with_messages
           Conversation.with_updatedAt].
      rewrite !length_app. cbn [length]. lia.
    + unfold getConversations, gets. cbn [_conversations].
      do 2 f_equal. exact Hrest.
  - destruct (@latest_after_update (_conversations s) key c
                (pushed (user_message content (consulted s))
                   (Date_now env (3 + consulted s)))
                (consulted s) (3 + consulted s) Hget)
      as [rest Hrest]; [reflexivity | lia | exact Hclock |].
    eexists _, rest. split; [rewrite get_update_same, Hget; reflexivity|].
    split.
    + unfold pushed.
      cbn [Conversation.messages Conversation.with_messages
           Conversation.with_updatedAt].
      rewrite !length_app. cbn [length]. lia.
    + unfold getConversations, gets. cbn [_conversations].
      do 2 f_equal. exact Hrest.
Qed.

(** ** Storage *)

Lemma createConversation_synchronized title s r s' :
  createConversation env title s = (r, s') -> synchronized s'.
Proof. rewrite createConversation_does. now intros [= <- <-]. Qed.

Lemma deleteConversation_synchronized id s r s' :
  deleteConversation id s = (r, s') -> synchronized s'.
Proof. destruct s. run. now intros [= <- <-]. Qed.

Lemma clearConversations_synchronized s r s' :
  clearConversations s = (r, s') -> synchronized s'.
Proof. destruct s. run. now intros [= <- <-]. Qed.

(** [deleteConversation] of an id that is not stored keeps the store. *)
Lemma deleteConversation_absent id s r s' :
  JsMap.get (_conversations s) id = None ->
  deleteConversation id s = (r, s') ->
  r = Return tt /\ _conversations s' = _conversations s.
Proof.
  intros Hget. destruct s. run. intros [= <- <-]. split; [reflexivity|].
  cbn [_conversations] in *. now apply delete_absent.
Qed.

Lemma sendMessage_synchronized content key c s messageId s' :
  _isAuthenticated s = true ->
  isWeb env = false ->
  key <> [] ->
  JsMap.get (_conversations s) key = Some c ->
  sendMessage env content (Some key) s = (Return messageId, s') ->
  synchronized s'.
Proof.
  intros Hauth Hweb Hkey Hget.
  rewrite (@sendMessage_does content key c s Hauth Hweb Hkey Hget).
  cbn zeta. destruct (outcome _); [|discriminate].
  now intros [= <- <-].
Qed.

(** After a failing exchange the storage entry is the one written
    before the call, without the user message. *)
Lemma failed_exchange_is_not_saved content key c s error s' :
  _isAuthenticated s = true ->
  isWeb env = false ->
  key <> [] ->
  JsMap.get (_conversations s) key = Some c ->
  synchronized s ->
  sendMessage env content (Some key) s = (Raise error, s') ->
  stored s' = stored s /\ ~ synchronized s'.
Proof.
  intros Hauth Hweb Hkey Hget Hsync.
  rewrite (@sendMessage_does content key c s Hauth Hweb Hkey Hget).
  cbn zeta. destruct (outcome _); [discriminate|].
  intros [= <- <-]. split; [reflexivity|].
  unfold synchronized in *. cbn [stored _conversations]. rewrite Hsync.
  destruct (values_update _ _ Hget) as (before & after & Hm & Hupd).
  rewrite Hupd, Hm. intros [= H]. apply app_inv_head in H.
  injection H as H. apply (f_equal Conversation.messages) in H.
  unfold pushed in H.
  cbn [Conversation.messages Conversation.with_messages
       Conversation.with_updatedAt] in H.
  apply (f_equal (@length _)) in H. rewrite length_app in H.
  cbn [length] in H. lia.
Qed.

End Service.
End ServiceFacts.

(* ===================================================================== *)
(** * The conversation service on sample runs *)
(* ===================================================================== *)

Module ServiceExamples.
Import PerplexityService ServiceSamples ServiceFacts.

(** [failed_exchange_keeps_user_message] on a desktop whose client
    refuses: one conversation is created, then ["hi"] is sent to it. *)
Lemma failed_exchange_keeps_user_message_witness :
  exists user c,
    sendMessage (desktop refused) (lit "hi")
      (Some (first_id (desktop refused))) (one_conversation (desktop refused))
    = (Raise (lit "Failed to send message: HTTP 403: Request failed"),
       sent (desktop refused) (lit "hi") [first_id (desktop refused)]
         (one_conversation (desktop refused)))
    /\ JsMap.get
         (_conversations
            (sent (desktop refused) (lit "hi") [first_id (desktop refused)]
               (one_conversation (desktop refused))))
         (first_id (desktop refused))
       = Some c
    /\ Conversation.messages c = [user]
    /\ Message.isUser user = true
    /\ Message.content user = lit "hi".
Proof.
  destruct (@failed_exchange_keeps_user_message (desktop refused) None
              (lit "hi")
              (lit "Failed to send message: HTTP 403: Request failed")
              (first_conversation (desktop refused))
              signed_in (one_conversation (desktop refused))
              eq_refl eq_refl eq_refl eq_refl)
    as (user & s2 & s3 & c & _ & _ & Hsend & Hget & Hmessages & Huser
        & Hcontent & _).
  assert (E : sent (desktop refused) (lit "hi")
                [first_id (desktop refused)]
                (one_conversation (desktop refused)) = s3)
    by exact (f_equal snd Hsend).
  exists user, c. rewrite E. repeat split; assumption.
Defined.

Lemma sent_one env content id s :
  sent env content [id] s = snd (sendMessage env content (Some id) s).
Proof. reflexivity. Qed.

(** [title_from_first_exchange] on a desktop whose client answers
    ["Hello"], for a question of 57 code units: the conversation gets
    the first 50 of them and ["..."] as its title, and keeps this title
    when the question is sent to it once more. *)
Lemma title_from_first_exchange_witness :
  exists c' c'',
    JsMap.get
      (_conversations
         (sent (desktop answered) question [first_id (desktop answered)]
            (one_conversation (desktop answered))))
      (first_id (desktop answered))
    = Some c'
    /\ length (Conversation.messages c') = 2
    /\ Conversation.title c'
       = lit "Which conversation was updated last, and what did ..."
    /\ JsMap.get
         (_conversations
            (sent (desktop answered) question [first_id (desktop answered)]
               (sent (desktop answered) question [first_id (desktop answered)]
                  (one_conversation (desktop answered)))))
         (first_id (desktop answered))
       = Some c''
    /\ Conversation.title c'' = Conversation.title c'.
Proof.
  destruct (@title_from_first_exchange (desktop answered) question
              (first_id (desktop answered))
              (first_conversation (desktop answered)) hello
              (one_conversation (desktop answered))
              eq_refl eq_refl
              (@generated_id_nonempty _ _)
              eq_refl eq_refl eq_refl eq_refl)
    as (messageId & s' & c' & user & assistant & Hsend & Hget & Hmessages
        & _ & _ & _ & _ & Hlong & Hlater).
  destruct Hlong as (head & rest & Hcontent & Hlength & Htitle);
    [vm_compute; lia|].
  assert (Hhead : head = firstn 50 question).
  { rewrite Hcontent, firstn_app, Hlength, Nat.sub_diag, firstn_O, app_nil_r.
    rewrite <- Hlength. symmetry. apply firstn_all. }
  assert (Htwo : 2 <= length (Conversation.messages c'))
    by (rewrite Hmessages; cbn [length]; lia).
  destruct (Hlater s' c' question
              (fst (sendMessage (desktop answered) question
                      (Some (first_id (desktop answered))) s'))
              (snd (sendMessage (desktop answered) question
                      (Some (first_id (desktop answered))) s'))
              Hget Htwo (surjective_pairing _))
    as (c'' & Hget' & Htitle' & _).
  assert (E : snd (sendMessage (desktop answered) question
                     (Some (first_id (desktop answered)))
                     (one_conversation (desktop answered))) = s')
    by exact (f_equal snd Hsend).
  exists c', c''.
  rewrite !sent_one, E, Hmessages.
  split; [exact Hget|]. split; [reflexivity|].
  split; [rewrite Htitle, Hhead; reflexivity|].
  split; [exact Hget' | exact Htitle'].
Defined.

(** C8 as stated fails.  Of two conversations the second is the one
    updated longest ago; a message is appended to it within the
    millisecond of the last update of the first, and the first stays in
    front. *)
Lemma tie_keeps_insertion_order :
  listing (sent stalled (lit "hi") [lit "11"] (two_conversations stalled))
  = [(lit "11", 3%Z, 1); (lit "25", 2%Z, 0)]
  /\ listing
       (sent stalled (lit "hi") [lit "11"; lit "25"]
          (two_conversations stalled))
     = [(lit "11", 3%Z, 1); (lit "25", 3%Z, 1)].
Proof. split; vm_compute; reflexivity. Qed.

(** [conversations_latest_first] on a desktop whose clock advances: of
    two conversations the older one receives a message and comes first. *)
Lemma conversations_latest_first_witness :
  exists c' rest,
    JsMap.get
      (_conversations
         (sent (desktop refused) (lit "hi") [first_id (desktop refused)]
            (two_conversations (desktop refused))))
      (first_id (desktop refused))
    = Some c'
    /\ fst (getConversations
              (sent (desktop refused) (lit "hi") [first_id (desktop refused)]
                 (two_conversations (desktop refused))))
       = Return (c' :: rest).
Proof.
  assert (Hclock : forall c' n,
    In c' (JsMap.values (_conversations (two_conversations (desktop refused))))
    -> consulted (two_conversations (desktop refused)) <= n ->
    (Conversation.updatedAt c' < Date_now (desktop refused) n)%Z).
  { intros c' n Hin Hn. vm_compute in Hin.
    change (8 <= n) in Hn.
    destruct Hin as [<-|[<-|[]]];
      cbn [Conversation.updatedAt Date_now desktop]; lia. }
  destruct (@conversations_latest_first (desktop refused) (lit "hi")
              (first_id (desktop refused))
              (first_conversation (desktop refused))
              (fst (sendMessage (desktop refused) (lit "hi")
                      (Some (first_id (desktop refused)))
                      (two_conversations (desktop refused))))
              (two_conversations (desktop refused))
              (sent (desktop refused) (lit "hi") [first_id (desktop refused)]
                 (two_conversations (desktop refused)))
              eq_refl eq_refl
              (@generated_id_nonempty _ _)
              eq_refl Hclock (surjective_pairing _))
    as (_ & c' & rest & Hget & _ & Hlist).
  exists c', rest.
  split; [exact Hget | now rewrite Hlist].
Defined.

(** C9 at a failing exchange.  [createConversation] writes the new,
    empty conversation to storage; [sendMessage] appends the user
    message, the exchange throws, and the error is rethrown without a
    write: the stored conversation has no message, the one in memory has
    one. *)
Theorem failed_exchange_leaves_storage_behind :
  fst (sendMessage (desktop refused) (lit "hi")
         (Some (first_id (desktop refused)))
         (one_conversation (desktop refused)))
  = Raise (lit "Failed to send message: HTTP 403: Request failed")
  /\ map (fun c => length (Conversation.messages c))
       (JsMap.values
          (_conversations
             (sent (desktop refused) (lit "hi") [first_id (desktop refused)]
                (one_conversation (desktop refused)))))
     = [1]
  /\ option_map (map (fun c => length (Conversation.messages c)))
       (stored
          (sent (desktop refused) (lit "hi") [first_id (desktop refused)]
             (one_conversation (desktop refused))))
     = Some [0].
Proof. repeat split; vm_compute; reflexivity. Qed.

End ServiceExamples.

(* ===================================================================== *)
(** * The stream decoder: lines, white space and the callback *)
(* ===================================================================== *)

Module TrimFacts.

Lemma trimStart_app (s t : jsstring) :
  trimStart (s ++ t)
  = if forallb isWhiteSpace s then trimStart t else trimStart s ++ t.
Proof.
  induction s as [|c s IH]; cbn [app trimStart forallb].
  - reflexivity.
  - destruct (isWhiteSpace c); [exact IH|reflexivity].
Qed.

Lemma trimStart_blank (s : jsstring) :
  forallb isWhiteSpace s = true -> trimStart s = [].
Proof.
  intros H. rewrite <- (app_nil_r s), trimStart_app, H. reflexivity.
Qed.

Lemma trimEnd_snoc (s : jsstring) (c : code_unit) :
  isWhiteSpace c = true -> trimEnd (s ++ [c]) = trimEnd s.
Proof.
  intros H. unfold trimEnd. rewrite rev_app_distr. cbn [rev app trimStart].
  now rewrite H.
Qed.

(** White space at the end of a string does not survive [trim]. *)
Lemma trim_snoc (s : jsstring) (c : code_unit) :
  isWhiteSpace c = true -> trim (s ++ [c]) = trim s.
Proof.
  intros H. unfold trim. rewrite trimStart_app.
  destruct (forallb isWhiteSpace s) eqn:E.
  - rewrite (trimStart_blank _ E). cbn [trimStart]. now rewrite H.
  - now apply trimEnd_snoc.
Qed.

(** Removing a final carriage return before [trim] changes nothing. *)
Lemma trim_replace_final_CR (s : jsstring) :
  trim (replace_final_CR s) = trim s.
Proof.
  unfold replace_final_CR.
  destruct (rev s) as [|c r] eqn:E; [reflexivity|].
  destruct (N.eqb c CR) eqn:Hc; [|reflexivity].
  apply N.eqb_eq in Hc. subst c.
  assert (s = rev r ++ [CR]) as ->.
  { rewrite <- (rev_involutive s), E. reflexivity. }
  symmetry. now apply trim_snoc.
Qed.

End TrimFacts.

Module StreamFacts.
Import Streams JsStringFacts.

Lemma is_line_no_LF (s : jsstring) : is_line s = true -> ~ In LF s.
Proof.
  unfold is_line. rewrite forallb_forall. intros H Hin.
  specialize (H _ Hin). now rewrite N.eqb_refl in H.
Qed.

Lemma split_LF_line (l rest : jsstring) :
  is_line l = true -> split_LF (l ++ LF :: rest) = l :: split_LF rest.
Proof.
  intros H. rewrite split_LF_at_LF.
  now rewrite (split_LF_no_LF _ (is_line_no_LF _ H)).
Qed.

(** The pieces of a text of terminated lines: the lines, then the empty
    rest. *)
Lemma split_LF_terminated (lines : list jsstring) (tail : jsstring) :
  forallb is_line lines = true ->
  split_LF (terminated lines ++ tail) = lines ++ split_LF tail.
Proof.
  unfold terminated.
  induction lines as [|l lines IH]; cbn [forallb map concat app].
  - reflexivity.
  - intros H. apply andb_prop in H as [Hl Hls].
    rewrite <- !app_assoc. cbn [app].
    rewrite (split_LF_line _ _ Hl). now rewrite (IH Hls).
Qed.

End StreamFacts.

Module DecoderLaws.
Import PerplexityClient Streams JsStringFacts TrimFacts StreamFacts DecoderFacts.

Section Decoder.

Variable JSON_parse : jsstring -> option value.
Variable relational_gt : value -> nat -> option bool.
Variable onToken : bool.

Local Abbreviation processLine := (processLine JSON_parse relational_gt onToken).
Local Abbreviation feed := (feed JSON_parse relational_gt onToken).
Local Abbreviation receive := (receive JSON_parse relational_gt onToken).
Local Abbreviation processStreamingResponse :=
  (processStreamingResponse JSON_parse relational_gt onToken).

(** ** The last line *)

Lemma feed_terminated lines tail :
  forallb is_line lines = true -> is_line tail = true ->
  feed initial (terminated lines ++ tail)
  = set_buffer tail (fold_left processLine lines initial).
Proof.
  intros Hlines Htail.
  rewrite feed_complete_lines. cbn [buffer initial app].
  rewrite (split_LF_terminated lines tail Hlines),
    (split_LF_no_LF _ (is_line_no_LF _ Htail)).
  rewrite removelast_app_nonempty, last_app_nonempty by discriminate.
  cbn [removelast last]. rewrite app_nil_r.
  apply processLines_set_buffer.
Qed.

Lemma feed_terminated_all lines :
  forallb is_line lines = true ->
  feed initial (terminated lines)
  = set_buffer [] (fold_left processLine lines initial).
Proof.
  intros Hlines. rewrite <- (app_nil_r (terminated lines)).
  now apply feed_terminated.
Qed.

(** X3.  Text after the last line feed of the stream is never handled as
    a line: the tokens and the settlement are those of the stream that
    stops at its last line feed. *)
Theorem unterminated_line_is_dropped lines tail chunks1 chunks2 e :
  forallb is_line lines = true ->
  is_line tail = true ->
  concat (map Buffer.toString chunks1) = terminated lines ++ tail ->
  concat (map Buffer.toString chunks2) = terminated lines ->
  processStreamingResponse chunks1 e = processStreamingResponse chunks2 e.
Proof.
  intros Hlines Htail H1 H2.
  unfold PerplexityClient.processStreamingResponse.
  rewrite !receive_text, H1, H2.
  rewrite (feed_terminated lines tail Hlines Htail), (feed_terminated_all lines Hlines).
  destruct e; reflexivity.
Qed.

(** ** White space around a line *)

Lemma processLine_trim st raw1 raw2 :
  trim raw1 = trim raw2 -> processLine st raw1 = processLine st raw2.
Proof.
  intros H. unfold PerplexityClient.processLine.
  now rewrite !trim_replace_final_CR, H.
Qed.

Lemma processLines_trim lines1 lines2 :
  Forall2 (fun a b => trim a = trim b) lines1 lines2 ->
  forall st, fold_left processLine lines1 st = fold_left processLine lines2 st.
Proof.
  induction 1 as [|a b lines1 lines2 Hab _ IH]; intros st; cbn [fold_left].
  - reflexivity.
  - now rewrite (processLine_trim st _ _ Hab), IH.
Qed.

(** X4.  Two streams of terminated lines that differ only in the white
    space (carriage returns included) at the two ends of their lines give
    the same tokens and the same settlement. *)
Theorem surrounding_white_space_is_ignored lines1 lines2 chunks1 chunks2 e :
  Forall2 (fun a b => trim a = trim b) lines1 lines2 ->
  forallb is_line lines1 = true ->
  forallb is_line lines2 = true ->
  concat (map Buffer.toString chunks1) = terminated lines1 ->
  concat (map Buffer.toString chunks2) = terminated lines2 ->
  processStreamingResponse chunks1 e = processStreamingResponse chunks2 e.
Proof.
  intros Htrim Hl1 Hl2 H1 H2.
  unfold PerplexityClient.processStreamingResponse.
  rewrite !receive_text, H1, H2.
  rewrite (feed_terminated_all lines1 Hl1), (feed_terminated_all lines2 Hl2).
  now rewrite (processLines_trim Htrim).
Qed.

(** ** The payload of a data line *)

(** X5.  The payload of a [data:] line starts after the sixth character
    of the trimmed line: the character [c] that follows the colon is
    dropped, whatever it is. *)
Theorem character_after_colon_is_dropped raw c rest :
  trim raw = lit "data:" ++ c :: rest ->
  payload raw
  = if JsString.eqb (trim rest) (lit "{}") then None else Some (trim rest).
Proof.
  intros H. unfold payload. rewrite trim_replace_final_CR, H. reflexivity.
Qed.

(** ** The answer only grows *)

Lemma grown_refl st : grown st st.
Proof. split; [exists []; now rewrite app_nil_r|lia]. Qed.

Lemma grown_trans st1 st2 st3 : grown st1 st2 -> grown st2 st3 -> grown st1 st3.
Proof.
  intros [[l1 H1] L1] [[l2 H2] L2]. split; [|lia].
  exists (l1 ++ l2). now rewrite H2, H1, app_assoc.
Qed.

Lemma processChunk_grown st ch : grown st (processChunk onToken st ch).
Proof.
  destruct ch; try apply grown_refl.
  unfold PerplexityClient.processChunk, call_onToken, grown.
  destruct onToken; cbn [emitted currentAnswer set_currentAnswer];
    rewrite length_app; (split; [|lia]).
  - eexists; reflexivity.
  - exists []; now rewrite app_nil_r.
Qed.

Lemma processChunks_grown chunks st :
  grown st (fold_left (processChunk onToken) chunks st).
Proof.
  revert st; induction chunks as [|ch chunks IH]; intros st; cbn [fold_left].
  - apply grown_refl.
  - eapply grown_trans; [apply processChunk_grown|apply IH].
Qed.

Lemma processBlock_grown st block :
  grown st (state_of (processBlock relational_gt onToken st block)).
Proof.
  unfold PerplexityClient.processBlock.
  destruct (truthy block && _ && _); [|apply grown_refl].
  destruct (member _ (lit "chunks")) as [[| | | |[|ch chunks]|]|];
    try (cbn [state_of]; apply processChunks_grown).
  all: destruct (ToBoolean _); [|apply grown_refl].
  all: destruct (member _ (lit "answer")) as [ans|]; [|apply grown_refl].
  all: destruct (length_gt relational_gt ans _) as [[|]|] eqn:Hgt;
    try apply grown_refl.
  all: destruct ans; try apply grown_refl.
  all: cbn [length_gt] in Hgt; injection Hgt as Hgt; apply Nat.ltb_lt in Hgt.
  all: unfold call_onToken, grown;
    destruct onToken; cbn [state_of emitted currentAnswer set_currentAnswer];
    (split; [|lia]).
  all: try (eexists; reflexivity).
  all: exists []; now rewrite app_nil_r.
Qed.

Lemma processBlocks_grown blocks st :
  grown st (state_of (processBlocks relational_gt onToken st blocks)).
Proof.
  revert st; induction blocks as [|block blocks IH]; intros st.
  - apply grown_refl.
  - cbn [PerplexityClient.processBlocks].
    pose proof (processBlock_grown st block) as H.
    destruct (processBlock relational_gt onToken st block) as [st'|st'];
      cbn [state_of] in *.
    + eapply grown_trans; [exact H|apply IH].
    + exact H.
Qed.

Lemma readMetadata_grown st data : grown st (readMetadata st data).
Proof.
  destruct (readMetadata_tokens st data) as [He Hc].
  unfold grown. rewrite He, Hc. apply grown_refl.
Qed.

Lemma processData_grown st data :
  grown st (state_of (processData relational_gt onToken st data)).
Proof.
  unfold PerplexityClient.processData.
  destruct data; try apply grown_refl;
    match goal with
    | |- context [readMetadata st ?d] =>
        pose proof (readMetadata_grown st d) as H;
        generalize dependent (readMetadata st d); intros st1 H
    end;
    (destruct (otherEvent st1); [exact H|]);
    repeat match goal with
           | |- context [match ?x with _ => _ end] =>
               destruct x eqn:?; try exact H
           end;
    (eapply grown_trans; [exact H|apply processBlocks_grown]).
Qed.

Lemma set_lastEvent_grown e st : grown st (set_lastEvent e st).
Proof. exact (grown_refl st). Qed.

Lemma processLine_grown st raw : grown st (processLine st raw).
Proof.
  destruct (document JSON_parse raw) as [data|] eqn:E.
  - rewrite (@processLine_document JSON_parse relational_gt onToken st _ _ E).
    apply processData_grown.
  - destruct (@processLine_no_document JSON_parse relational_gt onToken st _ E)
      as [e ->].
    apply set_lastEvent_grown.
Qed.

Lemma processLines_grown lines st :
  grown st (fold_left processLine lines st).
Proof.
  revert st; induction lines as [|raw lines IH]; intros st; cbn [fold_left].
  - apply grown_refl.
  - eapply grown_trans; [apply processLine_grown|apply IH].
Qed.

Lemma onData_grown st chunk :
  grown st (onData JSON_parse relational_gt onToken st chunk).
Proof.
  unfold PerplexityClient.onData, PerplexityClient.feed.
  eapply grown_trans; [|apply processLines_grown].
  exact (grown_refl st).
Qed.

Lemma chunks_grown chunks st :
  grown st (fold_left (onData JSON_parse relational_gt onToken) chunks st).
Proof.
  revert st; induction chunks as [|chunk chunks IH]; intros st;
    cbn [fold_left].
  - apply grown_refl.
  - eapply grown_trans; [apply onData_grown|apply IH].
Qed.

(** X6.  What the stream delivers later adds tokens after those already
    passed and never shortens the answer: the response after [more]
    chunks reports a length that is no smaller. *)
Theorem answer_only_grows chunks more e e' :
  (exists later,
     fst (processStreamingResponse (chunks ++ more) e')
     = fst (processStreamingResponse chunks e) ++ later)
  /\ Response.fullResponse (onEnd (receive chunks))
     <= Response.fullResponse (onEnd (receive (chunks ++ more))).
Proof.
  unfold PerplexityClient.processStreamingResponse, PerplexityClient.receive.
  rewrite fold_left_app. cbn [fst onEnd Response.fullResponse].
  apply chunks_grown.
Qed.

End Decoder.

(** ** The callback only observes *)

Section Observation.

Variable JSON_parse : jsstring -> option value.
Variable relational_gt : value -> nat -> option bool.

Lemma processChunk_unobserved st ch :
  unobserved (processChunk true st ch) = processChunk false (unobserved st) ch.
Proof. now destruct ch. Qed.

Lemma processChunks_unobserved chunks st :
  unobserved (fold_left (processChunk true) chunks st)
  = fold_left (processChunk false) chunks (unobserved st).
Proof.
  revert st; induction chunks as [|ch chunks IH]; intros st; cbn [fold_left].
  - reflexivity.
  - now rewrite IH, processChunk_unobserved.
Qed.

Lemma processBlock_unobserved st block :
  completion_map unobserved (processBlock relational_gt true st block)
  = processBlock relational_gt false (unobserved st) block.
Proof.
  unfold PerplexityClient.processBlock.
  cbn [currentAnswer unobserved].
  repeat match goal with
         | |- context [match ?x with _ => _ end] => destruct x eqn:?
         | |- context [if ?x then _ else _] => destruct x eqn:?
         end; cbn [completion_map]; try reflexivity.
  f_equal. apply processChunks_unobserved.
Qed.

Lemma processBlocks_unobserved blocks st :
  completion_map unobserved (processBlocks relational_gt true st blocks)
  = processBlocks relational_gt false (unobserved st) blocks.
Proof.
  revert st; induction blocks as [|block blocks IH]; intros st.
  - reflexivity.
  - cbn [PerplexityClient.processBlocks].
    rewrite <- processBlock_unobserved.
    destruct (processBlock relational_gt true st block); cbn [completion_map];
      [apply IH | reflexivity].
Qed.

Lemma readMetadata_unobserved st data :
  unobserved (readMetadata st data) = readMetadata (unobserved st) data.
Proof.
  unfold readMetadata.
  repeat match goal with
         | |- context [match ?x with _ => _ end] => destruct x eqn:?
         end; reflexivity.
Qed.

Lemma processData_unobserved st data :
  completion_map unobserved (processData relational_gt true st data)
  = processData relational_gt false (unobserved st) data.
Proof.
  unfold PerplexityClient.processData.
  destruct data; try reflexivity;
    rewrite <- readMetadata_unobserved;
    (destruct (otherEvent (readMetadata st _)) eqn:E;
     unfold otherEvent in *; cbn [lastEvent unobserved] in *; rewrite E;
     [reflexivity|]);
    repeat match goal with
           | |- context [match ?x with _ => _ end] => destruct x eqn:?
           end; try reflexivity; apply processBlocks_unobserved.
Qed.

Lemma processLine_unobserved st raw :
  unobserved (processLine JSON_parse relational_gt true st raw)
  = processLine JSON_parse relational_gt false (unobserved st) raw.
Proof.
  unfold PerplexityClient.processLine.
  repeat match goal with
         | |- context [if ?x then _ else _] => destruct x eqn:?
         | |- context [match ?x with _ => _ end] => destruct x eqn:?
         end; try reflexivity.
  now rewrite <- processData_unobserved, state_of_completion_map.
Qed.

Lemma processLines_unobserved lines st :
  unobserved (fold_left (processLine JSON_parse relational_gt true) lines st)
  = fold_left (processLine JSON_parse relational_gt false) lines
      (unobserved st).
Proof.
  revert st; induction lines as [|raw lines IH]; intros st; cbn [fold_left].
  - reflexivity.
  - now rewrite IH, processLine_unobserved.
Qed.

Lemma onData_unobserved st chunk :
  unobserved (onData JSON_parse relational_gt true st chunk)
  = onData JSON_parse relational_gt false (unobserved st) chunk.
Proof.
  unfold PerplexityClient.onData, PerplexityClient.feed.
  rewrite processLines_unobserved. reflexivity.
Qed.

Lemma receive_unobserved chunks st :
  unobserved (fold_left (onData JSON_parse relational_gt true) chunks st)
  = fold_left (onData JSON_parse relational_gt false) chunks (unobserved st).
Proof.
  revert st; induction chunks as [|chunk chunks IH]; intros st;
    cbn [fold_left].
  - reflexivity.
  - now rewrite IH, onData_unobserved.
Qed.

(** X7.  The callback only observes: a call without [onToken] settles as
    the call with it does, and passes no token. *)
Theorem callback_only_observes chunks e :
  processStreamingResponse JSON_parse relational_gt false chunks e
  = ([], snd (processStreamingResponse JSON_parse relational_gt true chunks e)).
Proof.
  unfold PerplexityClient.processStreamingResponse, PerplexityClient.receive.
  cbn [snd].
  pose proof (receive_unobserved chunks initial) as H.
  change (unobserved initial) with initial in H. rewrite <- H.
  destruct e; reflexivity.
Qed.

(** X8.  With a callback, a stream that ends resolves with a response
    whose [fullResponse] is the length of its [answer] and the total
    length of the tokens passed. *)
Theorem fullResponse_counts_tokens chunks :
  exists r,
    snd (processStreamingResponse JSON_parse relational_gt true chunks End)
    = Resolved r
    /\ Response.success r = true
    /\ Response.fullResponse r = length (Response.answer r)
    /\ Response.fullResponse r
       = length (concat (fst (processStreamingResponse JSON_parse
                                relational_gt true chunks End))).
Proof.
  eexists. split; [reflexivity|].
  cbn [PerplexityClient.processStreamingResponse fst onEnd Response.success
       Response.fullResponse Response.answer].
  repeat split.
  symmetry. now apply (@receive_tokens JSON_parse relational_gt chunks initial).
Qed.

End Observation.
End DecoderLaws.

(* ===================================================================== *)
(** * The stream decoder on more sample streams *)
(* ===================================================================== *)

Module DecoderLawsExamples.
Import PerplexityClient Streams DecoderSamples DecoderFacts DecoderLaws.

(** [same_text_same_result] for a stream that is cut before the two
    bytes of the letter U+00E9, with an empty chunk in between. *)
Lemma same_text_same_result_witness :
  processStreamingResponse JSON.parse never_gt true
    [accent_head; []; [xc3; xa9] ++ accent_tail] End
  = processStreamingResponse JSON.parse never_gt true
      [accent_head ++ [xc3; xa9] ++ accent_tail] End
  /\ fst (processStreamingResponse JSON.parse never_gt true
            [accent_head; []; [xc3; xa9] ++ accent_tail] End)
     = [[0xE9%N]].
Proof.
  split; [|vm_compute; reflexivity].
  apply (@same_text_same_result JSON.parse never_gt true
           [accent_head; []; [xc3; xa9] ++ accent_tail]
           [accent_head ++ [xc3; xa9] ++ accent_tail] End).
  vm_compute. reflexivity.
Defined.

(** [ascii_chunking_irrelevant] for the stream [greeting], delivered one
    byte at a time. *)
Lemma ascii_chunking_irrelevant_witness :
  processStreamingResponse JSON.parse never_gt true
    (map (fun b => [b]) greeting) End
  = processStreamingResponse JSON.parse never_gt true [greeting] End.
Proof.
  apply (@ascii_chunking_irrelevant JSON.parse never_gt true
           (map (fun b => [b]) greeting) [greeting] End);
    vm_compute; reflexivity.
Defined.

(** [unterminated_line_is_dropped] for a stream whose second line, with a
    [read_write_token], is not followed by a line feed. *)
Lemma unterminated_line_is_dropped_witness :
  processStreamingResponse JSON.parse never_gt true
    [line "data: {'thread_url_slug':'abc'}"
     ++ Buffer.ascii_bytes "data: {'read_write_token':'tok'}"] End
  = processStreamingResponse JSON.parse never_gt true
      [line "data: {'thread_url_slug':'abc'}"] End
  /\ snd (processStreamingResponse JSON.parse never_gt true
            [line "data: {'thread_url_slug':'abc'}"
             ++ Buffer.ascii_bytes "data: {'read_write_token':'tok'}"] End)
     = Resolved
         {| Response.success := true;
            Response.answer := [];
            Response.threadUrlSlug := JStr (lit "abc");
            Response.readWriteToken := JStr [];
            Response.fullResponse := 0 |}.
Proof.
  split; [|vm_compute; reflexivity].
  apply (@unterminated_line_is_dropped JSON.parse never_gt true
           [quoted "data: {'thread_url_slug':'abc'}"]
           (quoted "data: {'read_write_token':'tok'}"));
    vm_compute; reflexivity.
Defined.

(** [surrounding_white_space_is_ignored] for a stream with indented
    lines that end in carriage return and line feed. *)
Lemma surrounding_white_space_is_ignored_witness :
  processStreamingResponse JSON.parse never_gt true
    [Buffer.ascii_bytes "  event: message" ++ [x0d; x0a]
     ++ Buffer.ascii_bytes "data: {'thread_url_slug':'abc'}  "
     ++ [x0d; x0a]] End
  = processStreamingResponse JSON.parse never_gt true
      [line "event: message"; line "data: {'thread_url_slug':'abc'}"] End.
Proof.
  apply (@surrounding_white_space_is_ignored JSON.parse never_gt true
           [lit "  event: message" ++ [CR];
            quoted "data: {'thread_url_slug':'abc'}  " ++ [CR]]
           [lit "event: message"; quoted "data: {'thread_url_slug':'abc'}"]).
  - repeat constructor; vm_compute; reflexivity.
  - vm_compute. reflexivity.
  - vm_compute. reflexivity.
  - vm_compute. reflexivity.
  - vm_compute. reflexivity.
Defined.

(** [character_after_colon_is_dropped] for a line without a space after
    the colon: the payload has lost its opening brace, and [JSON.parse]
    rejects it. *)
Lemma character_after_colon_is_dropped_witness :
  payload (quoted "data:{'thread_url_slug':'abc'}")
  = Some (quoted "'thread_url_slug':'abc'}")
  /\ document JSON.parse (quoted "data:{'thread_url_slug':'abc'}") = None.
Proof.
  split; [|vm_compute; reflexivity].
  exact (@character_after_colon_is_dropped
           (quoted "data:{'thread_url_slug':'abc'}") 123%N
           (quoted "'thread_url_slug':'abc'}") eq_refl).
Defined.

End DecoderLawsExamples.

(* ===================================================================== *)
(** * The stream decoder and the documents of the stream *)
(* ===================================================================== *)

Module DocumentFacts.
Import PerplexityClient Streams EventStream.
Import JsStringFacts TrimFacts StreamFacts DecoderFacts DecoderLaws.

Lemma last_cons {A} (x : A) (l : list A) (d : A) :
  last (x :: l) d = last l x.
Proof.
  revert x d; induction l as [|y l IH]; intros x d; [reflexivity|].
  change (last (x :: y :: l) d) with (last (y :: l) d).
  now rewrite !IH.
Qed.

(** A line that starts with [event:] does not start with [data:]. *)
Lemma event_is_no_data (line : jsstring) :
  startsWith line (lit "event:") = true ->
  startsWith line (lit "data:") = false.
Proof.
  destruct line as [|c line]; [discriminate|].
  cbn. destruct (N.eqb_spec c 101) as [->|]; [reflexivity|discriminate].
Qed.

(** Behind white space, the text after the sixth character of a
    [data:] line is its payload. *)
Lemma payload_spaced (raw text : jsstring) :
  spaced raw = true ->
  data_payload raw = Some text ->
  trim (substring_from 6 (trim raw)) = text.
Proof.
  unfold spaced, data_payload.
  destruct (startsWith (trim raw) (lit "data:")); [|discriminate].
  cbn [negb orb]. unfold substring_from.
  assert (E : skipn 6 (trim raw) = skipn 1 (skipn 5 (trim raw)))
    by (change 6 with (1 + 5); now rewrite skipn_skipn).
  rewrite E. generalize (skipn 5 (trim raw)). intros tail Hspace [= <-].
  destruct tail as [|c rest]; [reflexivity|].
  cbn [skipn]. unfold trim. cbn [trimStart]. now rewrite Hspace.
Qed.

Section Documents.

Variable JSON_parse : jsstring -> option value.
Variable relational_gt : value -> nat -> option bool.
Variable onToken : bool.

Local Abbreviation processLine := (processLine JSON_parse relational_gt onToken).
Local Abbreviation receive := (receive JSON_parse relational_gt onToken).
Local Abbreviation processStreamingResponse :=
  (processStreamingResponse JSON_parse relational_gt onToken).
Local Abbreviation document := (document JSON_parse).
Local Abbreviation carried := (carried JSON_parse).
Local Abbreviation seen := (seen JSON_parse).

(** Where the colon is followed by white space, the decoder reads the
    document that the line carries. *)
Lemma document_carried raw :
  spaced raw = true -> document raw = carried raw.
Proof.
  intros Hspaced.
  unfold PerplexityClient.document, payload, EventStream.carried.
  rewrite trim_replace_final_CR.
  destruct (data_payload raw) as [text|] eqn:Hpayload.
  - rewrite (payload_spaced _ Hspaced Hpayload).
    unfold data_payload in Hpayload.
    destruct (startsWith (trim raw) (lit "data:")) eqn:Hdata; [|discriminate].
    destruct (JsString.eqb (trim raw) []) eqn:Hblank.
    { apply eqb_eq in Hblank. rewrite Hblank in Hdata. discriminate. }
    destruct (startsWith (trim raw) (lit "event:")) eqn:Hevent.
    { apply event_is_no_data in Hevent. congruence. }
    cbn [negb]. now destruct (JsString.eqb text (lit "{}")).
  - unfold data_payload in Hpayload.
    destruct (startsWith (trim raw) (lit "data:")); [discriminate|].
    cbn [negb].
    now destruct (JsString.eqb (trim raw) []),
      (startsWith (trim raw) (lit "event:")).
Qed.

(** A [data:] line whose payload [JSON.parse] rejects leaves every
    variable of the decoder as it was, where the colon is followed by
    white space. *)
Lemma processLine_rejected st raw text :
  spaced raw = true ->
  data_payload raw = Some text ->
  JSON_parse text = None ->
  processLine st raw = st.
Proof.
  intros Hspaced Hpayload Hparse.
  unfold PerplexityClient.processLine. rewrite trim_replace_final_CR.
  rewrite (payload_spaced _ Hspaced Hpayload), Hparse.
  destruct (JsString.eqb (trim raw) []); [reflexivity|].
  destruct (startsWith (trim raw) (lit "event:")) eqn:Hevent.
  { apply event_is_no_data in Hevent. unfold data_payload in Hpayload.
    rewrite Hevent in Hpayload. discriminate. }
  now repeat match goal with
             | |- context [if ?x then _ else _] => destruct x
             end.
Qed.

(** A stream with a [data:] line whose payload is not valid JSON and
    whose colon is followed by white space, after complete lines
    [before] and ahead of the text [after], gives the tokens and the
    settlement of the stream without that line. *)
Lemma malformed_line_is_skipped before bad after text chunks1 chunks2 e :
  (before = [] \/ exists lines, before = lines ++ [LF]) ->
  is_line bad = true ->
  spaced bad = true ->
  data_payload bad = Some text ->
  JSON_parse text = None ->
  concat (map Buffer.toString chunks1) = before ++ bad ++ LF :: after ->
  concat (map Buffer.toString chunks2) = before ++ after ->
  processStreamingResponse chunks1 e = processStreamingResponse chunks2 e.
Proof.
  intros Hbefore Hbad Hspaced Hpayload Hparse H1 H2.
  unfold PerplexityClient.processStreamingResponse.
  rewrite !receive_text, H1, H2, !feed_complete_lines.
  cbn [buffer initial app].
  assert (Hlast : last (split_LF before) [] = []).
  { destruct Hbefore as [->|[ls ->]]; [reflexivity|].
    rewrite split_LF_at_LF. now rewrite last_app_nonempty. }
  pose proof (split_LF_nonempty after) as Hafter.
  rewrite (split_LF_app before (bad ++ LF :: after)).
  rewrite (split_LF_app before after), Hlast. cbn [app].
  rewrite split_LF_at_LF, (split_LF_no_LF _ (is_line_no_LF _ Hbad)).
  rewrite !app_assoc, !removelast_app_nonempty, !last_app_nonempty
    by exact Hafter.
  rewrite !fold_left_app. cbn [fold_left].
  now rewrite (processLine_rejected _ _ Hspaced Hpayload Hparse).
Qed.

(** ** The response *)

Lemma last_assigned_seen key lines init :
  forallb spaced lines = true ->
  last_assigned JSON_parse key lines init = last (seen key lines) init.
Proof.
  revert init; induction lines as [|raw lines IH]; intros init Hspaced.
  - reflexivity.
  - cbn [forallb] in Hspaced. apply andb_prop in Hspaced as [Hraw Hlines].
    cbn [PerplexityClient.last_assigned EventStream.seen flat_map].
    rewrite (document_carried _ Hraw), (IH _ Hlines).
    destruct (carried raw) as [data|]; [|reflexivity].
    destruct (assigned key data) as [v|]; [|reflexivity].
    cbn [app]. symmetry. apply last_cons.
Qed.

(** Every text is a sequence of lines ended by a line feed, and a rest
    without line feed. *)
Lemma text_lines (text : jsstring) :
  exists lines tail,
    forallb is_line lines = true /\ is_line tail = true
    /\ text = terminated lines ++ tail.
Proof.
  induction text as [|c text (lines & tail & Hlines & Htail & ->)].
  - now exists [], [].
  - destruct (N.eqb c LF) eqn:Hc.
    + apply N.eqb_eq in Hc. subst c. now exists ([] :: lines), tail.
    + destruct lines as [|l lines].
      * exists [], (c :: tail). cbn [is_line forallb]. unfold is_line in *.
        cbn [forallb]. now rewrite Hc, Htail.
      * exists ((c :: l) :: lines), tail.
        cbn [forallb] in *. apply andb_prop in Hlines as [Hl Hlines].
        unfold is_line in *. cbn [forallb]. now rewrite Hc, Hl, Hlines, Htail.
Qed.

(** C5, as the code has it.  A stream is made of [lines], each ended by
    a line feed, and a rest [tail] without line feed.  When it ends, the
    promise is resolved with one response: [success] is true, [answer]
    is the accumulated answer and [fullResponse] its length, and
    [threadUrlSlug] and [readWriteToken] are the last truthy values that
    the [data:] lines among [lines] carry for [thread_url_slug] and
    [read_write_token], the empty string when there is none.  This is
    for [lines] in which the colon of every [data:] line is followed by
    white space or by nothing. *)
Theorem response_on_end lines tail chunks :
  forallb is_line lines = true ->
  is_line tail = true ->
  concat (map Buffer.toString chunks) = terminated lines ++ tail ->
  forallb spaced lines = true ->
  snd (processStreamingResponse chunks End)
  = Resolved
      {| Response.success := true;
         Response.answer := currentAnswer (receive chunks);
         Response.threadUrlSlug :=
           last (seen (lit "thread_url_slug") lines) (JStr []);
         Response.readWriteToken :=
           last (seen (lit "read_write_token") lines) (JStr []);
         Response.fullResponse := length (currentAnswer (receive chunks)) |}.
Proof.
  intros Hlines Htail Htext Hspaced.
  rewrite (response_of_documents JSON_parse relational_gt onToken chunks).
  unfold complete_lines. rewrite Htext.
  rewrite (split_LF_terminated lines tail Hlines),
    (split_LF_no_LF _ (is_line_no_LF _ Htail)).
  rewrite removelast_app_nonempty by discriminate.
  cbn [removelast]. rewrite app_nil_r.
  now rewrite !(last_assigned_seen _ _ _ Hspaced).
Qed.

End Documents.

(** ** Cumulative snapshots *)

Section Callback.

Variable JSON_parse : jsstring -> option value.
Variable relational_gt : value -> nat -> option bool.

Local Abbreviation processBlock := (processBlock relational_gt true).
Local Abbreviation processBlocks := (processBlocks relational_gt true).
Local Abbreviation processData := (processData relational_gt true).
Local Abbreviation processLine := (processLine JSON_parse relational_gt true).
Local Abbreviation feed := (feed JSON_parse relational_gt true).
Local Abbreviation receive := (receive JSON_parse relational_gt true).
Local Abbreviation processStreamingResponse :=
  (processStreamingResponse JSON_parse relational_gt true).

Lemma processBlocks_app st earlier later :
  processBlocks st (earlier ++ later)
  = match processBlocks st earlier with
    | Normal st1 => processBlocks st1 later
    | Throw st1 => Throw st1
    end.
Proof.
  revert st; induction earlier as [|block earlier IH]; intros st.
  - reflexivity.
  - cbn [app PerplexityClient.processBlocks].
    destruct (processBlock st block); [apply IH | reflexivity].
Qed.

(** Under the event names [''] and ['message'] the blocks of a
    document are processed, after its metadata. *)
Lemma processData_blocks st data blocks :
  lastEvent st = [] \/ lastEvent st = lit "message" ->
  get data (lit "blocks") = Some (JArr blocks) ->
  processData st data = processBlocks (readMetadata st data) blocks.
Proof.
  intros Hevent Hblocks.
  assert (Hnull : data <> JNull) by (intros ->; discriminate).
  destruct (readMetadata_assigned st Hnull) as (_ & _ & He & _).
  assert (Hgate : otherEvent (readMetadata st data) = false).
  { unfold otherEvent. rewrite He. now destruct Hevent as [-> | ->]. }
  unfold PerplexityClient.processData.
  destruct data; try contradiction; now rewrite Hgate, Hblocks.
Qed.

Lemma removelast_cons {A} (x : A) (l : list A) :
  l <> [] -> removelast (x :: l) = x :: removelast l.
Proof. now destruct l. Qed.

Lemma last_cons_nonempty {A} (x : A) (l : list A) (d : A) :
  l <> [] -> last (x :: l) d = last l d.
Proof. now destruct l. Qed.

(** C2, as the code has it.  The stream starts with the lines [before],
    each ended by a line feed, and its next line is a [data:] line with
    white space after the colon; [chunks0] delivers the lines [before],
    [chunks] the whole stream.  The event name is empty or ['message'];
    the document of the line has the blocks [earlier], [block] and
    [later], and the blocks [earlier] are processed without an
    exception.  If [block] is a block for answer text without a chunk
    list whose cumulative [answer] has more code units than the tokens
    passed so far have together, [K], then the parser passes exactly one
    token for it: [answer] without its first [K] code units.  [answer]
    becomes the accumulated answer, and the tokens of the whole stream
    start with those passed so far and this token. *)
Theorem delta_is_suffix before line after chunks0 chunks data earlier block
  later mb a st1 e :
  forallb is_line before = true ->
  is_line line = true ->
  concat (map Buffer.toString chunks0) = terminated before ->
  concat (map Buffer.toString chunks)
  = terminated before ++ line ++ LF :: after ->
  spaced line = true ->
  carried JSON_parse line = Some data ->
  lastEvent (receive chunks0) = []
  \/ lastEvent (receive chunks0) = lit "message" ->
  get data (lit "blocks") = Some (JArr (earlier ++ block :: later)) ->
  processBlocks (readMetadata (receive chunks0) data) earlier = Normal st1 ->
  get block (lit "intended_usage") = Some (JStr (lit "ask_text")) ->
  get block (lit "markdown_block") = Some mb ->
  get mb (lit "chunks") = None ->
  get mb (lit "answer") = Some (JStr a) ->
  length (concat (emitted st1)) < length a ->
  exists st2 more prefix delta,
    processBlocks (readMetadata (receive chunks0) data) (earlier ++ [block])
    = Normal st2
    /\ a = prefix ++ delta
    /\ length prefix = length (concat (emitted st1))
    /\ length delta = length a - length (concat (emitted st1))
    /\ emitted st2 = emitted st1 ++ [delta]
    /\ currentAnswer st2 = a
    /\ fst (processStreamingResponse chunks e) = emitted st2 ++ more.
Proof.
  intros Hbefore Hline Htext0 Htext Hspaced Hcarried Hevent Hblocks Hearlier
    Husage Hmb Hchunks Hanswer Hlen.
  assert (Hfeed : receive chunks = feed (receive chunks0) (line ++ LF :: after)).
  { rewrite !receive_text, Htext, Htext0. symmetry. apply feed_app. }
  assert (Hbuffer : buffer (receive chunks0) = []).
  { rewrite receive_text, Htext0.
    now rewrite (feed_terminated_all JSON_parse relational_gt true before). }
  clear Hbefore Htext0 Htext.
  set (st := receive chunks0) in *.
  assert (Hst : same_length st)
    by now apply (@receive_tokens JSON_parse relational_gt chunks0 initial).
  assert (Hst' : same_length (readMetadata st data)).
  { unfold same_length. now destruct (readMetadata_tokens st data) as [-> ->]. }
  assert (Hst1 : same_length st1).
  { destruct (@processBlocks_tokens JSON_parse relational_gt earlier
                (readMetadata st data))
      as [H _].
    rewrite Hearlier in H. exact (H Hst'). }
  unfold same_length in Hst1. rewrite Hst1 in *.
  pose proof (@processBlock_delta relational_gt st1 block mb a
                Husage Hmb Hchunks Hanswer Hlen) as Hblock.
  set (delta := skipn (length (currentAnswer st1)) a) in *.
  set (st2 := set_currentAnswer a (call_onToken true delta st1)) in *.
  assert (Hdocument : document JSON_parse line = Some data)
    by now rewrite (document_carried JSON_parse _ Hspaced).
  assert (Hfinal : exists more,
            fst (processStreamingResponse chunks e) = emitted st2 ++ more).
  { unfold PerplexityClient.processStreamingResponse.
    cbn [fst]. rewrite Hfeed, feed_complete_lines, Hbuffer. cbn [app].
    rewrite (split_LF_line _ _ Hline).
    pose proof (split_LF_nonempty after) as Hafter.
    rewrite (@removelast_cons jsstring line _ Hafter),
      (@last_cons_nonempty jsstring line _ [] Hafter).
    cbn [fold_left]. rewrite processLine_set_buffer.
    destruct (processLines_grown JSON_parse relational_gt true
                (removelast (split_LF after))
                (set_buffer (last (split_LF after) []) (processLine st line)))
      as [[more1 ->] _].
    cbn [emitted set_buffer].
    rewrite (@processLine_document JSON_parse relational_gt true st _ _
               Hdocument).
    rewrite (@processData_blocks st data _ Hevent Hblocks), processBlocks_app,
      Hearlier.
    cbn [PerplexityClient.processBlocks]. rewrite Hblock.
    destruct (processBlocks_grown relational_gt true later st2)
      as [[more2 ->] _].
    exists (more2 ++ more1). now rewrite app_assoc. }
  destruct Hfinal as [more Hfinal].
  exists st2, more, (firstn (length (currentAnswer st1)) a), delta.
  split.
  { rewrite processBlocks_app, Hearlier.
    cbn [PerplexityClient.processBlocks]. now rewrite Hblock. }
  split; [symmetry; apply firstn_skipn|].
  split; [apply firstn_length_le; lia|].
  split; [apply length_skipn|].
  split; [reflexivity|].
  split; [reflexivity | exact Hfinal].
Qed.

End Callback.
End DocumentFacts.

(* ===================================================================== *)
(** * The documents of sample streams *)
(* ===================================================================== *)

Module DocumentExamples.
Import PerplexityClient Streams EventStream DecoderSamples DocumentSamples.
Import DocumentFacts.

(** [malformed_line_is_skipped] for the line [data: {oops] between two
    lines of metadata. *)
Lemma malformed_line_is_skipped_example :
  processStreamingResponse JSON.parse never_gt true
    [line "data: {'thread_url_slug':'abc'}" ++ line "data: {oops"
     ++ line "data: {'read_write_token':'tok'}"] End
  = processStreamingResponse JSON.parse never_gt true
      [line "data: {'thread_url_slug':'abc'}";
       line "data: {'read_write_token':'tok'}"] End.
Proof.
  apply (@malformed_line_is_skipped JSON.parse never_gt true
           (quoted "data: {'thread_url_slug':'abc'}" ++ [LF])
           (lit "data: {oops")
           (quoted "data: {'read_write_token':'tok'}" ++ [LF])
           (lit "{oops")).
  - right. eexists. reflexivity.
  - vm_compute. reflexivity.
  - vm_compute. reflexivity.
  - vm_compute. reflexivity.
  - vm_compute. reflexivity.
  - vm_compute. reflexivity.
  - vm_compute. reflexivity.
Qed.

(** C5 as stated fails: the last [thread_url_slug] of the first stream
    is the empty string, and the response carries the one before it;
    the last [thread_url_slug] of the second stream stands on a line
    without line feed, and the response carries the one before it. *)
Lemma empty_slug_is_not_last :
  carried JSON.parse (quoted "data: {'thread_url_slug':''}")
  = Some (JObj [(lit "thread_url_slug", JStr [])])
  /\ processStreamingResponse JSON.parse never_gt true
       [line "data: {'thread_url_slug':'abc'}";
        line "data: {'thread_url_slug':''}"] End
     = ([],
        Resolved
          {| Response.success := true;
             Response.answer := [];
             Response.threadUrlSlug := JStr (lit "abc");
             Response.readWriteToken := JStr [];
             Response.fullResponse := 0 |})
  /\ processStreamingResponse JSON.parse never_gt true
       [line "data: {'thread_url_slug':'abc'}";
        Buffer.ascii_bytes "data: {'thread_url_slug':'xyz'}"] End
     = ([],
        Resolved
          {| Response.success := true;
             Response.answer := [];
             Response.threadUrlSlug := JStr (lit "abc");
             Response.readWriteToken := JStr [];
             Response.fullResponse := 0 |}).
Proof. repeat split; vm_compute; reflexivity. Qed.

(** [response_on_end] for the stream [threads]: the response carries the
    first identifier and the second token. *)
Lemma response_on_end_witness :
  concat (map Buffer.toString threads)
  = terminated
      [ lit "event: status";
        quoted "data: {'thread_url_slug':'abc','read_write_token':'t1'}";
        quoted "data: {'thread_url_slug':'','read_write_token':'t2'}";
        lit "data: {oops" ]
    ++ quoted "data: {'thread_url_slug':'xyz'}"
  /\ snd (processStreamingResponse JSON.parse never_gt true threads End)
     = Resolved
         {| Response.success := true;
            Response.answer := [];
            Response.threadUrlSlug := JStr (lit "abc");
            Response.readWriteToken := JStr (lit "t2");
            Response.fullResponse := 0 |}.
Proof.
  split; [vm_compute; reflexivity|].
  etransitivity.
  - apply (@response_on_end JSON.parse never_gt true
             [ lit "event: status";
               quoted "data: {'thread_url_slug':'abc','read_write_token':'t1'}";
               quoted "data: {'thread_url_slug':'','read_write_token':'t2'}";
               lit "data: {oops" ]
             (quoted "data: {'thread_url_slug':'xyz'}") threads);
      vm_compute; reflexivity.
  - vm_compute. reflexivity.
Defined.

(** C3 at a line whose payload is no JSON text because a letter follows
    the colon.  The decoder drops the letter with the colon and reads the
    rest: the line sets [readWriteToken] and passes the token ["boo"],
    and the stream does not give what it gives without the line. *)
Theorem malformed_line_is_read :
  data_payload (quoted letter_after_colon)
  = Some (quoted "x{'read_write_token':'tok','blocks':[{'intended_usage':'ask_text','markdown_block':{'chunks':['boo']}}]}")
  /\ JSON.parse
       (quoted "x{'read_write_token':'tok','blocks':[{'intended_usage':'ask_text','markdown_block':{'chunks':['boo']}}]}")
     = None
  /\ processStreamingResponse JSON.parse never_gt true
       [line "data: {'thread_url_slug':'abc'}"; line letter_after_colon;
        line one_chunk] End
     = ([lit "boo"; lit "He"],
        Resolved
          {| Response.success := true;
             Response.answer := lit "booHe";
             Response.threadUrlSlug := JStr (lit "abc");
             Response.readWriteToken := JStr (lit "tok");
             Response.fullResponse := 5 |})
  /\ processStreamingResponse JSON.parse never_gt true
       [line "data: {'thread_url_slug':'abc'}"; line one_chunk] End
     = ([lit "He"],
        Resolved
          {| Response.success := true;
             Response.answer := lit "He";
             Response.threadUrlSlug := JStr (lit "abc");
             Response.readWriteToken := JStr [];
             Response.fullResponse := 2 |}).
Proof. repeat split; vm_compute; reflexivity. Qed.

(** C2 as stated fails.  Under the event name ['status'] a cumulative
    snapshot passes no token; and a snapshot passes no token when a block
    before it in the document raises an exception, here a block whose
    [answer] is an array, which has no [substring]. *)
Lemma gated_snapshot_passes_no_token :
  carried JSON.parse (quoted snapshot_only)
  = Some
      (JObj [ (lit "blocks",
                JArr [ JObj [ (lit "intended_usage", JStr (lit "ask_text"));
                              (lit "markdown_block",
                                JObj [ (lit "answer", JStr (lit "Hello")) ]) ] ]) ])
  /\ processStreamingResponse JSON.parse never_gt true
       [line "event: status"; line snapshot_only] End
     = ([],
        Resolved
          {| Response.success := true;
             Response.answer := [];
             Response.threadUrlSlug := JStr [];
             Response.readWriteToken := JStr [];
             Response.fullResponse := 0 |})
  /\ processStreamingResponse JSON.parse never_gt true
       [line array_then_snapshot] End
     = ([],
        Resolved
          {| Response.success := true;
             Response.answer := [];
             Response.threadUrlSlug := JStr [];
             Response.readWriteToken := JStr [];
             Response.fullResponse := 0 |})
  /\ processStreamingResponse JSON.parse never_gt true
       [line snapshot_only] End
     = ([lit "Hello"],
        Resolved
          {| Response.success := true;
             Response.answer := lit "Hello";
             Response.threadUrlSlug := JStr [];
             Response.readWriteToken := JStr [];
             Response.fullResponse := 5 |}).
Proof. repeat split; vm_compute; reflexivity. Qed.

(** [delta_is_suffix] for a stream with the event name ['message'], a
    document with two chunks and the snapshot ["Hello, world"], and a
    line with one more chunk, delivered in one piece: the snapshot passes
    [", world"]. *)
Lemma delta_is_suffix_witness :
  exists st2 more,
    emitted st2 = [lit "He"; lit "llo"; lit ", world"]
    /\ currentAnswer st2 = lit "Hello, world"
    /\ fst (processStreamingResponse JSON.parse never_gt true
              [line "event: message" ++ line chunks_then_snapshot
               ++ line exclamation] End)
       = emitted st2 ++ more.
Proof.
  destruct (@delta_is_suffix JSON.parse never_gt
              [lit "event: message"]
              (quoted chunks_then_snapshot) (quoted exclamation ++ [LF])
              [line "event: message"]
              [line "event: message" ++ line chunks_then_snapshot
               ++ line exclamation]
              (JObj [(lit "blocks", JArr [chunk_block; snapshot_block])])
              [chunk_block] snapshot_block []
              (JObj [(lit "answer", JStr (lit "Hello, world"))])
              (lit "Hello, world") after_hello End)
    as (st2 & more & prefix & delta & _ & Ha & Hprefix & _ & Hemitted
        & Hanswer & Hfinal).
  - vm_compute. reflexivity.
  - vm_compute. reflexivity.
  - vm_compute. reflexivity.
  - vm_compute. reflexivity.
  - vm_compute. reflexivity.
  - vm_compute. reflexivity.
  - right. vm_compute. reflexivity.
  - reflexivity.
  - vm_compute. reflexivity.
  - reflexivity.
  - reflexivity.
  - reflexivity.
  - reflexivity.
  - vm_compute. lia.
  - assert (Hlength : length prefix = 5) by exact Hprefix.
    assert (Hdelta : delta = skipn 5 (lit "Hello, world")).
    { rewrite Ha, skipn_app, Hlength, Nat.sub_diag.
      now rewrite skipn_all2 by lia. }
    exists st2, more.
    split; [rewrite Hemitted, Hdelta; reflexivity|].
    split; [exact Hanswer | exact Hfinal].
Defined.

End DocumentExamples.

(* ===================================================================== *)
(** * The conversation store: lookups after a change *)
(* ===================================================================== *)

Module JsMapLaws.
Import JsStringFacts JsMapFacts.

Section Map.
Variable V : Type.
Implicit Types (m : JsMap.t V) (key k : jsstring) (v : V) (f : V -> V).

Lemma eqb_neq (s t : jsstring) : s <> t -> JsString.eqb s t = false.
Proof.
  intros H. destruct (JsString.eqb s t) eqn:E; [|reflexivity].
  now apply eqb_eq in E.
Qed.

Lemma get_update_other m key k f :
  k <> key -> JsMap.get (JsMap.update m key f) k = JsMap.get m k.
Proof.
  intros Hk. induction m as [|[k' v] m IH]; cbn [JsMap.update JsMap.get].
  - reflexivity.
  - destruct (JsString.eqb k' key) eqn:E; cbn [JsMap.get].
    + apply eqb_eq in E. subst k'.
      now rewrite (eqb_neq (not_eq_sym Hk)).
    + now rewrite IH.
Qed.

Lemma get_set_other m key k v :
  k <> key -> JsMap.get (JsMap.set m key v) k = JsMap.get m k.
Proof.
  intros Hk. induction m as [|[k' v'] m IH]; cbn [JsMap.set JsMap.get].
  - now rewrite (eqb_neq (not_eq_sym Hk)).
  - destruct (JsString.eqb k' key) eqn:E; cbn [JsMap.get].
    + apply eqb_eq in E. subst k'.
      now rewrite (eqb_neq (not_eq_sym Hk)).
    + now rewrite IH.
Qed.

Lemma get_delete_other m key k :
  k <> key -> JsMap.get (JsMap.delete m key) k = JsMap.get m k.
Proof.
  intros Hk.
  induction m as [|[k' v] m IH]; cbn [JsMap.delete filter fst JsMap.get].
  - reflexivity.
  - destruct (JsString.eqb k' key) eqn:E; cbn [negb JsMap.get].
    + apply eqb_eq in E. subst k'.
      now rewrite (eqb_neq (not_eq_sym Hk)).
    + fold (JsMap.delete m key). now rewrite IH.
Qed.

Lemma keys_update m key f :
  map fst (JsMap.update m key f) = map fst m.
Proof.
  induction m as [|[k v] m IH]; cbn [JsMap.update map fst].
  - reflexivity.
  - destruct (JsString.eqb k key); cbn [map fst]; now rewrite ?IH.
Qed.

Lemma get_absent m key :
  JsMap.get m key = None <-> ~ In key (map fst m).
Proof.
  induction m as [|[k v] m IH]; cbn [JsMap.get map fst In].
  - tauto.
  - destruct (JsString.eqb k key) eqn:E.
    + apply eqb_eq in E. split; [discriminate|]. tauto.
    + rewrite IH. split; [|tauto].
      intros H [Hk|Hin]; [|tauto].
      subst k. now rewrite eqb_refl in E.
Qed.

(** A key that is not there is added at the end. *)
Lemma set_absent m key v :
  JsMap.get m key = None -> JsMap.set m key v = m ++ [(key, v)].
Proof.
  induction m as [|[k v'] m IH]; cbn [JsMap.get JsMap.set app].
  - reflexivity.
  - destruct (JsString.eqb k key); [discriminate|].
    intros H. now rewrite IH.
Qed.

(** A key that is there keeps its place. *)
Lemma keys_set_present m key v v0 :
  JsMap.get m key = Some v0 -> map fst (JsMap.set m key v) = map fst m.
Proof.
  induction m as [|[k v'] m IH]; cbn [JsMap.get JsMap.set map fst].
  - discriminate.
  - destruct (JsString.eqb k key); cbn [map fst]; [reflexivity|].
    intros H. now rewrite IH.
Qed.

Lemma keys_delete m key :
  map fst (JsMap.delete m key)
  = filter (fun k => negb (JsString.eqb k key)) (map fst m).
Proof.
  induction m as [|[k v] m IH]; cbn [JsMap.delete filter map fst].
  - reflexivity.
  - destruct (JsString.eqb k key); cbn [negb map fst];
      fold (JsMap.delete m key); now rewrite IH.
Qed.

End Map.
End JsMapLaws.

Module StoreFacts.
Import Stores JsStringFacts JsMapFacts JsMapLaws.

Lemma well_keyed_clear : well_keyed [].
Proof. split; constructor. Qed.

Lemma well_keyed_set m c :
  well_keyed m -> well_keyed (JsMap.set m (Conversation.id c) c).
Proof.
  intros [Hkeys Hids].
  destruct (JsMap.get m (Conversation.id c)) as [c0|] eqn:E.
  - split; [now rewrite (keys_set_present m _ c E)|].
    clear Hkeys E. induction Hids as [|[k v] m Hk Hm IH]; cbn [JsMap.set].
    + repeat constructor.
    + destruct (JsString.eqb k (Conversation.id c)) eqn:Ek.
      * apply eqb_eq in Ek. constructor; [now cbn|exact Hm].
      * now constructor.
  - rewrite (set_absent m _ c E). split.
    + rewrite map_app. cbn [map fst].
      apply NoDup_app; [exact Hkeys|repeat constructor; now cbn|].
      intros k Hin [<-|[]]. now apply get_absent in E.
    + apply Forall_app. split; [exact Hids|now repeat constructor].
Qed.

Lemma well_keyed_update m key f :
  (forall c, Conversation.id (f c) = Conversation.id c) ->
  well_keyed m -> well_keyed (JsMap.update m key f).
Proof.
  intros Hf [Hkeys Hids]. split; [now rewrite keys_update|].
  clear Hkeys. induction Hids as [|[k v] m Hk Hm IH]; cbn [JsMap.update].
  - constructor.
  - destruct (JsString.eqb k key).
    + constructor; [cbn [fst snd] in *; now rewrite Hf|exact Hm].
    + now constructor.
Qed.

Lemma well_keyed_delete m key :
  well_keyed m -> well_keyed (JsMap.delete m key).
Proof.
  intros [Hkeys Hids]. split.
  - rewrite keys_delete. now apply NoDup_filter.
  - unfold JsMap.delete. rewrite Forall_forall in *.
    intros e He. apply filter_In in He as [He _]. now apply Hids.
Qed.

(** Setting the conversations of a well keyed store one after the other
    rebuilds it. *)
Lemma rebuild m1 m2 :
  well_keyed (m1 ++ m2) ->
  fold_left (fun m conv => JsMap.set m (Conversation.id conv) conv)
    (JsMap.values m2) m1
  = m1 ++ m2.
Proof.
  revert m1. induction m2 as [|[k c] m2 IH]; intros m1 H.
  - now rewrite app_nil_r.
  - cbn [JsMap.values map snd fold_left].
    assert (Hk : Conversation.id c = k).
    { destruct H as [_ H]. apply Forall_app in H as [_ H].
      now apply Forall_inv in H. }
    assert (Habsent : JsMap.get m1 k = None).
    { apply get_absent. destruct H as [H _]. rewrite map_app in H.
      cbn [map fst] in H. apply NoDup_remove_2 in H.
      intros Hin. apply H, in_or_app. now left. }
    rewrite Hk, (set_absent m1 k c Habsent).
    change (JsMap.values m2) with (map snd m2) in IH.
    unfold JsMap.values in IH.
    rewrite IH; rewrite <- app_assoc; [reflexivity|exact H].
Qed.

End StoreFacts.

(* ===================================================================== *)
(** * The conversation service: rejections, notifications, invariants *)
(* ===================================================================== *)

Module ServiceLaws.
Import PerplexityService Stores JsStringFacts JsMapFacts JsMapLaws SortFacts
  StoreFacts ServiceFacts.

Section Service.
Variable env : environment.

Local Abbreviation user_message := (user_message env).
Local Abbreviation assistant_message := (assistant_message env).

(** ** Calls that are rejected *)

(** X9.  Without authentication, or in a web environment, [sendMessage]
    throws before it does anything: no id is generated, no conversation
    is created or changed, nothing is stored or notified, and the client
    is not called.  The authentication is checked first. *)
Theorem no_exchange_without_access content conversationId s :
  _isAuthenticated s = false \/ isWeb env = true ->
  sendMessage env content conversationId s
  = (Raise
       (if _isAuthenticated s
        then lit
          "Sending messages to Perplexity is not supported in web environment."
        else lit "Not authenticated with Perplexity AI"),
     s).
Proof.
  intros H. destruct s as [auth m st nt n].
  cbn [_isAuthenticated] in *.
  destruct auth.
  - destruct H as [H|H]; [discriminate|]. run. rewrite H. reflexivity.
  - reflexivity.
Qed.

(** X10.  [sendMessage] for an id that is not in the store throws
    ["Conversation <id> not found"].  No conversation is created or
    changed, nothing is stored or notified and the client is not called;
    the id of the message has been generated by then. *)
Theorem unknown_conversation_is_rejected content id s :
  _isAuthenticated s = true ->
  isWeb env = false ->
  id <> [] ->
  JsMap.get (_conversations s) id = None ->
  exists s',
    sendMessage env content (Some id) s
    = (Raise (lit "Conversation " ++ id ++ lit " not found"), s')
    /\ _conversations s' = _conversations s
    /\ stored s' = stored s
    /\ notified s' = notified s
    /\ consulted s' = 2 + consulted s.
Proof.
  intros Hauth Hweb Hid Hget. destruct id as [|c id]; [easy|].
  destruct s as [auth m st nt n].
  cbn [_isAuthenticated _conversations] in *. subst auth.
  eexists. split.
  - run. rewrite Hweb. run. rewrite Hget. reflexivity.
  - repeat split.
Qed.

(** ** Notifications *)

(** X11.  [sendMessage] to a stored conversation calls the client once,
    with the content.  It fires one [onDidReceiveToken] for each token of
    the client, in order and with the id of the user message, which is
    also the id it returns; then, after a response, one
    [onDidCompleteMessage] with that id and the response, and after an
    exception one logged error and no completion. *)
Theorem tokens_precede_completion content key c s r s' :
  _isAuthenticated s = true ->
  isWeb env = false ->
  key <> [] ->
  JsMap.get (_conversations s) key = Some c ->
  sendMessage env content (Some key) s = (r, s') ->
  let x := client_sendMessage env (4 + consulted s) content in
  let messageId := Message.id (user_message content (consulted s)) in
  notified s'
  = notified s ++ map (DidReceiveToken messageId) (tokens x)
    ++ [match outcome x with
        | inl response => DidCompleteMessage messageId response
        | inr error =>
            LogError (lit "Failed to send message to Perplexity:") error
        end]
  /\ r = match outcome x with
         | inl _ => Return messageId
         | inr error => Raise error
         end.
Proof.
  intros Hauth Hweb Hkey Hget.
  rewrite (@sendMessage_does env content key c s Hauth Hweb Hkey Hget).
  cbn zeta.
  destruct (outcome _); intros [= <- <-]; cbn [notified];
    now rewrite <- app_assoc.
Qed.

(** ** What a call changes *)

Lemma id_pushed message now c :
  Conversation.id (pushed message now c) = Conversation.id c.
Proof. reflexivity. Qed.

Lemma id_retitle content c :
  Conversation.id (retitle content c) = Conversation.id c.
Proof. unfold retitle. now destruct (_ && _). Qed.

Lemma createdAt_retitle content c :
  Conversation.createdAt (retitle content c) = Conversation.createdAt c.
Proof. unfold retitle. now destruct (_ && _). Qed.

(** X12.  [sendMessage] to a stored conversation changes no other
    conversation and keeps the keys of the store in their order.  To the
    conversation itself it only appends: the user message, and after it
    the assistant message when the client answered; the id and the time
    of creation stay. *)
Theorem sendMessage_only_appends content key c s r s' :
  _isAuthenticated s = true ->
  isWeb env = false ->
  key <> [] ->
  JsMap.get (_conversations s) key = Some c ->
  sendMessage env content (Some key) s = (r, s') ->
  map fst (_conversations s') = map fst (_conversations s)
  /\ (forall k, k <> key ->
      JsMap.get (_conversations s') k = JsMap.get (_conversations s) k)
  /\ exists c' user later,
      JsMap.get (_conversations s') key = Some c'
      /\ Conversation.messages c' = Conversation.messages c ++ user :: later
      /\ Message.isUser user = true
      /\ Message.content user = content
      /\ match r, later with
         | Return _, [assistant] => Message.isUser assistant = false
         | Raise _, [] => True
         | _, _ => False
         end
      /\ Conversation.id c' = Conversation.id c
      /\ Conversation.createdAt c' = Conversation.createdAt c.
Proof.
  intros Hauth Hweb Hkey Hget.
  rewrite (@sendMessage_does env content key c s Hauth Hweb Hkey Hget).
  cbn zeta.
  destruct (outcome _) as [response|error]; intros [= <- <-];
    cbn [_conversations].
  - split; [now rewrite !keys_update|].
    split; [intros k Hk; now rewrite !get_update_other by exact Hk|].
    rewrite !get_update_same, Hget. cbn [option_map].
    eexists _, _, _. split; [reflexivity|].
    rewrite messages_retitle, id_retitle, createdAt_retitle.
    unfold pushed.
    cbn [Conversation.messages Conversation.with_messages
         Conversation.with_updatedAt Conversation.id Conversation.createdAt].
    rewrite <- app_assoc. cbn [app].
    split; [reflexivity|]. now repeat split.
  - split; [now rewrite keys_update|].
    split; [intros k Hk; now rewrite get_update_other by exact Hk|].
    rewrite get_update_same, Hget. cbn [option_map].
    eexists _, _, _. split; [reflexivity|].
    unfold pushed.
    cbn [Conversation.messages Conversation.with_messages
         Conversation.with_updatedAt Conversation.id Conversation.createdAt].
    split; [reflexivity|]. now repeat split.
Qed.

(** ** A message without a conversation *)

Lemma sendMessage_begin_new content s :
  _isAuthenticated s = true ->
  isWeb env = false ->
  let n := consulted s in
  let messageId := toString36 (Date_now env n) ++ Math_random env (1 + n) in
  let key := toString36 (Date_now env (2 + n)) ++ Math_random env (3 + n) in
  let created :=
    {| Conversation.id := key; Conversation.title := sentinel;
       Conversation.messages := [];
       Conversation.createdAt := Date_now env (4 + n);
       Conversation.updatedAt := Date_now env (5 + n) |} in
  let user :=
    {| Message.id := messageId; Message.content := content;
       Message.timestamp := Date_now env (6 + n); Message.isUser := true;
       Message.response := None |} in
  let m := JsMap.set (_conversations s) key created in
  sendMessage_begin env content None s
  = (Return (messageId, key),
     {| _isAuthenticated := true;
        _conversations :=
          JsMap.update m key (pushed user (Date_now env (7 + n)));
        stored := Some (JsMap.values m);
        notified := notified s;
        consulted := 8 + n |}).
Proof.
  intros Hauth Hweb. destruct s as [auth m st nt n].
  cbn [_isAuthenticated _conversations consulted stored notified] in *.
  subst auth. run. rewrite Hweb. run.
  rewrite update_update. reflexivity.
Qed.

(** X13.  [sendMessage] without a conversation id creates a
    conversation, stores it under a fresh id and sends the message to it.
    When the client answers, the new conversation holds the user message
    and the assistant message and is titled with the content, cut to 50
    code units and followed by ["..."] when it is longer; the
    conversations under other keys are as before, and the storage entry
    holds the store. *)
Theorem message_without_conversation content response s :
  _isAuthenticated s = true ->
  isWeb env = false ->
  outcome (client_sendMessage env (8 + consulted s) content) = inl response ->
  exists messageId s' c user assistant,
    sendMessage env content None s = (Return messageId, s')
    /\ Conversation.id c <> []
    /\ JsMap.get (_conversations s') (Conversation.id c) = Some c
    /\ Conversation.messages c = [user; assistant]
    /\ Message.id user = messageId
    /\ Message.isUser user = true
    /\ Message.content user = content
    /\ Message.isUser assistant = false
    /\ Message.content assistant = Response.answer response
    /\ Message.response assistant = Some response
    /\ Conversation.title c
       = (if 50 <? length content
          then substring_to 50 content ++ lit "..."
          else content)
    /\ (forall k, k <> Conversation.id c ->
        JsMap.get (_conversations s') k = JsMap.get (_conversations s) k)
    /\ synchronized s'.
Proof.
  intros Hauth Hweb Hok.
  pose proof (sendMessage_begin_new content s Hauth Hweb) as Hbegin.
  cbn zeta in Hbegin.
  set (n := consulted s) in *.
  set (key := toString36 (Date_now env (2 + n)) ++ Math_random env (3 + n))
    in *.
  set (user :=
         {| Message.id := toString36 (Date_now env n) ++ Math_random env (1 + n);
            Message.content := content;
            Message.timestamp := Date_now env (6 + n);
            Message.isUser := true;
            Message.response := None |}) in *.
  exists (Message.id user).
  eexists.
  exists {| Conversation.id := key;
            Conversation.title :=
              if 50 <? length content
              then substring_to 50 content ++ lit "..."
              else content;
            Conversation.messages :=
              [user; assistant_message response (9 + n)];
            Conversation.createdAt := Date_now env (4 + n);
            Conversation.updatedAt := Date_now env (12 + n) |}.
  exists user, (assistant_message response (9 + n)).
  split.
  { unfold sendMessage, bind. rewrite Hbegin. cbn [fst snd].
    rewrite sendMessage_exchange_does.
    cbn [consulted _isAuthenticated _conversations stored notified].
    rewrite Hok. reflexivity. }
  cbn [_conversations Conversation.id Conversation.messages
       Conversation.title].
  split; [apply generated_id_nonempty|].
  split.
  { rewrite !get_update_same, get_set_same.
    cbn [option_map]. unfold retitle, pushed.
    cbn [Conversation.messages Conversation.with_messages
         Conversation.with_updatedAt Conversation.title Conversation.id
         app length Nat.eqb andb].
    unfold sentinel at 1 3. rewrite eqb_refl. reflexivity. }
  do 8 (split; [reflexivity|]).
  split; [|reflexivity].
  intros k Hk. rewrite !get_update_other by exact Hk.
  now apply get_set_other.
Qed.

(** ** Creating, deleting, listing *)

(** X14.  [createConversation] stores the conversation it returns under
    its id, which is not empty.  The conversation has no message and the
    given title, or ["New Conversation"] when the title is missing or
    empty.  The conversations under other keys are as before and the
    storage entry holds the store.  The call does not depend on the
    authentication. *)
Theorem created_conversation_is_stored title s :
  exists c s',
    createConversation env title s = (Return c, s')
    /\ Conversation.id c <> []
    /\ JsMap.get (_conversations s') (Conversation.id c) = Some c
    /\ Conversation.messages c = []
    /\ Conversation.title c
       = match title with
         | Some [] | None => sentinel
         | Some t => t
         end
    /\ (forall k, k <> Conversation.id c ->
        JsMap.get (_conversations s') k = JsMap.get (_conversations s) k)
    /\ synchronized s'
    /\ _isAuthenticated s' = _isAuthenticated s.
Proof.
  eexists _, _. split; [apply createConversation_does|].
  cbn [Conversation.id Conversation.messages Conversation.title
       _conversations _isAuthenticated].
  split; [apply generated_id_nonempty|].
  split; [apply get_set_same|].
  split; [reflexivity|].
  split; [now destruct title as [[|]|]|].
  split; [intros k Hk; now apply get_set_other|].
  split; reflexivity.
Qed.

(** X15.  [deleteConversation] returns normally whether or not the id is
    stored.  Afterwards the id is not in the store, the conversations
    under other keys are as before, in their order, and the storage entry
    holds the store. *)
Theorem deleted_conversation_is_gone id s :
  exists s',
    deleteConversation id s = (Return tt, s')
    /\ JsMap.get (_conversations s') id = None
    /\ (forall k, k <> id ->
        JsMap.get (_conversations s') k = JsMap.get (_conversations s) k)
    /\ map fst (_conversations s')
       = filter (fun k => negb (JsString.eqb k id)) (map fst (_conversations s))
    /\ synchronized s'.
Proof.
  destruct s as [auth m st nt n]. eexists. split; [reflexivity|].
  cbn [_conversations]. split; [apply get_delete_same|].
  split; [intros k Hk; now apply get_delete_other|].
  split; [apply keys_delete|reflexivity].
Qed.

(** ** Every conversation under its own id *)

Section Invariant.

(** A property of the store that its four mutations keep. *)
Variable Q : JsMap.t Conversation.t -> Prop.
Hypothesis Q_set : forall m c, Q m -> Q (JsMap.set m (Conversation.id c) c).
Hypothesis Q_update : forall m key f,
  (forall c, Conversation.id (f c) = Conversation.id c) ->
  Q m -> Q (JsMap.update m key f).
Hypothesis Q_delete : forall m key, Q m -> Q (JsMap.delete m key).
Hypothesis Q_clear : Q [].

Local Abbreviation keeps := (keeps Q).

Lemma keeps_ret {A} (a : A) : keeps (ret a).
Proof. now intros s. Qed.

Lemma keeps_throw {A} message : keeps (@throw A message).
Proof. now intros s. Qed.

Lemma keeps_gets {A} (f : service -> A) : keeps (gets f).
Proof. now intros s. Qed.

Lemma keeps_consult {A} (oracle : nat -> A) : keeps (consult oracle).
Proof. now intros s. Qed.

Lemma keeps_notify n : keeps (notify n).
Proof. now intros s. Qed.

Lemma keeps_bind {A B} (c : M A) (k : A -> M B) :
  keeps c -> (forall a, keeps (k a)) -> keeps (bind c k).
Proof.
  intros Hc Hk s H. unfold bind. specialize (Hc s H).
  destruct (c s) as [[a|message] s1]; cbn [snd] in *.
  - now apply Hk.
  - exact Hc.
Qed.

Lemma keeps_try_catch {A} (c : M A) handler :
  keeps c -> (forall error, keeps (handler error)) -> keeps (try_catch c handler).
Proof.
  intros Hc Hh s H. unfold try_catch. specialize (Hc s H).
  destruct (c s) as [[a|message] s1]; cbn [snd] in *.
  - exact Hc.
  - now apply Hh.
Qed.

Lemma keeps_modify (g : JsMap.t Conversation.t -> JsMap.t Conversation.t) :
  (forall m, Q m -> Q (g m)) ->
  keeps (modify (fun s => with_conversations (g (_conversations s)) s)).
Proof. intros Hg s H. now apply Hg. Qed.

Lemma keeps_saveConversations : keeps saveConversations.
Proof. now intros s. Qed.

Lemma keeps_generateId : keeps (generateId env).
Proof.
  unfold generateId.
  repeat (apply keeps_bind; [apply keeps_consult|intros ?]).
  apply keeps_ret.
Qed.

Lemma keeps_createConversation title : keeps (createConversation env title).
Proof.
  unfold createConversation.
  apply keeps_bind; [apply keeps_generateId|intros id].
  do 2 (apply keeps_bind; [apply keeps_consult|intros ?]).
  apply keeps_bind.
  - apply (keeps_modify (fun m => JsMap.set m id _)).
    intros m Hm.
    exact (Q_set (Conversation.Build id _ _ _ _) Hm).
  - intros _. apply keeps_bind; [apply keeps_saveConversations|intros _].
    apply keeps_ret.
Qed.

Lemma keeps_append key message : keeps (append env key message).
Proof.
  unfold append.
  apply keeps_bind.
  - apply (keeps_modify (fun m => JsMap.update m key _)).
    intros m. now apply Q_update.
  - intros _. apply keeps_bind; [apply keeps_consult|intros now].
    apply (keeps_modify (fun m => JsMap.update m key _)).
    intros m. now apply Q_update.
Qed.

Lemma keeps_tokens messageId tokens :
  keeps
    (fold_right
       (fun token k => bind (notify (DidReceiveToken messageId token))
                         (fun _ => k))
       (ret tt) tokens).
Proof.
  induction tokens as [|token tokens IH]; cbn [fold_right].
  - apply keeps_ret.
  - apply keeps_bind; [apply keeps_notify|intros _; exact IH].
Qed.

Lemma keeps_sendMessage content conversationId :
  keeps (sendMessage env content conversationId).
Proof.
  unfold sendMessage. apply keeps_bind.
  - unfold sendMessage_begin.
    apply keeps_bind; [apply keeps_gets|intros authenticated].
    destruct (negb authenticated); [apply keeps_throw|].
    destruct (isWeb env); [apply keeps_throw|].
    apply keeps_bind; [apply keeps_generateId|intros messageId].
    apply keeps_bind.
    + destruct conversationId as [[|ch id]|].
      * apply keeps_bind; [apply keeps_createConversation|intros ?].
        apply keeps_ret.
      * apply keeps_bind; [apply keeps_gets|intros [existing|]].
        -- apply keeps_ret.
        -- apply keeps_throw.
      * apply keeps_bind; [apply keeps_createConversation|intros ?].
        apply keeps_ret.
    + intros conversation.
      apply keeps_bind; [apply keeps_consult|intros timestamp].
      apply keeps_bind; [apply keeps_append|intros _]. apply keeps_ret.
  - intros started. unfold sendMessage_exchange.
    apply keeps_try_catch.
    + apply keeps_bind.
      * unfold exchange_with_client.
        apply keeps_bind; [apply keeps_consult|intros x].
        apply keeps_bind; [apply keeps_tokens|intros _].
        destruct (outcome x); [apply keeps_ret|apply keeps_throw].
      * intros response.
        apply keeps_bind; [apply keeps_generateId|intros id].
        apply keeps_bind; [apply keeps_consult|intros timestamp].
        apply keeps_bind; [apply keeps_append|intros _].
        apply keeps_bind.
        -- apply (keeps_modify (fun m => JsMap.update m _ _)).
           intros m. apply Q_update. apply id_retitle.
        -- intros _.
           apply keeps_bind; [apply keeps_saveConversations|intros _].
           apply keeps_bind; [apply keeps_notify|intros _].
           apply keeps_ret.
    + intros error.
      apply keeps_bind; [apply keeps_notify|intros _]. apply keeps_throw.
Qed.

Lemma keeps_deleteConversation id : keeps (deleteConversation id).
Proof.
  unfold deleteConversation. apply keeps_bind.
  - apply (keeps_modify (fun m => JsMap.delete m id)).
    intros m. apply Q_delete.
  - intros _. apply keeps_saveConversations.
Qed.

Lemma keeps_clearConversations : keeps clearConversations.
Proof.
  unfold clearConversations. apply keeps_bind.
  - apply (keeps_modify (fun m => JsMap.clear m)). intros m _. exact Q_clear.
  - intros _. apply keeps_saveConversations.
Qed.

End Invariant.

(** X16.  Every conversation stays stored under its own id: whatever
    they are called with and however they end, [createConversation],
    [sendMessage], [deleteConversation] and [clearConversations] take a
    store in which every key is the id of its conversation to such a
    store. *)
Theorem conversations_stay_under_their_ids s :
  well_keyed (_conversations s) ->
  (forall title,
     well_keyed (_conversations (snd (createConversation env title s))))
  /\ (forall content conversationId,
        well_keyed
          (_conversations (snd (sendMessage env content conversationId s))))
  /\ (forall id, well_keyed (_conversations (snd (deleteConversation id s))))
  /\ well_keyed (_conversations (snd (clearConversations s))).
Proof.
  intros H.
  split; [|split; [|split]].
  - intros title.
    exact (@keeps_createConversation well_keyed well_keyed_set title s H).
  - intros content conversationId.
    exact (@keeps_sendMessage well_keyed well_keyed_set well_keyed_update
             content conversationId s H).
  - intros id.
    exact (@keeps_deleteConversation well_keyed well_keyed_delete id s H).
  - exact (@keeps_clearConversations well_keyed well_keyed_clear s H).
Qed.

(** X17.  A service constructed over the storage entry of a service
    whose entry holds its store has the same conversations under the
    same keys, in the same order. *)
Theorem reload_restores_conversations s :
  well_keyed (_conversations s) ->
  synchronized s ->
  _conversations (construct (stored s)) = _conversations s
  /\ _isAuthenticated (construct (stored s)) = false.
Proof.
  intros Hkeys Hsync. unfold construct, loadConversations, modify.
  cbn [snd storageService_get stored]. rewrite Hsync.
  cbn [with_conversations _conversations _isAuthenticated].
  split; [|reflexivity].
  apply (rebuild [] (_conversations s)). exact Hkeys.
Qed.

End Service.
End ServiceLaws.

(* ===================================================================== *)
(** * The conversation service on more sample runs *)
(* ===================================================================== *)

Module ServiceLawsExamples.
Import PerplexityService Stores ServiceSamples ServiceFacts ServiceLaws.

(** [no_exchange_without_access] for a service that has just been
    constructed. *)
Lemma no_exchange_without_access_witness :
  sendMessage (desktop answered) (lit "hi") None (construct None)
  = (Raise (lit "Not authenticated with Perplexity AI"), construct None).
Proof.
  exact (@no_exchange_without_access (desktop answered) (lit "hi") None
           (construct None) (or_introl eq_refl)).
Defined.

(** [unknown_conversation_is_rejected] for an id that was never
    generated. *)
Lemma unknown_conversation_is_rejected_witness :
  exists s',
    sendMessage (desktop answered) (lit "hi") (Some (lit "nowhere"))
      (one_conversation (desktop answered))
    = (Raise (lit "Conversation nowhere not found"), s')
    /\ _conversations s' = _conversations (one_conversation (desktop answered))
    /\ stored s' = stored (one_conversation (desktop answered))
    /\ notified s' = []
    /\ consulted s' = 6.
Proof.
  apply (@unknown_conversation_is_rejected (desktop answered) (lit "hi")
           (lit "nowhere") (one_conversation (desktop answered)));
    [reflexivity | reflexivity | discriminate | vm_compute; reflexivity].
Defined.

(** [tokens_precede_completion] on a desktop whose client streams
    ["He"] and ["llo"]. *)
Lemma tokens_precede_completion_witness :
  exists messageId,
    notified
      (sent (desktop answered) (lit "hi") [first_id (desktop answered)]
         (one_conversation (desktop answered)))
    = [DidReceiveToken messageId (lit "He");
       DidReceiveToken messageId (lit "llo");
       DidCompleteMessage messageId hello]
    /\ fst (sendMessage (desktop answered) (lit "hi")
              (Some (first_id (desktop answered)))
              (one_conversation (desktop answered)))
       = Return messageId.
Proof.
  eexists.
  exact (@tokens_precede_completion (desktop answered) (lit "hi")
           (first_id (desktop answered))
           (first_conversation (desktop answered))
           (one_conversation (desktop answered))
           (fst (sendMessage (desktop answered) (lit "hi")
                   (Some (first_id (desktop answered)))
                   (one_conversation (desktop answered))))
           (sent (desktop answered) (lit "hi") [first_id (desktop answered)]
              (one_conversation (desktop answered)))
           eq_refl eq_refl (@generated_id_nonempty _ _) eq_refl
           (surjective_pairing _)).
Defined.

(** [sendMessage_only_appends] on a desktop whose client refuses, for the
    second of two conversations. *)
Lemma sendMessage_only_appends_witness :
  map fst
    (_conversations
       (sent (desktop refused) (lit "hi") [first_id (desktop refused)]
          (two_conversations (desktop refused))))
  = map fst (_conversations (two_conversations (desktop refused)))
  /\ exists c' user,
      JsMap.get
        (_conversations
           (sent (desktop refused) (lit "hi") [first_id (desktop refused)]
              (two_conversations (desktop refused))))
        (first_id (desktop refused))
      = Some c'
      /\ Conversation.messages c' = [user]
      /\ Message.content user = lit "hi".
Proof.
  destruct (@sendMessage_only_appends (desktop refused) (lit "hi")
              (first_id (desktop refused))
              (first_conversation (desktop refused))
              (two_conversations (desktop refused))
              (fst (sendMessage (desktop refused) (lit "hi")
                      (Some (first_id (desktop refused)))
                      (two_conversations (desktop refused))))
              (sent (desktop refused) (lit "hi") [first_id (desktop refused)]
                 (two_conversations (desktop refused)))
              eq_refl eq_refl (@generated_id_nonempty _ _) eq_refl
              (surjective_pairing _))
    as (Hkeys & _ & c' & user & later & Hget & Hmessages & _ & Hcontent
        & Hlater & _).
  split; [exact Hkeys|].
  exists c', user. split; [exact Hget|]. split; [|exact Hcontent].
  rewrite Hmessages.
  change (fst (sendMessage (desktop refused) (lit "hi")
                 (Some (first_id (desktop refused)))
                 (two_conversations (desktop refused))))
    with (@Raise jsstring
            (lit "Failed to send message: HTTP 403: Request failed"))
    in Hlater.
  now destruct later.
Defined.

(** [message_without_conversation] for a signed-in user with an empty
    store. *)
Lemma message_without_conversation_witness :
  exists messageId s' c user assistant,
    sendMessage (desktop answered) (lit "hi") None signed_in
    = (Return messageId, s')
    /\ JsMap.get (_conversations s') (Conversation.id c) = Some c
    /\ Conversation.messages c = [user; assistant]
    /\ Message.content user = lit "hi"
    /\ Message.content assistant = lit "Hello"
    /\ Conversation.title c = lit "hi"
    /\ synchronized s'.
Proof.
  destruct (@message_without_conversation (desktop answered) (lit "hi") hello
              signed_in eq_refl eq_refl eq_refl)
    as (messageId & s' & c & user & assistant & Hsend & _ & Hget & Hmessages
        & _ & _ & Hcontent & _ & Hanswer & _ & Htitle & _ & Hsync).
  exists messageId, s', c, user, assistant.
  repeat split; assumption.
Defined.

(** A store of one conversation is well keyed. *)
Lemma one_conversation_well_keyed env :
  well_keyed (_conversations (one_conversation env)).
Proof.
  split; repeat constructor. intros [].
Qed.

(** [conversations_stay_under_their_ids] for a message without a
    conversation id that follows the creation of a conversation. *)
Lemma conversations_stay_under_their_ids_witness :
  well_keyed
    (_conversations
       (snd (sendMessage (desktop answered) (lit "hi") None
               (one_conversation (desktop answered)))))
  /\ well_keyed
       (_conversations
          (snd (deleteConversation (lit "nowhere")
                  (one_conversation (desktop answered))))).
Proof.
  destruct (@conversations_stay_under_their_ids (desktop answered)
              (one_conversation (desktop answered))
              (one_conversation_well_keyed (desktop answered)))
    as (_ & Hsend & Hdelete & _).
  split; [apply Hsend | apply Hdelete].
Defined.

(** [reload_restores_conversations] after the creation of a
    conversation. *)
Lemma reload_restores_conversations_witness :
  _conversations (construct (stored (one_conversation (desktop answered))))
  = _conversations (one_conversation (desktop answered))
  /\ _isAuthenticated
       (construct (stored (one_conversation (desktop answered)))) = false.
Proof.
  apply (@reload_restores_conversations
           (one_conversation (desktop answered))
           (one_conversation_well_keyed (desktop answered))).
  reflexivity.
Defined.

End ServiceLawsExamples.

(* ===================================================================== *)
(** * The headless client: what its calls come to *)
(* ===================================================================== *)

Module ClientFacts.
Import PerplexityClient Client JsNumber JsStringFacts.
Import PerplexityService (result, Return, Raise).

Section Client.

Variable h : host.
Variable JSON_parse : jsstring -> option value.
Variable JSON_stringify : value -> jsstring.
Variable relational_gt : value -> nat -> option bool.

Local Abbreviation loadSession := (loadSession h JSON_parse).
Local Abbreviation saveSession := (saveSession h JSON_stringify).
Local Abbreviation createSession := (createSession h JSON_stringify).
Local Abbreviation sendMessage := (sendMessage h JSON_parse relational_gt).
Local Abbreviation perform :=
  (perform h JSON_parse JSON_stringify relational_gt).

(** ** Questions *)

(** X18.  What the outcome of [sendMessage] tells.  A response means
    that one request was made with the running instance and answered
    with status 200 by a stream that ended, and the response and the
    tokens are those of [processStreamingResponse] on that stream.  An
    exception is either the one for a missing session, thrown before
    anything else is done, or has a message that starts with ["Failed to
    send message: "]. *)
Theorem sendMessage_settles message onToken st tokens r st' :
  sendMessage message onToken st = ((tokens, r), st') ->
  match r with
  | Return response =>
      exists instance chunks request,
        cycleTLS st = Some instance
        /\ truthy (session st) = true
        /\ requests st' = requests st ++ [request]
        /\ ask h (3 + consulted st) request = Responds 200%Z (chunks, End)
        /\ processStreamingResponse JSON_parse relational_gt onToken chunks End
           = (tokens, Resolved response)
  | Raise error =>
      (error = no_session /\ truthy (session st) = false
       /\ tokens = [] /\ st' = st)
      \/ (startsWith error failed_to_send = true
          /\ truthy (session st) = true)
  end.
Proof.
  unfold Client.sendMessage.
  destruct (truthy (session st)) eqn:Hsession; cbn [negb].
  2: { intros [= <- <- <-]. left. repeat split. }
  destruct (cycleTLS st) as [instance|] eqn:Hinstance.
  2: { intros [= <- <- <-]. right. split; [exact (startsWith_app failed_to_send _)|reflexivity]. }
  set (request := Ask _ _ _ _ _).
  destruct (ask h (3 + consulted st) request) as [status [chunks e]|error]
    eqn:Hask.
  2: { intros [= <- <- <-]. right. split; [exact (startsWith_app failed_to_send _)|reflexivity]. }
  destruct (status =? 200)%Z eqn:Hstatus.
  2: { intros [= <- <- <-]. right. split; [exact (startsWith_app failed_to_send _)|reflexivity]. }
  apply Z.eqb_eq in Hstatus. subst status.
  destruct (processStreamingResponse _ _ _ chunks e) as [tokens' settlement]
    eqn:Hstream.
  intros [= <- <- <-].
  destruct settlement as [response|error].
  - exists instance, chunks, request.
    assert (e = End) as ->.
    { destruct e; [reflexivity|].
      unfold processStreamingResponse in Hstream. discriminate. }
    repeat split; assumption.
  - right. split; [exact (startsWith_app failed_to_send _)|reflexivity].
Qed.

(** ** Sessions *)

Lemma truthy_created cookies now :
  truthy
    (JObj [ (lit "cookies", JStr cookies);
            (lit "userAgent", JStr userAgent);
            (lit "sessionId", JStr (toString10 now)) ]) = true.
Proof. reflexivity. Qed.

(** A session that has just been created. *)
Lemma createSession_true st st1 :
  createSession st = (true, st1) ->
  cycleTLS st1 = cycleTLS st
  /\ (exists instance, cycleTLS st = Some instance)
  /\ truthy (session st1) = true
  /\ sessionFile st1
     = if writable h then Some (JSON_stringify (session st1))
       else sessionFile st.
Proof.
  unfold Client.createSession.
  destruct (cycleTLS st) as [instance|] eqn:Hinstance; [|discriminate].
  destruct (homepage h (consulted st)) as [status header|error];
    [|discriminate].
  destruct (_ && _); [|discriminate].
  unfold Client.saveSession.
  cbn [session with_session later requested].
  rewrite truthy_created.
  intros [= <-].
  destruct (writable h); cbn; eauto.
Qed.

(** X19.  [createSession] does not throw.  It returns [true] exactly
    when an instance is running and the homepage answers with status 200
    and cookies; then the session holds the cookies, joined by ["; "]
    when they come as an array, the user agent and the reading of the
    clock as [sessionId], and the session file holds the session when it
    can be written.  When it returns [false], the session and the
    session file are as before. *)
Theorem createSession_outcome st :
  exists ok st',
    createSession st = (ok, st')
    /\ cycleTLS st' = cycleTLS st
    /\ (ok = true <->
        exists instance status header,
          cycleTLS st = Some instance
          /\ homepage h (consulted st) = Responds status (Some header)
          /\ status = 200%Z
          /\ present (Some header) = true)
    /\ if ok then
         exists header,
           homepage h (consulted st) = Responds 200%Z (Some header)
           /\ session st'
              = JObj [ (lit "cookies", JStr (cookies_of header));
                       (lit "userAgent", JStr userAgent);
                       (lit "sessionId",
                         JStr (toString10 (Date_now h (1 + consulted st)))) ]
           /\ sessionFile st'
              = if writable h then Some (JSON_stringify (session st'))
                else sessionFile st
       else session st' = session st /\ sessionFile st' = sessionFile st.
Proof.
  unfold Client.createSession.
  destruct (cycleTLS st) as [instance|] eqn:Hinstance.
  2: { exists false, st. repeat split; try easy.
       intros (? & ? & ? & ? & _); discriminate. }
  destruct (homepage h (consulted st)) as [status header|error] eqn:Hhome.
  2: { eexists false, _. repeat split; try easy.
       intros (? & ? & ? & _ & ? & _); discriminate. }
  destruct (status =? 200)%Z eqn:Hstatus; cbn [andb].
  2: { eexists false, _. repeat split; try easy.
       intros (? & ? & ? & _ & [= -> _] & -> & _).
       discriminate. }
  apply Z.eqb_eq in Hstatus. subst status.
  destruct header as [header|]; cbn [present].
  2: { eexists false, _. repeat split; try easy.
       intros (? & ? & ? & _ & ? & _); discriminate. }
  destruct (present (Some header)) eqn:Hpresent.
  2: { cbn [present] in Hpresent. rewrite Hpresent.
       eexists false, _. repeat split; try easy.
       intros (? & ? & header' & _ & [= _ <-] & _ & Hp).
       cbn [present] in Hp. congruence. }
  cbn [present] in Hpresent. rewrite Hpresent.
  eexists true, _. split; [reflexivity|].
  unfold Client.saveSession.
  cbn [session with_session later requested].
  rewrite truthy_created.
  split.
  { destruct (writable h); exact Hinstance. }
  split.
  { split; [|reflexivity]. intros _.
    exists instance, 200%Z, header. repeat split; assumption. }
  exists header. split; [reflexivity|].
  destruct (writable h); split; reflexivity.
Qed.

(** X20.  A session that [createSession] has written is the session of
    a new client after [loadSession], provided the session file can be
    written and read and [JSON.parse] inverts [JSON.stringify] on the
    session. *)
Theorem session_survives_restart st st1 :
  createSession st = (true, st1) ->
  writable h = true ->
  readable h = true ->
  JSON_parse (JSON_stringify (session st1)) = Some (session st1) ->
  loadSession (reconstruct st1)
  = (true, with_session (session st1) (reconstruct st1))
  /\ truthy (session st1) = true.
Proof.
  intros Hcreate Hwrite Hread Hjson.
  destruct (createSession_true st Hcreate) as (_ & _ & Htruthy & Hfile).
  rewrite Hwrite in Hfile.
  unfold Client.loadSession. cbn [sessionFile reconstruct].
  rewrite Hfile, Hread, Hjson.
  split; [reflexivity|exact Htruthy].
Qed.

(** X21.  [loadSession] returns [true] whenever the session file can be
    read and parsed, also when it holds [null], [false], [0] or the
    empty string; [sendMessage] then throws the exception for a missing
    session and makes no request. *)
Theorem loaded_session_may_be_missing st sessionData v :
  sessionFile st = Some sessionData ->
  readable h = true ->
  JSON_parse sessionData = Some v ->
  truthy v = false ->
  exists st',
    loadSession st = (true, st')
    /\ forall message onToken,
         sendMessage message onToken st' = (([], Raise no_session), st').
Proof.
  intros Hfile Hread Hparse Hfalsy.
  exists (with_session v st). split.
  - unfold Client.loadSession. now rewrite Hfile, Hread, Hparse.
  - intros message onToken. unfold Client.sendMessage.
    cbn [session with_session]. now rewrite Hfalsy.
Qed.

(** ** Instances *)

Lemma accounted_same st st' :
  cycleTLS st' = cycleTLS st -> started st' = started st ->
  exited st' = exited st ->
  accounted st -> accounted st'.
Proof. unfold accounted. now intros -> -> ->. Qed.

Lemma initialize_accounted st :
  accounted st -> accounted (snd (initialize h st)).
Proof.
  unfold initialize. intros H.
  destruct (cycleTLS st) as [instance|] eqn:E; [exact H|].
  destruct (initCycleTLS h (consulted st)).
  - cbn [snd]. exact (@accounted_same st (later 1 st) eq_refl eq_refl eq_refl H).
  - destruct H as (Hnodup & Hall & Hstarted). rewrite E in Hstarted.
    unfold accounted. cbn [snd cycleTLS started exited].
    split; [exact Hnodup|]. split.
    + eapply Forall_impl; [|exact Hall]. cbn. intros; lia.
    + split; [now rewrite Hstarted|]. split; [lia|].
      intros Hin. rewrite Forall_forall in Hall.
      specialize (Hall _ Hin). cbn in Hall. lia.
Qed.

Lemma close_accounted st :
  accounted st -> accounted (snd (close h st)).
Proof.
  unfold close. intros H.
  destruct (cycleTLS st) as [instance|] eqn:E; [|exact H].
  destruct (exit h (consulted st)).
  - cbn [snd]. exact (@accounted_same st (later 1 st) eq_refl eq_refl eq_refl H).
  - destruct H as (Hnodup & Hall & Hstarted). rewrite E in Hstarted.
    destruct Hstarted as (Hstarted & Hlt & Hnotin).
    unfold accounted. cbn [snd cycleTLS started exited].
    split.
    + apply NoDup_app; [exact Hnodup|repeat constructor; easy|].
      intros i Hi [<-|[]]. contradiction.
    + split.
      * apply Forall_app. split; [exact Hall|now repeat constructor].
      * rewrite length_app. cbn [length]. lia.
Qed.

Lemma loadSession_accounted st :
  accounted st -> accounted (snd (loadSession st)).
Proof.
  unfold Client.loadSession.
  repeat match goal with
         | |- context [match ?x with _ => _ end] => destruct x
         end; easy.
Qed.

Lemma createSession_accounted st :
  accounted st -> accounted (snd (createSession st)).
Proof.
  unfold Client.createSession, Client.saveSession.
  repeat match goal with
         | |- context [match ?x with _ => _ end] => destruct x eqn:?
         | |- context [if ?x then _ else _] => destruct x eqn:?
         end; cbn [snd]; try easy;
    apply accounted_same; cbn; congruence.
Qed.

Lemma sendMessage_accounted message onToken st :
  accounted st -> accounted (snd (sendMessage message onToken st)).
Proof.
  unfold Client.sendMessage.
  repeat match goal with
         | |- context [match ?x with _ => _ end] => destruct x eqn:?
         | |- context [if ?x then _ else _] => destruct x eqn:?
         | |- context [let (_, _) := ?x in _] => destruct x eqn:?
         end; cbn [snd]; try easy;
    apply accounted_same; cbn; congruence.
Qed.

(** X22.  At most one instance of CycleTLS runs for a client: whatever
    calls are made on it, in whatever order and however they end, every
    instance that was started has exited, once, but the one the client
    holds. *)
Theorem instances_are_accounted file calls :
  accounted (fold_left perform calls (construct file)).
Proof.
  assert (H : accounted (construct file)).
  { repeat split; constructor. }
  revert H. generalize (construct file).
  induction calls as [|c calls IH]; intros st H; cbn [fold_left].
  - exact H.
  - apply IH. destruct c; cbn [Client.perform].
    + now apply initialize_accounted.
    + now apply loadSession_accounted.
    + now apply createSession_accounted.
    + now apply sendMessage_accounted.
    + now apply close_accounted.
Qed.

End Client.
End ClientFacts.

(* ===================================================================== *)
(** * The authentication: what the flag tells *)
(* ===================================================================== *)

Module AuthenticationFacts.
Import PerplexityService Authentication ClientFacts.

Section Authentication.

Variable isWeb : bool.
Variable import_client : nat -> option jsstring.
Variable h : Client.host.
Variable JSON_parse : jsstring -> option value.
Variable JSON_stringify : value -> jsstring.
Variable relational_gt : value -> nat -> option bool.

Local Abbreviation initialize :=
  (initialize isWeb import_client h JSON_parse).
Local Abbreviation authenticate_try :=
  (authenticate_try isWeb import_client h JSON_parse JSON_stringify).
Local Abbreviation authenticate :=
  (authenticate isWeb import_client h JSON_parse JSON_stringify).
Local Abbreviation dispose := (dispose isWeb h).

Lemma initialize_same_store a : same_store a (snd (initialize a)).
Proof.
  unfold Authentication.initialize.
  repeat match goal with
         | |- context [match ?x with _ => _ end] => destruct x
         | |- context [if ?x then _ else _] => destruct x
         | |- context [let (_, _) := ?x in _] => destruct x
         end; now split.
Qed.

(** X23.  [authenticate] does not throw.  Its result is the value it
    leaves in [isAuthenticated] and the last value it fires on
    [onDidChangeAuthenticationStatus]; in a web environment it is
    [false].  The conversations and their storage are not touched. *)
Theorem authenticate_is_reported a :
  _isAuthenticated (service_of (snd (authenticate a))) = fst (authenticate a)
  /\ (exists earlier,
        statuses (snd (authenticate a)) = earlier ++ [fst (authenticate a)])
  /\ isWeb && fst (authenticate a) = false
  /\ same_store a (snd (authenticate a)).
Proof.
  pose proof (initialize_same_store a) as Hinit.
  unfold Authentication.authenticate, Authentication.authenticate_try,
    client_createSession.
  destruct (_client a) eqn:Hclient.
  - destruct (initialize a) as [[[]|message] a1] eqn:E; cbn [snd] in Hinit.
    + destruct isWeb eqn:Hweb; cbn [fst snd andb].
      * repeat split; try apply Hinit. now eexists.
      * destruct (_client a1).
        -- cbn [fst snd report logged service_of _isAuthenticated statuses].
           repeat split; try apply Hinit. now eexists.
        -- cbn [fst snd report logged service_of _isAuthenticated statuses].
           repeat split; try apply Hinit. now eexists.
        -- destruct (Client.createSession _ _ _) as [[|] n];
             cbn [fst snd report logged with_client service_of
                  _isAuthenticated statuses];
             (repeat split; try apply Hinit); now eexists.
    + cbn [fst snd report logged service_of _isAuthenticated statuses].
      rewrite andb_false_r.
      repeat split; try apply Hinit. now eexists.
  - destruct isWeb; cbn iota; rewrite ?Hclient;
      cbn [fst snd andb report logged service_of _isAuthenticated statuses];
      repeat split; now eexists.
  - destruct isWeb; cbn iota; rewrite ?Hclient; cbn [fst snd andb].
    + repeat split. now eexists.
    + destruct (Client.createSession _ _ _) as [[|] n];
        cbn [fst snd report logged with_client service_of
             _isAuthenticated statuses];
        repeat split; now eexists.
Qed.

(** X24.  When [authenticate] returns [true], the service holds a
    headless client with a running instance of CycleTLS and a session
    that [sendMessage] accepts. *)
Theorem authenticated_means_session a a' :
  authenticate a = (true, a') ->
  isWeb = false
  /\ _isAuthenticated (service_of a') = true
  /\ _client a' = Headless
  /\ (exists instance, Client.cycleTLS (node a') = Some instance)
  /\ truthy (Client.session (node a')) = true.
Proof.
  assert (Hcreate : forall b success a0,
    client_createSession h JSON_stringify b = (Return success, a0) ->
    success = true ->
    _client a0 = Headless
    /\ (exists instance, Client.cycleTLS (node a0) = Some instance)
    /\ truthy (Client.session (node a0)) = true).
  { unfold client_createSession. intros b success a0.
    destruct (_client b); try discriminate.
    - intros [= <- _]. discriminate.
    - destruct (Client.createSession h JSON_stringify (node b))
        as [ok n] eqn:E.
      intros [= -> <-] ->. cbn [with_client _client node].
      destruct (@createSession_true h JSON_stringify (node b) n E)
        as (Hinstance & Hrunning & Htruthy & _).
      rewrite Hinstance. now repeat split. }
  unfold Authentication.authenticate.
  destruct (authenticate_try a) as [[success|message] a1] eqn:Htry;
    [|discriminate].
  intros [= -> <-].
  unfold Authentication.authenticate_try in Htry.
  destruct (_client a) eqn:Hclient.
  - destruct (initialize a) as [[[]|message] a2] eqn:Hinit; [|discriminate].
    destruct isWeb eqn:Hweb; [discriminate|].
    destruct (client_createSession h JSON_stringify a2)
      as [[success|m] a0] eqn:E; [|discriminate].
    injection Htry as -> <-.
    destruct (Hcreate _ _ _ E eq_refl) as (? & ? & ?).
    now repeat split.
  - destruct isWeb eqn:Hweb; [discriminate|].
    destruct (client_createSession h JSON_stringify a)
      as [[success|m] a0] eqn:E; [|discriminate].
    injection Htry as -> <-.
    destruct (Hcreate _ _ _ E eq_refl) as (? & ? & ?).
    now repeat split.
  - destruct isWeb eqn:Hweb; [discriminate|].
    destruct (client_createSession h JSON_stringify a)
      as [[success|m] a0] eqn:E; [|discriminate].
    injection Htry as -> <-.
    destruct (Hcreate _ _ _ E eq_refl) as (? & ? & ?).
    now repeat split.
Qed.

(** X25.  [initialize] sets [isAuthenticated] to the result of
    [loadSession]: over a session file that parses to [null], [false],
    [0] or the empty string, the service is authenticated and its client
    throws the exception for a missing session at every [sendMessage]. *)
Theorem authenticated_without_session a sessionData v :
  isWeb = false ->
  import_client (Client.consulted (node a)) = None ->
  Client.initCycleTLS h (1 + Client.consulted (node a)) = None ->
  Client.sessionFile (node a) = Some sessionData ->
  Client.readable h = true ->
  JSON_parse sessionData = Some v ->
  truthy v = false ->
  exists a',
    initialize a = (Return tt, a')
    /\ _isAuthenticated (service_of a') = true
    /\ statuses a' = statuses a ++ [true]
    /\ forall message onToken,
         fst (Client.sendMessage h JSON_parse relational_gt message onToken
                (node a'))
         = ([], Raise Client.no_session).
Proof.
  intros Hweb Himport Hinit Hfile Hread Hparse Hfalsy.
  unfold Authentication.initialize. rewrite Hweb, Himport.
  unfold Client.initialize.
  cbn [Client.cycleTLS Client.reconstruct Client.later Client.consulted].
  rewrite Hinit.
  unfold Client.loadSession.
  cbn [Client.sessionFile Client.reconstruct Client.later].
  rewrite Hfile, Hread, Hparse.
  eexists. split; [reflexivity|].
  cbn [report with_client service_of _isAuthenticated statuses node].
  repeat split.
  intros message onToken. unfold Client.sendMessage.
  cbn [Client.session Client.with_session]. now rewrite Hfalsy.
Qed.

Lemma loadSession_fields (st : Client.state) :
  Client.cycleTLS (snd (Client.loadSession h JSON_parse st))
  = Client.cycleTLS st
  /\ Client.exited (snd (Client.loadSession h JSON_parse st))
     = Client.exited st
  /\ Client.started (snd (Client.loadSession h JSON_parse st))
     = Client.started st.
Proof.
  unfold Client.loadSession.
  repeat match goal with
         | |- context [match ?x with _ => _ end] => destruct x
         | |- context [if ?x then _ else _] => destruct x
         end; now repeat split.
Qed.

(** X26.  Every [initialize] makes a new client and starts an instance of
    CycleTLS for it.  The instance of the client that the service held
    before is not exited: it keeps running, the service no longer holds
    it, and [dispose] exits the new one only. *)
Theorem instance_is_left_running a instance :
  isWeb = false ->
  _client a = Headless ->
  Client.cycleTLS (node a) = Some instance ->
  Client.accounted (node a) ->
  import_client (Client.consulted (node a)) = None ->
  Client.initCycleTLS h (1 + Client.consulted (node a)) = None ->
  exists a',
    initialize a = (Return tt, a')
    /\ Client.cycleTLS (node a') = Some (Client.started (node a))
    /\ instance < Client.started (node a)
    /\ ~ In instance (Client.exited (node a'))
    /\ ~ In instance (Client.exited (node (dispose a')))
    /\ ~ Client.accounted (node a').
Proof.
  intros Hweb Hclient Hinstance (Hnodup & Hall & Haccounted) Himport Hinit.
  rewrite Hinstance in Haccounted.
  destruct Haccounted as (Hstarted & Hlt & Hnotin).
  unfold Authentication.initialize. rewrite Hweb, Himport.
  unfold Client.initialize.
  cbn [Client.cycleTLS Client.reconstruct Client.later Client.consulted].
  rewrite Hinit.
  cbn [Client.sessionFile Client.started Client.exited Client.requests
       Client.session].
  set (n := Client.State _ _ _ _ _ _ _).
  pose proof (loadSession_fields n) as (H1 & H2 & H3).
  destruct (Client.loadSession h JSON_parse n) as [hasSession n'].
  cbn [snd] in H1, H2, H3. subst n.
  cbn [Client.cycleTLS Client.exited Client.started Client.reconstruct
       Client.later] in H1, H2, H3.
  eexists. split; [reflexivity|].
  cbn [report with_client node].
  rewrite H1, H2.
  split; [reflexivity|]. split; [exact Hlt|]. split; [exact Hnotin|].
  split.
  - unfold Authentication.dispose. cbn [_client report with_client node].
    unfold Client.close. rewrite H1.
    destruct (Client.exit h _); cbn [node logged with_client Client.later
                                      Client.exited].
    + now rewrite H2.
    + rewrite H2. intros Hin. apply in_app_or in Hin as [Hin|[Hin|[]]].
      * contradiction.
      * lia.
  - intros (_ & _ & Hacc). rewrite H1, H2, H3 in Hacc.
    destruct Hacc as (Hacc & _). lia.
Qed.

(** X27.  When CycleTLS cannot be started, [initialize] throws and the
    service keeps the new client without an instance.  [authenticate]
    then does not initialize again: it returns [false] without a request
    and without starting an instance. *)
Theorem failed_start_is_not_retried a message :
  isWeb = false ->
  import_client (Client.consulted (node a)) = None ->
  Client.initCycleTLS h (1 + Client.consulted (node a)) = Some message ->
  exists a1 a2,
    initialize a = (Raise message, a1)
    /\ _isAuthenticated (service_of a1) = _isAuthenticated (service_of a)
    /\ authenticate a1 = (false, a2)
    /\ Client.requests (node a2) = Client.requests (node a)
    /\ Client.started (node a2) = Client.started (node a)
    /\ Client.cycleTLS (node a2) = None
    /\ _isAuthenticated (service_of a2) = false.
Proof.
  intros Hweb Himport Hinit.
  unfold Authentication.initialize. rewrite Hweb, Himport.
  unfold Client.initialize.
  cbn [Client.cycleTLS Client.reconstruct Client.later Client.consulted].
  rewrite Hinit.
  eexists _, _. split; [reflexivity|]. split; [reflexivity|].
  unfold Authentication.authenticate, Authentication.authenticate_try,
    client_createSession.
  cbn [_client logged with_client node]. rewrite Hweb.
  unfold Client.createSession. cbn [Client.cycleTLS Client.later
    Client.reconstruct].
  split; [reflexivity|]. repeat split.
Qed.

End Authentication.
End AuthenticationFacts.

(* ===================================================================== *)
(** * The view pane: what a message sent from the chat leaves behind *)
(* ===================================================================== *)

Module ViewPaneFacts.
Import PerplexityService ViewPane JsNumber JsStringFacts JsMapFacts JsMapLaws
  ServiceFacts ServiceLaws.

Section Pane.

Variable env : environment.
Variable toLocaleTimeString : Z -> jsstring.

Local Abbreviation renderMessage := (renderMessage toLocaleTimeString).
Local Abbreviation sendMessage := (sendMessage env toLocaleTimeString).
Local Abbreviation service_sendMessage := (service_sendMessage env).
Local Abbreviation selectConversation :=
  (selectConversation toLocaleTimeString).

(** ** Tokens *)

(** A token changes nothing while the last message of the current
    conversation is a message of the user. *)
Lemma onTokenReceived_after_user token v s key c lastMessage earlier :
  currentConversation v = Some key ->
  JsMap.get (_conversations s) key = Some c ->
  Conversation.messages c = earlier ++ [lastMessage] ->
  Message.isUser lastMessage = true ->
  onTokenReceived token (v, s) = (v, s).
Proof.
  intros Hcurrent Hget Hmessages Huser.
  unfold onTokenReceived, current. rewrite Hcurrent, Hget, Hmessages.
  rewrite rev_app_distr. cbn [rev app]. now rewrite Huser.
Qed.

Lemma tokens_after_user tokens v s key c lastMessage earlier :
  currentConversation v = Some key ->
  JsMap.get (_conversations s) key = Some c ->
  Conversation.messages c = earlier ++ [lastMessage] ->
  Message.isUser lastMessage = true ->
  fold_left (fun vs token => onTokenReceived token vs) tokens (v, s) = (v, s).
Proof.
  intros Hcurrent Hget Hmessages Huser.
  induction tokens as [|token tokens IH]; cbn [fold_left]; [reflexivity|].
  now rewrite (@onTokenReceived_after_user token v s key c lastMessage
                 earlier Hcurrent Hget Hmessages Huser).
Qed.

(** ** A message *)

Lemma retitle_longer content c :
  2 < length (Conversation.messages c) -> retitle content c = c.
Proof.
  intros H. unfold retitle.
  destruct (Nat.eqb _ 2) eqn:E; [apply Nat.eqb_eq in E; lia|reflexivity].
Qed.

(** X28.  A message sent from the chat is recorded twice.  The view
    appends the message and an empty placeholder for the answer to the
    current conversation, which is the object that the service stores,
    and the service then appends the message again.  The tokens of the
    answer arrive while the last message is that of the user, so none of
    them is shown or appended to the placeholder.  After the call the
    conversation holds, after its earlier messages, the message, the
    empty placeholder, the message again and, when the client answered,
    the answer; its title is the one it had, since the conversation has
    more than two messages when the service looks at the title; the chat
    shows the message and the empty placeholder. *)
Theorem message_from_the_chat content key c v s :
  _isAuthenticated s = true ->
  isWeb env = false ->
  currentConversation v = Some key ->
  JsMap.get (_conversations s) key = Some c ->
  Conversation.id c = key ->
  key <> [] ->
  trim (messageInput_value v) = content ->
  content <> [] ->
  exists c' user placeholder sent later,
    JsMap.get (_conversations (snd (sendMessage v s))) key = Some c'
    /\ Conversation.messages c'
       = Conversation.messages c ++ user :: placeholder :: sent :: later
    /\ (Message.isUser user = true /\ Message.content user = content)
    /\ (Message.isUser placeholder = false
        /\ Message.content placeholder = []
        /\ Message.response placeholder = None)
    /\ (Message.isUser sent = true /\ Message.content sent = content)
    /\ match outcome (client_sendMessage env (8 + consulted s) content),
             later with
       | inl response, [assistant] =>
           Message.isUser assistant = false
           /\ Message.content assistant = Response.answer response
       | inr _, [] => True
       | _, _ => False
       end
    /\ Conversation.title c' = Conversation.title c
    /\ chatContainer (fst (sendMessage v s))
       = chatContainer v
         ++ [ {| of_user := true; textContent := content;
                 time := toLocaleTimeString (Message.timestamp user) |};
              {| of_user := false; textContent := [];
                 time := toLocaleTimeString (Message.timestamp placeholder)
              |} ]
    /\ sendButton_enabled (fst (sendMessage v s)) = true
    /\ messageInput_value (fst (sendMessage v s)) = [].
Proof.
  intros Hauth Hweb Hcurrent Hget Hid Hkey Hcontent Hnonempty.
  remember (sendMessage v s) as r eqn:Er.
  unfold ViewPane.sendMessage, current in Er.
  rewrite Hcontent, Hcurrent, Hget, Hid in Er.
  destruct content as [|ch rest] eqn:Econtent; [contradiction|].
  rewrite <- Econtent in *. clear Hnonempty.
  set (n := consulted s) in *.
  set (user := Message.Build (toString10 (Date_now env n)) content
                 (Date_now env (1 + n)) true None) in *.
  set (placeholder := Message.Build
                        (toString10 (Date_now env (2 + n)) ++ lit "_assistant")
                        [] (Date_now env (3 + n)) false None) in *.
  unfold push in Er.
  cbn [_conversations with_conversations _isAuthenticated stored notified]
    in Er.
  rewrite update_update in Er.
  set (f := fun c0 : Conversation.t => _) in Er.
  set (s4 := Service _ _ _ _ _) in Er.
  set (v4 := ViewPane.renderMessage _ placeholder _) in Er.
  assert (Hget4 : JsMap.get (_conversations s4) key = Some (f c))
    by (cbn [_conversations s4]; now rewrite get_update_same, Hget).
  assert (Hauth4 : _isAuthenticated s4 = true) by exact Hauth.
  unfold ViewPane.service_sendMessage in Er.
  pose proof (@sendMessage_begin_does env content key (f c) s4 Hauth4 Hweb
                Hkey Hget4) as Hbegin.
  cbn zeta in Hbegin.
  change (@Some (list code_unit) key) with (@Some jsstring key) in Hbegin.
  rewrite Hbegin in Er. clear Hbegin.
  cbn [fst snd consulted s4] in Er.
  set (sent := PerplexityService.user_message env content (4 + n)) in Er.
  set (s5 := Service _ _ _ _ _) in Er.
  assert (Hcurrent4 : currentConversation v4 = Some key) by reflexivity.
  assert (Hget5 : JsMap.get (_conversations s5) key
                  = Some (pushed sent (Date_now env (3 + (4 + n))) (f c)))
    by (cbn [_conversations s5 s4]; now rewrite !get_update_same, Hget).
  rewrite (@tokens_after_user (tokens _) v4 s5 key _ sent
             (Conversation.messages (f c)) Hcurrent4 Hget5 eq_refl eq_refl)
    in Er.
  rewrite sendMessage_exchange_does in Er. cbn zeta in Er.
  cbn [consulted s5] in Er.
  change (4 + (4 + n)) with (8 + n) in Er.
  assert (Hlong : forall m now,
    retitle content (pushed m now (pushed sent (Date_now env (3 + (4 + n)))
                                     (f c)))
    = pushed m now (pushed sent (Date_now env (3 + (4 + n))) (f c))).
  { intros m now. apply retitle_longer. unfold pushed, f.
    cbn [Conversation.messages Conversation.with_messages
         Conversation.with_updatedAt].
    rewrite !length_app. cbn [length]. lia. }
  assert (Hview : forall s0,
    chatContainer (onMessageCompleted v4 s0) = chatContainer v4
    /\ messageInput_value (onMessageCompleted v4 s0) = []).
  { intros s0. unfold onMessageCompleted, loadConversations.
    destruct (_isAuthenticated s0); [|now split].
    destruct (getConversations s0) as [[l|m] s1]; now split. }
  destruct (outcome (client_sendMessage env (8 + n) content))
    as [response|error]; cbn [snd] in Er; subst r; cbn [fst snd].
  - match goal with
    | |- context [onMessageCompleted v4 ?s0] =>
        destruct (Hview s0) as [Hchat Hinput]; set (s9 := s0) in *
    end.
    eexists _, user, placeholder, sent, [_].
    split.
    { cbn [_conversations s9 s5 s4].
      rewrite !get_update_same, Hget. cbn [option_map].
      rewrite Hlong. reflexivity. }
    unfold pushed, f.
    cbn [Conversation.messages Conversation.with_messages
         Conversation.with_updatedAt Conversation.title
         with_sendButton_enabled chatContainer sendButton_enabled
         messageInput_value].
    split; [now rewrite <- !app_assoc|].
    repeat split; try assumption.
    rewrite Hchat. unfold v4, ViewPane.renderMessage.
    cbn [chatContainer with_chatContainer]. now rewrite <- app_assoc.
  - eexists _, user, placeholder, sent, [].
    split.
    { cbn [_conversations s5 s4].
      rewrite !get_update_same, Hget. cbn [option_map]. reflexivity. }
    unfold pushed, f.
    cbn [Conversation.messages Conversation.with_messages
         Conversation.with_updatedAt Conversation.title
         with_sendButton_enabled chatContainer sendButton_enabled
         messageInput_value].
    split; [now rewrite <- !app_assoc|].
    repeat split.
    unfold v4, ViewPane.renderMessage.
    cbn [chatContainer with_chatContainer]. now rewrite <- app_assoc.
Qed.

(** ** Tokens for another conversation *)

Lemma extended_nil m : extended m [] = m.
Proof. unfold extended. rewrite app_nil_r. now destruct m. Qed.

Lemma extended_twice m a b : extended (extended m a) b = extended m (a ++ b).
Proof. unfold extended. cbn. now rewrite app_assoc. Qed.

Lemma append_to_last_snoc token earlier m :
  append_to_last token (earlier ++ [m]) = earlier ++ [extended m token].
Proof.
  unfold append_to_last. rewrite rev_app_distr. cbn [rev app].
  now rewrite rev_involutive.
Qed.

(** What the tokens of an answer leave in the store while the last
    message of the current conversation is not a message of the user. *)
Lemma tokens_after_assistant tokens : forall v s key c earlier m,
  currentConversation v = Some key ->
  JsMap.get (_conversations s) key = Some c ->
  Conversation.messages c = earlier ++ [m] ->
  Message.isUser m = false ->
  exists v' s',
    fold_left (fun vs token => onTokenReceived token vs) tokens (v, s)
    = (v', s')
    /\ JsMap.get (_conversations s') key
       = Some (Conversation.with_messages
                 (earlier ++ [extended m (concat tokens)]) c)
    /\ (forall k, k <> key ->
        JsMap.get (_conversations s') k = JsMap.get (_conversations s) k)
    /\ _isAuthenticated s' = _isAuthenticated s
    /\ stored s' = stored s
    /\ notified s' = notified s
    /\ consulted s' = consulted s.
Proof.
  induction tokens as [|token tokens IH]; intros v s key c earlier m
    Hcurrent Hget Hmessages Huser.
  - exists v, s. cbn [fold_left concat]. rewrite extended_nil, <- Hmessages.
    split; [reflexivity|]. split; [|now repeat split].
    rewrite Hget. now destruct c.
  - cbn [fold_left concat].
    unfold onTokenReceived at 2, current.
    rewrite Hcurrent, Hget, Hmessages, rev_app_distr. cbn [rev app].
    rewrite Huser.
    set (v1 := with_chatContainer _ v).
    set (s1 := with_conversations _ s).
    assert (Hget1 : JsMap.get (_conversations s1) key
                    = Some (Conversation.with_messages
                              (earlier ++ [extended m token]) c)).
    { cbn [_conversations s1 with_conversations].
      rewrite get_update_same, Hget. cbn [option_map].
      now rewrite Hmessages, append_to_last_snoc. }
    assert (Hcurrent1 : currentConversation v1 = Some key) by exact Hcurrent.
    destruct (IH v1 s1 key _ earlier (extended m token) Hcurrent1 Hget1
                eq_refl Huser)
      as (v' & s' & Hfold & Hget' & Hother & Hauth & Hstored & Hnotified
          & Hconsulted).
    exists v', s'. split; [exact Hfold|].
    rewrite extended_twice in Hget'.
    split; [exact Hget'|].
    split; [|now repeat split].
    intros k Hk. rewrite (Hother k Hk).
    cbn [_conversations s1 with_conversations].
    now apply get_update_other.
Qed.

(** X29.  The listener of the tokens does not look at the message id.
    While the view shows a conversation whose last message is not a
    message of the user, the tokens of an answer to another conversation
    are appended, in order, to the content of that last message in the
    store; when the client has answered, the storage entry is written
    with it. *)
Theorem tokens_go_to_the_current_conversation content asked shown c0 c
  earlier m v s :
  _isAuthenticated s = true ->
  isWeb env = false ->
  asked <> [] ->
  JsMap.get (_conversations s) asked = Some c0 ->
  currentConversation v = Some shown ->
  shown <> asked ->
  JsMap.get (_conversations s) shown = Some c ->
  Conversation.messages c = earlier ++ [m] ->
  Message.isUser m = false ->
  let x := client_sendMessage env (4 + consulted s) content in
  let s' := snd (snd (service_sendMessage content asked v s)) in
  JsMap.get (_conversations s') shown
  = Some (Conversation.with_messages
            (earlier ++ [extended m (concat (tokens x))]) c)
  /\ match outcome x with
     | inl _ => synchronized s'
     | inr _ => stored s' = stored s
     end.
Proof.
  intros Hauth Hweb Hasked Hget0 Hcurrent Hdiff Hget Hmessages Huser x s'.
  subst s'. unfold ViewPane.service_sendMessage.
  pose proof (@sendMessage_begin_does env content asked c0 s Hauth Hweb
                Hasked Hget0) as Hbegin.
  cbn zeta in Hbegin.
  change (@Some (list code_unit) asked) with (@Some jsstring asked) in Hbegin.
  rewrite Hbegin. clear Hbegin. cbn [fst snd consulted].
  set (s1 := Service _ _ _ _ _).
  assert (Hget1 : JsMap.get (_conversations s1) shown = Some c).
  { cbn [_conversations s1]. now rewrite get_update_other. }
  destruct (@tokens_after_assistant
              (tokens (client_sendMessage env (4 + consulted s) content))
              v s1 shown c earlier m Hcurrent Hget1 Hmessages Huser)
    as (v' & s2 & Hfold & Hget2 & _ & Hauth2 & Hstored2 & Hnotified2
        & Hconsulted2).
  rewrite Hfold. rewrite sendMessage_exchange_does. cbn zeta.
  rewrite Hconsulted2. cbn [consulted s1]. fold x.
  destruct (outcome x) as [response|error]; cbn [snd _conversations stored].
  - split; [|reflexivity].
    now rewrite !get_update_other.
  - split; [exact Hget2|]. now rewrite Hstored2.
Qed.

(** ** The selection *)

Lemma renderMessages messages v :
  fold_left (fun v message => renderMessage message v) messages v
  = with_chatContainer
      (chatContainer v
       ++ map (fun message =>
                 {| of_user := Message.isUser message;
                    textContent := Message.content message;
                    time := toLocaleTimeString (Message.timestamp message) |})
            messages)
      v.
Proof.
  revert v. induction messages as [|m messages IH]; intros v;
    cbn [fold_left map].
  - rewrite app_nil_r. now destruct v.
  - rewrite IH. unfold ViewPane.renderMessage.
    cbn [with_chatContainer chatContainer currentConversation
         messageInput_value sendButton_enabled chatContainer_shown
         conversationsList].
    now rewrite <- app_assoc.
Qed.

Lemma select_first_app found before i after :
  Forall (fun j => found j = false) before ->
  found i = true ->
  select_first found (before ++ i :: after)
  = before ++ {| text := text i; opens := opens i; selected := true |} :: after.
Proof.
  intros Hbefore Hi.
  induction Hbefore as [|j before Hj _ IH]; cbn [app select_first].
  - now rewrite Hi.
  - now rewrite Hj, IH.
Qed.

(** X30.  [selectConversation] shows the messages of the conversation
    in the chat and makes it the current one.  In the list it marks the
    first item whose text is the title of the conversation, and no
    other: when an earlier item has the same title, that one is marked,
    whatever conversation it opens. *)
Theorem selection_goes_by_title key c v s before i after :
  JsMap.get (_conversations s) key = Some c ->
  conversationsList v = before ++ i :: after ->
  text i = Conversation.title c ->
  Forall (fun j => JsString.eqb (text j) (Conversation.title c) = false)
    before ->
  let unmarked :=
    map (fun j => {| text := text j; opens := opens j; selected := false |}) in
  currentConversation (selectConversation key v s) = Some key
  /\ chatContainer (selectConversation key v s)
     = map (fun message =>
              {| of_user := Message.isUser message;
                 textContent := Message.content message;
                 time := toLocaleTimeString (Message.timestamp message) |})
         (Conversation.messages c)
  /\ chatContainer_shown (selectConversation key v s) = true
  /\ conversationsList (selectConversation key v s)
     = unmarked before
       ++ {| text := text i; opens := opens i; selected := true |}
       :: unmarked after.
Proof.
  intros Hget Hlist Htext Hbefore unmarked.
  unfold ViewPane.selectConversation, renderChat, current.
  cbn [currentConversation]. rewrite Hget, renderMessages.
  cbn [with_chatContainer currentConversation chatContainer
       chatContainer_shown conversationsList app].
  rewrite Hget, Hlist.
  repeat split.
  rewrite map_app. cbn [map].
  rewrite select_first_app.
  - reflexivity.
  - rewrite Forall_map. exact Hbefore.
  - cbn [text]. rewrite Htext. apply eqb_refl.
Qed.

End Pane.
End ViewPaneFacts.

(* ===================================================================== *)
(** * The client, the authentication and the view on sample runs *)
(* ===================================================================== *)

Module ClientExamples.
Import PerplexityClient Client ClientSamples ClientFacts DecoderSamples.
Import PerplexityService (result, Return, Raise).

(** [sendMessage_settles] for a connected client on the host [online]. *)
Lemma sendMessage_settles_witness :
  exists instance chunks request,
    cycleTLS (connected online) = Some instance
    /\ truthy (session (connected online)) = true
    /\ requests
         (snd (sendMessage online JSON.parse never_gt (lit "hi") true
                 (connected online)))
       = requests (connected online) ++ [request]
    /\ ask online (3 + consulted (connected online)) request
       = Responds 200%Z (chunks, End)
    /\ processStreamingResponse JSON.parse never_gt true chunks End
       = ([lit "He"; lit "llo"; lit ", world"],
          Resolved
            {| Response.success := true;
               Response.answer := lit "Hello, world";
               Response.threadUrlSlug := JStr (lit "abc");
               Response.readWriteToken := JStr [];
               Response.fullResponse := 12 |}).
Proof.
  apply (@sendMessage_settles online JSON.parse never_gt (lit "hi") true
           (connected online)
           [lit "He"; lit "llo"; lit ", world"]
           (Return
              {| Response.success := true;
                 Response.answer := lit "Hello, world";
                 Response.threadUrlSlug := JStr (lit "abc");
                 Response.readWriteToken := JStr [];
                 Response.fullResponse := 12 |})
           (snd (sendMessage online JSON.parse never_gt (lit "hi") true
                   (connected online)))).
  vm_compute. reflexivity.
Defined.

(** On the host [forbidden] the exception names the status; on the host
    [broken] the tokens of the two lines are passed before the
    exception, whose message has two prefixes. *)
Example failures_on_sample_hosts :
  fst (sendMessage forbidden JSON.parse never_gt (lit "hi") true
         (connected forbidden))
  = ([], Raise (lit "Failed to send message: HTTP 403: Request failed"))
  /\ fst (sendMessage broken JSON.parse never_gt (lit "hi") true
            (connected broken))
     = ([lit "He"; lit "llo"],
        Raise (lit "Failed to send message: Stream error: socket hang up")).
Proof. split; vm_compute; reflexivity. Qed.

(** [session_survives_restart] on the host [online]. *)
Lemma session_survives_restart_witness :
  loadSession online JSON.parse (reconstruct (connected online))
  = (true,
     with_session (session (connected online))
       (reconstruct (connected online)))
  /\ truthy (session (connected online)) = true.
Proof.
  apply (@session_survives_restart online JSON.parse written
           (snd (initialize online (construct None))) (connected online));
    vm_compute; reflexivity.
Defined.

(** [loaded_session_may_be_missing] for a session file that holds
    [null]. *)
Lemma loaded_session_may_be_missing_witness :
  exists st',
    loadSession online JSON.parse (construct (Some (lit "null")))
    = (true, st')
    /\ forall message onToken,
         sendMessage online JSON.parse never_gt message onToken st'
         = (([], Raise no_session), st').
Proof.
  apply (@loaded_session_may_be_missing online JSON.parse never_gt
           (construct (Some (lit "null"))) (lit "null") JNull);
    reflexivity.
Defined.

End ClientExamples.

Module AuthenticationExamples.
Import PerplexityService Authentication AuthenticationFacts.
Import ClientSamples AuthenticationSamples.

(** [authenticated_means_session] for a first [authenticate] on the host
    [online]. *)
Lemma authenticated_means_session_witness :
  fst (authenticate false imported online JSON.parse written fresh) = true
  /\ _isAuthenticated
       (service_of
          (snd (authenticate false imported online JSON.parse written fresh)))
     = true
  /\ truthy
       (Client.session
          (node
             (snd (authenticate false imported online JSON.parse written
                     fresh))))
     = true.
Proof.
  split; [vm_compute; reflexivity|].
  destruct (@authenticated_means_session false imported online JSON.parse
              written fresh
              (snd (authenticate false imported online JSON.parse written
                      fresh)))
    as (_ & Hflag & _ & _ & Hsession).
  - vm_compute. reflexivity.
  - split; assumption.
Defined.

(** [authenticated_without_session] over a session file that holds
    [null]. *)
Lemma authenticated_without_session_witness :
  exists a',
    initialize false imported online JSON.parse nulled = (Return tt, a')
    /\ _isAuthenticated (service_of a') = true
    /\ statuses a' = [true]
    /\ forall message onToken,
         fst (Client.sendMessage online JSON.parse PerplexityClient.never_gt message onToken
                (node a'))
         = ([], Raise Client.no_session).
Proof.
  apply (@authenticated_without_session false imported online JSON.parse
           PerplexityClient.never_gt nulled (lit "null") JNull);
    reflexivity.
Defined.

Lemma initialized_accounted : Client.accounted (node initialized).
Proof.
  repeat split; try constructor. intros [].
Qed.

(** [instance_is_left_running] for a second [initialize] on the host
    [online]: the instance 0 of the first client keeps running beside
    the instance 1. *)
Lemma instance_is_left_running_witness :
  exists a',
    initialize false imported online JSON.parse initialized = (Return tt, a')
    /\ Client.cycleTLS (node a') = Some 1
    /\ Client.started (node a') = 2
    /\ Client.exited (node (dispose false online a')) = [1].
Proof.
  destruct (@instance_is_left_running false imported online JSON.parse
              initialized 0 eq_refl eq_refl eq_refl initialized_accounted
              eq_refl eq_refl)
    as (a' & Hinit & Hinstance & _).
  exists a'. split; [exact Hinit|]. split; [exact Hinstance|].
  apply (f_equal snd) in Hinit. cbn [snd] in Hinit. subst a'.
  split; vm_compute; reflexivity.
Defined.

(** [failed_start_is_not_retried] on the host [stuck]. *)
Lemma failed_start_is_not_retried_witness :
  exists a1 a2,
    initialize false imported stuck JSON.parse fresh
    = (Raise (lit "spawn ENOENT"), a1)
    /\ authenticate false imported stuck JSON.parse written a1 = (false, a2)
    /\ Client.requests (node a2) = []
    /\ Client.started (node a2) = 0
    /\ errors a2
       = [ (lit "Failed to initialize Perplexity service:",
             Some (lit "spawn ENOENT"));
           (lit "Perplexity authentication failed", None) ].
Proof.
  destruct (@failed_start_is_not_retried false imported stuck JSON.parse
              written fresh (lit "spawn ENOENT") eq_refl eq_refl eq_refl)
    as (a1 & a2 & Hinit & _ & Hauth & Hrequests & Hstarted & _).
  exists a1, a2. split; [exact Hinit|]. split; [exact Hauth|].
  split; [exact Hrequests|]. split; [exact Hstarted|].
  apply (f_equal snd) in Hinit. cbn [snd] in Hinit. subst a1.
  apply (f_equal snd) in Hauth. cbn [snd] in Hauth. subst a2.
  vm_compute. reflexivity.
Defined.

End AuthenticationExamples.

Module ViewPaneExamples.
Import PerplexityService ViewPane ViewPaneFacts ServiceSamples ViewSamples.

(** [message_from_the_chat] for a new chat on a desktop whose client
    answers ["Hello"]: the conversation holds four messages and keeps the
    default title. *)
Lemma message_from_the_chat_witness :
  exists c',
    JsMap.get
      (_conversations
         (snd (sendMessage (desktop answered) shown_time
                 (fst (chatting (desktop answered)))
                 (snd (chatting (desktop answered))))))
      (first_id (desktop answered))
    = Some c'
    /\ map Message.content (Conversation.messages c')
       = [lit "hi"; []; lit "hi"; lit "Hello"]
    /\ Conversation.title c' = sentinel
    /\ map textContent
         (chatContainer
            (fst (sendMessage (desktop answered) shown_time
                    (fst (chatting (desktop answered)))
                    (snd (chatting (desktop answered))))))
       = [lit "hi"; []].
Proof.
  destruct (@message_from_the_chat (desktop answered) shown_time (lit "hi")
              (first_id (desktop answered))
              (first_conversation (desktop answered))
              (fst (chatting (desktop answered)))
              (snd (chatting (desktop answered)))
              eq_refl eq_refl eq_refl eq_refl eq_refl
              (@ServiceFacts.generated_id_nonempty _ _) eq_refl)
    as (c' & user & placeholder & sent & later & Hget & Hmessages
        & [_ Huser] & (_ & Hplaceholder & _) & [_ Hsent] & Hlater & Htitle
        & Hchat & _);
    [discriminate|].
  exists c'. split; [exact Hget|].
  change (outcome
            (client_sendMessage (desktop answered)
               (8 + consulted (snd (chatting (desktop answered))))
               (lit "hi")))
    with (@inl Response.t jsstring hello) in Hlater.
  destruct later as [|assistant [|]]; try contradiction.
  destruct Hlater as [_ Hanswer].
  split.
  { rewrite Hmessages. cbn [map app Conversation.messages first_conversation].
    now rewrite Huser, Hplaceholder, Hsent, Hanswer. }
  split; [exact Htitle|].
  rewrite Hchat. reflexivity.
Defined.

(** [tokens_go_to_the_current_conversation]: while the view shows the
    conversation that was answered with ["Hello"], the other conversation
    is asked; the tokens ["He"] and ["llo"] of its answer end up in the
    answer of the conversation shown. *)
Lemma tokens_go_to_the_current_conversation_witness :
  option_map (fun c => map Message.content (Conversation.messages c))
    (JsMap.get
       (_conversations
          (snd (snd (service_sendMessage (desktop answered) (lit "more")
                       (empty_chat (desktop answered))
                       (fst (two_chats (desktop answered)))
                       (snd (two_chats (desktop answered)))))))
       (answered_chat (desktop answered)))
  = Some [lit "hi"; lit "HelloHello"]
  /\ synchronized
       (snd (snd (service_sendMessage (desktop answered) (lit "more")
                    (empty_chat (desktop answered))
                    (fst (two_chats (desktop answered)))
                    (snd (two_chats (desktop answered)))))).
Proof.
  destruct (@tokens_go_to_the_current_conversation (desktop answered)
              (lit "more")
              (empty_chat (desktop answered))
              (answered_chat (desktop answered))
              (stored_under (empty_chat (desktop answered))
                 (snd (two_chats (desktop answered))))
              (stored_under (answered_chat (desktop answered))
                 (snd (two_chats (desktop answered))))
              (removelast
                 (Conversation.messages
                    (stored_under (answered_chat (desktop answered))
                       (snd (two_chats (desktop answered))))))
              (last_message
                 (stored_under (answered_chat (desktop answered))
                    (snd (two_chats (desktop answered)))))
              (fst (two_chats (desktop answered)))
              (snd (two_chats (desktop answered))))
    as [Hget Hstored];
    [vm_compute; reflexivity | reflexivity
     | apply ServiceFacts.generated_id_nonempty
     | vm_compute; reflexivity | vm_compute; reflexivity
     | vm_compute; discriminate
     | vm_compute; reflexivity | vm_compute; reflexivity
     | vm_compute; reflexivity |].
  split; [|exact Hstored].
  rewrite Hget. vm_compute. reflexivity.
Defined.

(** [selection_goes_by_title] for two conversations with the default
    title: a click on the second item makes the conversation it opens
    the current one and marks the first item. *)
Lemma selection_goes_by_title_witness :
  map text (conversationsList (fst (two_untitled stalled)))
  = [sentinel; sentinel]
  /\ map opens (conversationsList (fst (two_untitled stalled)))
     = [lit "25"; lit "11"]
  /\ currentConversation
       (selectConversation shown_time (lit "11")
          (fst (two_untitled stalled)) (snd (two_untitled stalled)))
     = Some (lit "11")
  /\ map selected
       (conversationsList
          (selectConversation shown_time (lit "11")
             (fst (two_untitled stalled)) (snd (two_untitled stalled))))
     = [true; false].
Proof.
  split; [vm_compute; reflexivity|].
  split; [vm_compute; reflexivity|].
  destruct (@selection_goes_by_title shown_time (lit "11")
              (first_conversation stalled)
              (fst (two_untitled stalled)) (snd (two_untitled stalled))
              []
              {| text := sentinel; opens := lit "25"; selected := true |}
              [ {| text := sentinel; opens := lit "11"; selected := false |} ])
    as (Hcurrent & _ & _ & Hlist);
    [vm_compute; reflexivity | vm_compute; reflexivity | reflexivity
     | constructor |].
  split; [exact Hcurrent|].
  rewrite Hlist. reflexivity.
Defined.

End ViewPaneExamples.
